(** * Temporal pivot and row shaping of the apprenticeship reports

    A shallow embedding of [utils.py] (version resolver, cleaning of
    names, parsing of counts, Markdown table), [starts.py]
    (threshold-bucketed league table) and [london_sme.py] (adjusted table
    with excluded providers), with the extraction of the records from
    the rows of the input file, followed by the properties of the pivot
    engine and of the functions around it.

    Conventions.
    - Python [str] is [string]; comparison of strings is the byte-wise
      lexicographic order [String.compare], which coincides with Python's
      code-point order on UTF-8 text.
    - Python [int] is [Z].
    - A Python [dict] is an association list in insertion order (module
      [Dict]): iteration order decides the order of rows.
    - A Python [set] that is only ever sorted is a duplicate-free list in
      order of first insertion; the order matters only between elements
      with equal sort keys.
    - Exceptions are the [Raise] results of the [result] monad.
    - Text is modelled on ASCII characters: the digits of [\d],
      [str.isdigit] and [int], the white space of [str.strip] and [\s],
      and the letters changed by [str.lower] and [str.upper] are the
      ASCII ones.  On text with other characters the interpreter knows
      more digits, white space and letters; the statements that depend
      on them are made for ASCII text ([ascii_text]).
    - [str(n)] and [int(s)] are modelled for numerals of any length.
      The interpreter refuses numerals of more than 4300 digits
      ([max_str_digits]): [parse_positions], which catches the error,
      is modelled with the limit, and [printable] names the record sets
      whose numbers stay within it. *)

From Stdlib Require Import String Ascii List ZArith Lia Bool.
From Stdlib Require Import Permutation Sorted DecimalString DecimalZ.
Import ListNotations.

Local Open Scope Z_scope.
Local Open Scope list_scope.

(** ** Exceptions *)

Inductive exn : Type :=
| ValueError
| IndexError.

Inductive result (A : Type) : Type :=
| Ok (a : A)
| Raise (e : exn).

Arguments Ok {A} a.
Arguments Raise {A} e.

Definition bind {A B : Type} (m : result A) (k : A -> result B) : result B :=
  match m with
  | Ok a => k a
  | Raise e => Raise e
  end.

Notation "x <- m ;; k" := (bind m (fun x => k))
  (at level 61, m at next level, right associativity).

Fixpoint mapM {A B : Type} (f : A -> result B) (l : list A) : result (list B) :=
  match l with
  | [] => Ok []
  | x :: t =>
      y <- f x ;;
      ys <- mapM f t ;;
      Ok (y :: ys)
  end.

(** ** Python string primitives *)

Module Str.

Abbreviation cat := String.append (only parsing).

(** [s.startswith(p)] *)
Definition startswith (s p : string) : bool := String.prefix p s.

(** [needle in hay] *)
Fixpoint contains (needle hay : string) : bool :=
  String.prefix needle hay
  || match hay with
     | EmptyString => false
     | String _ t => contains needle t
     end.

(** [s.split(sep)] for a non-empty separator: leftmost, non-overlapping
    occurrences.  [skip] counts the characters of a matched separator
    that are still to be dropped. *)
Fixpoint split_from (sep : string) (skip : nat) (s : string) : list string :=
  match s with
  | EmptyString => [EmptyString]
  | String c t =>
      match skip with
      | S k => split_from sep k t
      | O =>
          if String.prefix sep s
          then EmptyString :: split_from sep (String.length sep - 1) t
          else match split_from sep 0 t with
               | h :: r => String c h :: r
               | [] => [String c EmptyString]
               end
      end
  end.

Definition split (s sep : string) : list string := split_from sep 0 s.

(** The ten ASCII digits: what [\d] and [str.isdigit] accept on ASCII
    text. *)
Definition is_digit (c : ascii) : bool :=
  let n := nat_of_ascii c in (48 <=? n)%nat && (n <=? 57)%nat.

(** ASCII characters for which [str.isspace] holds. *)
Definition is_space (c : ascii) : bool :=
  let n := nat_of_ascii c in
  (n =? 32)%nat || ((9 <=? n)%nat && (n <=? 13)%nat)
  || ((28 <=? n)%nat && (n <=? 31)%nat).

Fixpoint lstrip (s : string) : string :=
  match s with
  | String c t => if is_space c then lstrip t else s
  | EmptyString => EmptyString
  end.

Fixpoint rstrip (s : string) : string :=
  match s with
  | EmptyString => EmptyString
  | String c t =>
      match rstrip t with
      | EmptyString => if is_space c then EmptyString else String c EmptyString
      | t' => String c t'
      end
  end.

Definition strip (s : string) : string := rstrip (lstrip s).

(** [str.lower] on the ASCII letters. *)
Definition lower_char (c : ascii) : ascii :=
  let n := nat_of_ascii c in
  if (65 <=? n)%nat && (n <=? 90)%nat then ascii_of_nat (n + 32) else c.

Fixpoint lower (s : string) : string :=
  match s with
  | EmptyString => EmptyString
  | String c t => String (lower_char c) (lower t)
  end.

(** [''.join(filter(str.isdigit, s))] *)
Fixpoint digits_only (s : string) : string :=
  match s with
  | EmptyString => EmptyString
  | String c t => if is_digit c then String c (digits_only t) else digits_only t
  end.

(** [str(n)] for an integer. *)
Definition of_Z (n : Z) : string := NilEmpty.string_of_int (Z.to_int n).

(** The digit groups of an integer literal: single underscores are
    allowed between digits and are dropped. [prev] tells whether the
    previous character was a digit. *)
Fixpoint literal_digits (prev : bool) (s : string) : option string :=
  match s with
  | EmptyString => if prev then Some EmptyString else None
  | String c t =>
      if is_digit c then option_map (String c) (literal_digits true t)
      else if Ascii.eqb c "_" then
             if prev then literal_digits false t else None
           else None
  end.

Definition unsigned_literal (s : string) : option Z :=
  match literal_digits false s with
  | Some d => option_map Z.of_uint (NilEmpty.uint_of_string d)
  | None => None
  end.

(** The white space that [int] skips on ASCII text: the blank and the
    characters from tab to carriage return, but not the separators 28
    to 31 that [str.strip] removes. *)
Definition is_int_space (c : ascii) : bool :=
  let n := nat_of_ascii c in
  (n =? 32)%nat || ((9 <=? n)%nat && (n <=? 13)%nat).

Fixpoint int_lstrip (s : string) : string :=
  match s with
  | String c t => if is_int_space c then int_lstrip t else s
  | EmptyString => EmptyString
  end.

Fixpoint int_rstrip (s : string) : string :=
  match s with
  | EmptyString => EmptyString
  | String c t =>
      match int_rstrip t with
      | EmptyString => if is_int_space c then EmptyString else String c EmptyString
      | t' => String c t'
      end
  end.

(** [int(s)] on ASCII text: surrounding whitespace is skipped, one
    sign is allowed, then a decimal literal.  [None] is [ValueError]. *)
Definition to_Z (s : string) : option Z :=
  match int_rstrip (int_lstrip s) with
  | EmptyString => None
  | String c t =>
      if Ascii.eqb c "+" then unsigned_literal t
      else if Ascii.eqb c "-" then option_map Z.opp (unsigned_literal t)
      else unsigned_literal (String c t)
  end.

End Str.

(** [sys.int_info.default_max_str_digits]: [str] and [int] raise
    [ValueError] on a numeral with more digits. *)
Definition max_str_digits : nat := 4300.

(** ** Insertion-ordered dictionaries *)

Module Dict.

Section WithValue.
Context {V : Type}.

Definition t := list (string * V).

(** [d.get(k)] *)
Fixpoint get (d : t) (k : string) : option V :=
  match d with
  | [] => None
  | (k', v) :: r => if String.eqb k' k then Some v else get r k
  end.

(** [d.get(k, default)] *)
Definition get_or (d : t) (k : string) (default : V) : V :=
  match get d k with
  | Some v => v
  | None => default
  end.

(** [k in d] *)
Definition mem (d : t) (k : string) : bool :=
  match get d k with
  | Some _ => true
  | None => false
  end.

(** [d[k] = v]: an existing key keeps its position, a new key goes
    to the end. *)
Fixpoint set (d : t) (k : string) (v : V) : t :=
  match d with
  | [] => [(k, v)]
  | (k', v') :: r =>
      if String.eqb k' k then (k', v) :: r else (k', v') :: set r k v
  end.

(** The dictionary left by [d.pop(k, default)]. *)
Fixpoint remove (d : t) (k : string) : t :=
  match d with
  | [] => []
  | (k', v') :: r =>
      if String.eqb k' k then r else (k', v') :: remove r k
  end.

Definition keys (d : t) : list string := map fst d.
Definition values (d : t) : list V := map snd d.

End WithValue.

Arguments t : clear implicits.

End Dict.

(** ** Sets and sorting *)

Fixpoint mem_str (x : string) (l : list string) : bool :=
  match l with
  | [] => false
  | y :: t => String.eqb y x || mem_str x t
  end.

(** The elements of [set(l)], in order of first insertion. *)
Fixpoint set_of (l : list string) : list string :=
  match l with
  | [] => []
  | x :: t => x :: filter (fun y => negb (String.eqb x y)) (set_of t)
  end.

Section StableSort.
Context {K A : Type} (before : K -> K -> bool).

(** [ins] puts the new element in front of the first element that it
    may precede; with [sort_keyed] folding from the right this keeps
    elements with equal keys in their original order. *)
Fixpoint ins (x : K * A) (l : list (K * A)) : list (K * A) :=
  match l with
  | [] => [x]
  | y :: t => if before (fst x) (fst y) then x :: y :: t else y :: ins x t
  end.

Fixpoint sort_keyed (l : list (K * A)) : list (K * A) :=
  match l with
  | [] => []
  | x :: t => ins x (sort_keyed t)
  end.

End StableSort.

Definition sum_Z (l : list Z) : Z := fold_right Z.add 0 l.

Definition str_leb (a b : string) : bool := String.leb a b.


(** ** Records and tables *)

(** One normalised row, as built by [extract_apprenticeship_starts] and
    [extract_london_sme_starts]. *)
Record starts_record : Type := mk_record {
  provider : string;
  provider_clean : string;
  year : string;
  quarter : Z;
  starts : Z;
  standard_code : string;
  standard_name : string
}.

(** A table cell is a string or an integer. *)
Inductive cell : Type :=
| CStr (s : string)
| CInt (n : Z).

Definition table : Type := (list string * list (list cell) * string)%type.

(** [config.py] *)
Definition STARTS_MIN_THRESHOLD : Z := 3.
Definition ALWAYS_SHOW_PROVIDERS : list string := ["FOUNDERS & CODERS"%string].

(** ** [utils.format_academic_year] *)

(** On ASCII text, where [str.isdigit] holds of the ten digits only. *)
Definition format_academic_year (year : string) : string :=
  let year_digits := Str.digits_only year in
  if (String.length year_digits =? 6)%nat
  then Str.cat (String.substring 0 4 year_digits)
         (Str.cat "-" (String.substring 4 2 year_digits))
  else year.

(** ** The pivot shared by [starts.py] and [london_sme.py] *)

Definition matrix : Type := Dict.t (Dict.t Z).

(** Truth value of the optional argument [most_recent_year]: [None] and
    the empty string are false. *)
Definition truthy (most_recent_year : option string) : bool :=
  match most_recent_year with
  | Some (String _ _) => true
  | _ => false
  end.

(** [f"{year} Q{quarter}"] *)
Definition quarter_key (y : string) (q : Z) : string :=
  Str.cat y (Str.cat " Q" (Str.of_Z q)).

(** The key chosen in the loop body of
    [aggregate_starts_by_provider_year]. *)
Definition year_key_of (most_recent_year : option string) (record : starts_record)
  : string :=
  match most_recent_year with
  | Some m =>
      if truthy most_recent_year && String.eqb (year record) m && (0 <? quarter record)
      then quarter_key (year record) (quarter record)
      else year record
  | None => year record
  end.

(** One iteration of the loop of [aggregate_starts_by_provider_year]. *)
Definition aggregate_step (most_recent_year : option string)
  (aggregated : matrix) (record : starts_record) : matrix :=
  let provider := provider_clean record in
  let aggregated :=
    if Dict.mem aggregated provider then aggregated
    else Dict.set aggregated provider [] in
  let year_key := year_key_of most_recent_year record in
  let year_data := Dict.get_or aggregated provider [] in
  let year_data :=
    if Dict.mem year_data year_key then year_data
    else Dict.set year_data year_key 0 in
  let year_data :=
    Dict.set year_data year_key (Dict.get_or year_data year_key 0 + starts record) in
  Dict.set aggregated provider year_data.

Definition aggregate_starts_by_provider_year (starts_data : list starts_record)
  (most_recent_year : option string) : matrix :=
  fold_left (aggregate_step most_recent_year) starts_data [].

(** [sorted(set(record['year'] ...))[-1]] *)
Definition sorted_base_years (starts_data : list starts_record) : list string :=
  map snd (sort_keyed str_leb (map (fun y => (y, y)) (set_of (map year starts_data)))).

(** The union of the key sets of all rows of the matrix. *)
Definition all_year_keys (aggregated : matrix) : list string :=
  set_of (flat_map (fun pd => Dict.keys (snd pd)) aggregated).

(** The nested function [sort_key]: tuple unpacking of a split with other
    than two parts, and [int] of a non-number, raise [ValueError]. *)
Definition sort_key (year_key : string) : result (string * Z) :=
  if Str.contains " Q" year_key then
    match Str.split year_key " Q" with
    | [year_part; q_part] =>
        match Str.to_Z q_part with
        | Some q => Ok (year_part, q)
        | None => Raise ValueError
        end
    | _ => Raise ValueError
    end
  else Ok (year_key, 0).

(** Order of the tuples [(str, int)]. *)
Definition tuple_leb (a b : string * Z) : bool :=
  match String.compare (fst a) (fst b) with
  | Lt => true
  | Eq => snd a <=? snd b
  | Gt => false
  end.

(** [sorted(all_year_keys, key=sort_key)] *)
Definition sorted_year_keys (keys : list string) : result (list string) :=
  keyed <- mapM (fun k => sk <- sort_key k ;; Ok (sk, k)) keys ;;
  Ok (map snd (sort_keyed tuple_leb keyed)).

Definition quarterly_keys_of (most_recent_year : string) (year_keys : list string)
  : list string :=
  filter (fun key => Str.startswith key most_recent_year && Str.contains " Q" key)
    year_keys.

(** The loop that builds [final_year_keys]; [quarterly_keys[0]] raises
    [IndexError] on an empty list. *)
Fixpoint final_year_keys (most_recent_year : string) (quarterly_keys : list string)
  (year_keys : list string) : result (list string) :=
  match year_keys with
  | [] => Ok []
  | key :: rest =>
      if negb (Str.contains " Q" key) then
        tail <- final_year_keys most_recent_year quarterly_keys rest ;;
        Ok (key :: tail)
      else
        match quarterly_keys with
        | [] => Raise IndexError
        | first :: _ =>
            tail <- final_year_keys most_recent_year quarterly_keys rest ;;
            if String.eqb key first
            then Ok (most_recent_year :: key :: tail)
            else Ok (key :: tail)
        end
  end.

(** The column plan: sorted keys, quarterly keys of the most recent year
    and the final key list. *)
Definition plan_columns (aggregated : matrix) (most_recent_year : string)
  : result (list string * list string * list string) :=
  sorted <- sorted_year_keys (all_year_keys aggregated) ;;
  let quarterly_keys := quarterly_keys_of most_recent_year sorted in
  final <- final_year_keys most_recent_year quarterly_keys sorted ;;
  Ok (sorted, quarterly_keys, final).

(** [sum(starts for key, starts in year_data.items()
         if key.startswith(most_recent_year))] *)
Definition recent_starts (most_recent_year : string) (year_data : Dict.t Z) : Z :=
  sum_Z (map snd (filter (fun kv => Str.startswith (fst kv) most_recent_year) year_data)).

(** [sum(provider_data.get(q_key, 0) for q_key in quarterly_keys
         for _, provider_data in providers)] *)
Definition quarterly_total (quarterly_keys : list string)
  (providers : list (string * Dict.t Z)) : Z :=
  sum_Z (flat_map
           (fun q_key => map (fun pd => Dict.get_or (snd pd) q_key 0) providers)
           quarterly_keys).

(** [sum(provider_data.get(year_key, 0) for _, provider_data in providers)] *)
Definition column_total (year_key : string) (providers : list (string * Dict.t Z)) : Z :=
  sum_Z (map (fun pd => Dict.get_or (snd pd) year_key 0) providers).

(** The value computed for [year_key] in the loops that fill
    [year_totals], [other_totals] and [small_totals]. *)
Definition total_for (most_recent_year : string) (quarterly_keys : list string)
  (providers : list (string * Dict.t Z)) (year_key : string) : Z :=
  if String.eqb year_key most_recent_year
  then quarterly_total quarterly_keys providers
  else column_total year_key providers.

(** [totals = {}; for year_key in year_keys: totals[year_key] = ...] *)
Definition totals_dict (most_recent_year : string) (quarterly_keys : list string)
  (providers : list (string * Dict.t Z)) (year_keys : list string) : Dict.t Z :=
  fold_left
    (fun totals year_key =>
       Dict.set totals year_key
         (total_for most_recent_year quarterly_keys providers year_key))
    year_keys [].

(** The value of one provider in one column. *)
Definition row_value (most_recent_year : string) (quarterly_keys : list string)
  (year_data : Dict.t Z) (year_key : string) : Z :=
  if String.eqb year_key most_recent_year
  then sum_Z (map (fun q_key => Dict.get_or year_data q_key 0) quarterly_keys)
  else Dict.get_or year_data year_key 0.

Definition row_values (most_recent_year : string) (quarterly_keys : list string)
  (year_data : Dict.t Z) (year_keys : list string) : list cell :=
  map (fun year_key => CInt (row_value most_recent_year quarterly_keys year_data year_key))
    year_keys.

(** [f"**{n}**"] *)
Definition bold (n : Z) : string := Str.cat "**" (Str.cat (Str.of_Z n) "**").

(** One header label.  [split(' Q')[1]] is only evaluated when the key
    contains the separator, so the index is in range. *)
Definition header_of (year_key : string) : string :=
  let parts := Str.split year_key " Q" in
  Str.cat (format_academic_year (nth 0 parts EmptyString))
    (if Str.contains " Q" year_key
     then Str.cat " Q" (nth 1 parts EmptyString)
     else EmptyString).

Definition no_data (title : string) : table :=
  (["Provider"%string; "No data available"%string], [], title).

(** ** [starts.prepare_starts_table_data] *)

(** The test that sends a provider to [major_providers]. *)
Definition is_major (min_starts : Z) (most_recent_year : string)
  (pd : string * Dict.t Z) : bool :=
  (min_starts <=? recent_starts most_recent_year (snd pd))
  || mem_str (fst pd) ALWAYS_SHOW_PROVIDERS.

(** Comparison used by a sort with [reverse=True]; the sort stays stable. *)
Definition desc (a b : Z) : bool := b <=? a.

(** [providers.sort(key=lambda x: sum(... startswith(most_recent_year)),
                    reverse=True)] *)
Definition sort_by_recent (most_recent_year : string)
  (providers : list (string * Dict.t Z)) : list (string * Dict.t Z) :=
  map snd
    (sort_keyed desc
       (map (fun x => (recent_starts most_recent_year (snd x), x)) providers)).

Definition provider_row (most_recent_year : string) (quarterly_keys year_keys : list string)
  (label : string) (year_data : Dict.t Z) : list cell :=
  CStr label :: row_values most_recent_year quarterly_keys year_data year_keys.

Definition totals_row (label : string) (totals : Dict.t Z) (year_keys : list string)
  : list cell :=
  CStr label :: map (fun year_key => CInt (Dict.get_or totals year_key 0)) year_keys.

Definition bold_totals_row (totals : Dict.t Z) (year_keys : list string) : list cell :=
  CStr "**Total**"
  :: map (fun year_key => CStr (bold (Dict.get_or totals year_key 0))) year_keys.

(** The column plan is computed by [plan_columns]; the source tests the
    sorted keys for emptiness before the loop that builds the final keys,
    which does nothing on an empty list. *)
Definition prepare_starts_table_data (starts_data : list starts_record)
  (min_starts : Z) : result table :=
  match starts_data with
  | [] => Ok (no_data "Unknown Standard")
  | first :: _ =>
      let title :=
        Str.cat (standard_code first)
          (Str.cat " " (Str.cat (standard_name first) " starts")) in
      match rev (sorted_base_years starts_data) with
      | [] => Ok (no_data (standard_name first))
      | most_recent_year :: _ =>
          let aggregated :=
            aggregate_starts_by_provider_year starts_data (Some most_recent_year) in
          plan <- plan_columns aggregated most_recent_year ;;
          let '(sorted, quarterly_keys, year_keys) := plan in
          match sorted with
          | [] => Ok (no_data (standard_name first))
          | _ :: _ =>
              let major_providers :=
                sort_by_recent most_recent_year
                  (filter (is_major min_starts most_recent_year) aggregated) in
              let other_providers :=
                filter (fun pd => negb (is_major min_starts most_recent_year pd))
                  aggregated in
              let year_totals :=
                totals_dict most_recent_year quarterly_keys aggregated year_keys in
              let other_totals :=
                totals_dict most_recent_year quarterly_keys other_providers year_keys in
              let headers := "Provider"%string :: map header_of year_keys in
              let total_row := bold_totals_row year_totals year_keys in
              let major_rows :=
                map (fun pd =>
                       provider_row most_recent_year quarterly_keys year_keys
                         (fst pd) (snd pd))
                  major_providers in
              let other_rows :=
                match other_providers with
                | [] => []
                | _ :: _ => [totals_row "All other providers" other_totals year_keys]
                end in
              Ok (headers, total_row :: major_rows ++ other_rows, title)
          end
      end
  end.

(** ** [london_sme.py] *)

(** The loop of [apply_founders_coders_adjustments], for any provider
    name and any list of adjustments. *)
Definition apply_adjustments (name : string) (adjustments : Dict.t Z)
  (aggregated : matrix) : matrix :=
  let aggregated :=
    if Dict.mem aggregated name then aggregated else Dict.set aggregated name [] in
  fold_left
    (fun aggregated adj =>
       let '(year_key, additional_starts) := adj in
       let year_data := Dict.get_or aggregated name [] in
       let year_data :=
         if Dict.mem year_data year_key then year_data
         else Dict.set year_data year_key 0 in
       let year_data :=
         Dict.set year_data year_key
           (Dict.get_or year_data year_key 0 + additional_starts) in
       Dict.set aggregated name year_data)
    adjustments aggregated.

Definition fc_name : string := "FOUNDERS & CODERS".

Definition fc_adjustments : Dict.t Z :=
  [("202425 Q3"%string, 1); ("202425 Q2"%string, 2); ("202425 Q1"%string, 1);
   ("202324"%string, 3); ("202223"%string, 2)].

Definition apply_founders_coders_adjustments (aggregated : matrix) : matrix :=
  apply_adjustments fc_name fc_adjustments aggregated.

Definition rogue_provider_names : list string :=
  ["LONDON COLLEGE OF GLOBAL EDUCATION"%string; "CITY COLLEGE OF LONDON"%string].

(** The loop that moves the rogue providers out of [aggregated]; the
    result is the list [rogue_providers] and what is left of the matrix. *)
Definition separate_rogue (names : list string) (aggregated : matrix)
  : list (string * Dict.t Z) * matrix :=
  fold_left
    (fun acc rogue_name =>
       let '(rogue_providers, aggregated) := acc in
       match Dict.get aggregated rogue_name with
       | Some year_data =>
           (rogue_providers ++ [(rogue_name, year_data)],
            Dict.remove aggregated rogue_name)
       | None => (rogue_providers, aggregated)
       end)
    names ([], aggregated).

(** [max(values, default=0)] *)
Definition max_default (values : list Z) : Z :=
  match values with
  | [] => 0
  | v :: rest => fold_left Z.max rest v
  end.

(** [max((starts for key, starts in year_data.items() if ' Q' not in key),
         default=0)] *)
Definition max_starts (year_data : Dict.t Z) : Z :=
  max_default
    (map snd (filter (fun kv => negb (Str.contains " Q" (fst kv))) year_data)).

Definition is_major_sme (pd : string * Dict.t Z) : bool := 4 <=? max_starts (snd pd).

Definition prepare_london_sme_table_data (starts_data : list starts_record)
  : result table :=
  match starts_data with
  | [] => Ok (no_data "Unknown Standard")
  | first :: _ =>
      let title :=
        Str.cat (standard_code first)
          (Str.cat " " (Str.cat (standard_name first) " starts (London SMEs only)")) in
      match rev (sorted_base_years starts_data) with
      | [] => Ok (no_data (standard_name first))
      | most_recent_year :: _ =>
          let aggregated :=
            aggregate_starts_by_provider_year starts_data (Some most_recent_year) in
          let aggregated := apply_founders_coders_adjustments aggregated in
          plan <- plan_columns aggregated most_recent_year ;;
          let '(sorted, quarterly_keys, year_keys) := plan in
          match sorted with
          | [] => Ok (no_data (standard_name first))
          | _ :: _ =>
              let fc_data := Dict.get_or aggregated fc_name [] in
              let aggregated := Dict.remove aggregated fc_name in
              let '(rogue_providers, aggregated) :=
                separate_rogue rogue_provider_names aggregated in
              let major_providers :=
                sort_by_recent most_recent_year (filter is_major_sme aggregated) in
              let small_providers :=
                filter (fun pd => negb (is_major_sme pd)) aggregated in
              let counted := (fc_name, fc_data) :: major_providers ++ small_providers in
              let year_totals :=
                totals_dict most_recent_year quarterly_keys counted year_keys in
              let small_totals :=
                totals_dict most_recent_year quarterly_keys small_providers year_keys in
              let headers := "Provider"%string :: map header_of year_keys in
              let fc_rows :=
                match fc_data with
                | [] => []
                | _ :: _ =>
                    [provider_row most_recent_year quarterly_keys year_keys
                       fc_name fc_data]
                end in
              let major_rows :=
                map (fun pd =>
                       provider_row most_recent_year quarterly_keys year_keys
                         (fst pd) (snd pd))
                  major_providers in
              let small_rows :=
                match small_providers with
                | [] => []
                | _ :: _ => [totals_row "All other providers" small_totals year_keys]
                end in
              let total_row := bold_totals_row year_totals year_keys in
              let rogue_rows :=
                map (fun pd =>
                       provider_row most_recent_year quarterly_keys year_keys
                         (Str.cat (fst pd) " (closed)") (snd pd))
                  rogue_providers in
              Ok (headers,
                  fc_rows ++ major_rows ++ small_rows ++ [total_row] ++ rogue_rows,
                  title)
          end
      end
  end.

(** ** [utils.py]: the version resolver *)

Module Path.

Fixpoint has_slash (s : string) : bool :=
  match s with
  | EmptyString => false
  | String c t => Ascii.eqb c "/" || has_slash t
  end.

(** [os.path.basename]: what follows the last slash. *)
Fixpoint basename (s : string) : string :=
  match s with
  | EmptyString => EmptyString
  | String c t =>
      if Ascii.eqb c "/" || has_slash t then basename t else s
  end.

Fixpoint all_slashes (s : string) : bool :=
  match s with
  | EmptyString => true
  | String c t => Ascii.eqb c "/" && all_slashes t
  end.

(** What precedes the last slash, that slash included. *)
Fixpoint head (s : string) : string :=
  match s with
  | EmptyString => EmptyString
  | String c t =>
      if Ascii.eqb c "/" || has_slash t then String c (head t) else EmptyString
  end.

(** [s.rstrip('/')] *)
Fixpoint rstrip_slash (s : string) : string :=
  match s with
  | EmptyString => EmptyString
  | String c t =>
      match rstrip_slash t with
      | EmptyString => if Ascii.eqb c "/" then EmptyString else String c EmptyString
      | t' => String c t'
      end
  end.

(** [os.path.dirname] *)
Definition dirname (s : string) : string :=
  let h := head s in
  if all_slashes h then h else rstrip_slash h.

Fixpoint ends_with_slash (s : string) : bool :=
  match s with
  | EmptyString => false
  | String c EmptyString => Ascii.eqb c "/"
  | String _ t => ends_with_slash t
  end.

(** [os.path.join(a, b)] *)
Definition join (a b : string) : string :=
  match b with
  | String "/" _ => b
  | _ =>
      match a with
      | EmptyString => b
      | _ => if ends_with_slash a then Str.cat a b else Str.cat a (Str.cat "/" b)
      end
  end.

Definition join3 (a b c : string) : string := join (join a b) c.

End Path.

(** The first [n] characters of [s] when they are all digits. *)
Fixpoint take_digits (n : nat) (s : string) : option string :=
  match n with
  | O => Some EmptyString
  | S k =>
      match s with
      | String c t =>
          if Str.is_digit c then option_map (String c) (take_digits k t) else None
      | EmptyString => None
      end
  end.

(** [re.search(r'(\d{4})(\d{2})', filename)]: the two groups of the
    leftmost run of six digits. *)
Fixpoint search_year (filename : string) : option (string * string) :=
  match take_digits 6 filename with
  | Some run => Some (String.substring 0 4 run, String.substring 4 2 run)
  | None =>
      match filename with
      | String _ t => search_year t
      | EmptyString => None
      end
  end.

(** [re.search(r'-q(\d)', filename, re.IGNORECASE)]: the digit of the
    leftmost match. *)
Fixpoint search_quarter (filename : string) : option ascii :=
  match filename with
  | EmptyString => None
  | String c t =>
      match t with
      | String q (String d _) =>
          if Ascii.eqb c "-" && (Ascii.eqb q "q" || Ascii.eqb q "Q") && Str.is_digit d
          then Some d
          else search_quarter t
      | _ => search_quarter t
      end
  end.

(** [int] of a string of digits. *)
Definition digit_value (c : ascii) : Z := Z.of_nat (nat_of_ascii c) - 48.

Fixpoint digits_value_from (acc : Z) (s : string) : Z :=
  match s with
  | EmptyString => acc
  | String c t => digits_value_from (10 * acc + digit_value c) t
  end.

Definition digits_value (s : string) : Z := digits_value_from 0 s.

Definition month_map : list (string * Z) :=
  [("jan", 1); ("feb", 2); ("mar", 3); ("apr", 4); ("may", 5); ("jun", 6);
   ("jul", 7); ("aug", 8); ("sep", 9); ("oct", 10); ("nov", 11); ("dec", 12);
   ("january", 1); ("february", 2); ("march", 3); ("april", 4); ("june", 6);
   ("july", 7); ("august", 8); ("september", 9); ("october", 10);
   ("november", 11); ("december", 12)]%string.

(** The loop over [month_map.items()]: the first name, in the order of
    the map, that occurs in the lower-cased file name. *)
Fixpoint search_month (months : list (string * Z)) (lowered : string) : option Z :=
  match months with
  | [] => None
  | (month_name, month_num) :: rest =>
      if Str.contains month_name lowered then Some month_num
      else search_month rest lowered
  end.

Definition extract_year_quarter_from_filename (filename : string) : Z * Z * Z :=
  match search_year filename with
  | None => (0, 0, 0)
  | Some (g1, g2) =>
      let year_start := digits_value g1 in
      let year_end := digits_value g2 in
      match search_quarter filename with
      | Some d => (year_start, year_end, digit_value d)
      | None =>
          match search_month month_map (Str.lower filename) with
          | Some month_num => (year_start, year_end, month_num)
          | None => (year_start, year_end, 0)
          end
      end
  end.

(** Order of the tuples [(int, int, int)]. *)
Definition triple_leb (a b : Z * Z * Z) : bool :=
  let '(a1, a2, a3) := a in
  let '(b1, b2, b3) := b in
  (a1 <? b1) || ((a1 =? b1) && ((a2 <? b2) || ((a2 =? b2) && (a3 <=? b3)))).

(** The nested function [sort_key] of both resolvers. *)
Definition file_sort_key (filepath : string) : Z * Z * Z :=
  extract_year_quarter_from_filename (Path.basename filepath).

(** [files.sort(key=sort_key, reverse=True)] *)
Definition sort_newest_first (files : list string) : list string :=
  map snd
    (sort_keyed (fun a b => triple_leb b a) (map (fun f => (file_sort_key f, f)) files)).

(** Operations on files, as opposed to the directory listings of [glob]. *)
Inductive file_op : Type :=
| OpenZip (path : string)
| ExtractMember (zip member target_dir : string).

Section FileSystem.

(** [glob.glob]: the paths that match a pattern, in the order the
    file system lists them. *)
Variable glob : string -> list string.

(** [zipfile.ZipFile(path).namelist()] *)
Variable namelist : string -> list string.

(** The candidates found under the versioned folders. *)
Definition folder_candidates (pattern folder_prefix subfolder : string)
  : list string :=
  flat_map (fun folder => glob (Path.join3 folder subfolder pattern))
    (glob (Str.cat folder_prefix "_*")).

Definition latest_candidates (file_pattern folder_prefix subfolder : string)
  : list string :=
  glob file_pattern ++ folder_candidates file_pattern folder_prefix subfolder.

Definition find_latest_file (file_pattern folder_prefix subfolder : string)
  : option string :=
  match latest_candidates file_pattern folder_prefix subfolder with
  | [] => None
  | all_files => hd_error (sort_newest_first all_files)
  end.

Definition ends_with_csv (f : string) : bool :=
  let n := String.length f in
  (4 <=? n)%nat && String.eqb (String.substring (n - 4) 4 f) ".csv".

(** The result and the file operations performed, in order, when the
    archives are readable; [Zip.extract_from_zip_if_needed] below has
    the exceptions of an archive that is not. *)
Definition extract_from_zip_if_needed (zip_pattern folder_prefix subfolder : string)
  : option string * list file_op :=
  match folder_candidates zip_pattern folder_prefix subfolder with
  | [] => (None, [])
  | all_zip_files =>
      match sort_newest_first all_zip_files with
      | [] => (None, [])
      | zip_file :: _ =>
          match filter ends_with_csv (namelist zip_file) with
          | member :: _ =>
              let extract_path := Path.dirname zip_file in
              (Some (Path.join extract_path member),
               [OpenZip zip_file; ExtractMember zip_file member extract_path])
          | [] => (None, [OpenZip zip_file])
          end
      end
  end.

End FileSystem.

(** ** Vocabulary of the statements *)

Definition all_digits (s : string) : bool :=
  forallb Str.is_digit (list_ascii_of_string s).

(** [run] is a run of six digits of [f], after [pre] and before [post]. *)
Definition digit_run_at (f pre run post : string) : Prop :=
  f = Str.cat pre (Str.cat run post)
  /\ String.length run = 6%nat
  /\ all_digits run = true.

(** A token [-q<d>] or [-Q<d>] of [f], after [pre] and before [post]. *)
Definition quarter_token_at (f pre : string) (d : ascii) (post : string) : Prop :=
  exists q : ascii,
    (q = "q"%char \/ q = "Q"%char)
    /\ Str.is_digit d = true
    /\ f = Str.cat pre (String "-" (String q (String d post))).

(** Text of ASCII characters only. *)
Definition ascii_text (s : string) : bool :=
  forallb (fun c => (nat_of_ascii c <? 128)%nat) (list_ascii_of_string s).

(** The record sets whose numbers the interpreter prints: the years are
    ASCII text, and the quarters and every sum of starts have at most
    [max_str_digits] digits. *)
Definition printable (data : list starts_record) : Prop :=
  (forall r, In r data -> ascii_text (year r) = true)
  /\ (forall r, In r data -> quarter r < 10 ^ Z.of_nat max_str_digits)
  /\ sum_Z (map (fun r => Z.abs (starts r)) data) < 10 ^ Z.of_nat max_str_digits.

(** A letter of the ASCII alphabet, and a small one. *)
Definition is_letter (c : ascii) : bool :=
  let n := nat_of_ascii c in
  ((65 <=? n)%nat && (n <=? 90)%nat) || ((97 <=? n)%nat && (n <=? 122)%nat).

Definition is_small_letter (c : ascii) : bool :=
  let n := nat_of_ascii c in (97 <=? n)%nat && (n <=? 122)%nat.

Definition small_letters (s : string) : bool :=
  forallb is_small_letter (list_ascii_of_string s).

(** The same character, or the same letter in the other case. *)
Definition eq_ignoring_case (c d : ascii) : Prop :=
  c = d
  \/ (is_letter c = true /\ is_letter d = true
      /\ (nat_of_ascii c + 32 = nat_of_ascii d
          \/ nat_of_ascii d + 32 = nat_of_ascii c)%nat).

(** [w] spells [name], whatever the case of its letters. *)
Fixpoint spells (w name : string) : Prop :=
  match w, name with
  | EmptyString, EmptyString => True
  | String c w', String d name' => eq_ignoring_case c d /\ spells w' name'
  | _, _ => False
  end.

(** [name] occurs in [f], after [pre], in some spelling. *)
Definition occurs_ignoring_case (name f : string) : Prop :=
  exists pre w post, f = Str.cat pre (Str.cat w post) /\ spells w name.

(** Lexicographic order of version triples. *)
Definition triple_lt (a b : Z * Z * Z) : Prop :=
  let '(a1, a2, a3) := a in
  let '(b1, b2, b3) := b in
  a1 < b1 \/ (a1 = b1 /\ (a2 < b2 \/ (a2 = b2 /\ a3 < b3))).

Definition triple_le (a b : Z * Z * Z) : Prop := triple_lt a b \/ a = b.

(** Two column keys in ascending order of [(base period, ordinal)]. *)
Definition key_le (a b : string) : Prop :=
  exists ka kb,
    sort_key a = Ok ka /\ sort_key b = Ok kb
    /\ (String.compare (fst ka) (fst kb) = Lt
        \/ (fst ka = fst kb /\ snd ka <= snd kb)).

(** Rows of integers under a label, and the bold row of totals. *)
Definition int_row (r : string * list Z) : list cell :=
  CStr (fst r) :: map CInt (snd r).

Definition bold_row (label : string) (totals : list Z) : list cell :=
  CStr label :: map (fun v => CStr (bold v)) totals.

(** The sum of column [i] over a list of rows. *)
Definition column_sum (i : nat) (rows : list (string * list Z)) : Z :=
  sum_Z (map (fun r => nth i (snd r) 0) rows).

(** The value summed for a pair of provider and key. *)
Definition lookup (aggregated : matrix) (provider_name year_key : string) : Z :=
  Dict.get_or (Dict.get_or aggregated provider_name []) year_key 0.

(** Records of the scenarios. *)
Definition scenario_record (p y : string) (q s : Z) : starts_record :=
  mk_record p p y q s "ST0116" "Software developer".

Definition column_scenario : list starts_record :=
  [scenario_record "A" "2022-23" 1 4; scenario_record "B" "2023-24" 2 7;
   scenario_record "A" "2024-25" 1 10; scenario_record "B" "2024-25" 2 2]%string.

(** What one record adds to the cell of provider [p] and key [k]. *)
Definition contribution (m : option string) (p k : string) (r : starts_record) : Z :=
  if String.eqb (provider_clean r) p && String.eqb (year_key_of m r) k
  then starts r
  else 0.

(** Provider names are unique, and so are the keys of every row. *)
Definition well_formed (aggregated : matrix) : Prop :=
  NoDup (Dict.keys aggregated)
  /\ forall p year_data, In (p, year_data) aggregated -> NoDup (Dict.keys year_data).

Definition mixed_quarter_scenario : list starts_record :=
  [scenario_record "P" "2024-25" 0 5; scenario_record "P" "2024-25" 1 3]%string.

Definition fifth_quarter_scenario : list starts_record :=
  [scenario_record "P" "2024-25" 5 5; scenario_record "P" "2024-25" 1 3]%string.

(** An adjustment seen as a record: the provider, the key as year, no
    quarter, and the amount as measure. *)
Definition adjustment_record (name : string) (adj : string * Z) : starts_record :=
  mk_record name name (fst adj) 0 (snd adj) EmptyString EmptyString.

(** [if name not in aggregated: aggregated[name] = {}] *)
Definition ensure_row (aggregated : matrix) (name : string) : matrix :=
  if Dict.mem aggregated name then aggregated else Dict.set aggregated name [].

Definition threshold_scenario : list starts_record :=
  [scenario_record "A" "2024-25" 1 10; scenario_record "B" "2024-25" 2 2;
   scenario_record "C" "2024-25" 1 6; scenario_record "D" "2024-25" 2 1]%string.

Definition london_scenario : list starts_record :=
  [scenario_record "X" "202425" 1 5]%string.

(** A London record set with a closed provider, a major provider and
    two small ones. *)
Definition closed_provider_scenario : list starts_record :=
  [scenario_record "X" "202425" 1 5;
   scenario_record "CITY COLLEGE OF LONDON" "202425" 1 7;
   scenario_record "Y" "202223" 0 4;
   scenario_record "Z" "202425" 1 2]%string.

(** Two file systems of the scenarios, given by their listings. *)
Definition archive_in_working_directory (pattern : string) : list string :=
  if String.eqb pattern "app-underlying-data-starts-*.zip"
  then ["app-underlying-data-starts-202425-q1.zip"%string]
  else [].

Definition two_versions (pattern : string) : list string :=
  if String.eqb pattern "app-underlying-data-starts-*.csv"
  then ["app-underlying-data-starts-202324-q4.csv"%string]
  else if String.eqb pattern "apprenticeships_*"
  then ["apprenticeships_2024-25"%string]
  else if String.eqb pattern
            "apprenticeships_2024-25/supporting-files/app-underlying-data-starts-*.csv"
  then ["apprenticeships_2024-25/supporting-files/app-underlying-data-starts-202425-q1.csv";
        "apprenticeships_2024-25/supporting-files/app-underlying-data-starts-202425-Q1.csv"]%string
  else [].

(** Two keyed elements in the order of a comparison of keys. *)
Definition ordered {K A : Type} (before : K -> K -> bool) (x y : K * A) : Prop :=
  before (fst x) (fst y) = true.

(** ** Vocabulary of the further properties *)

(** The sum of all cells of a matrix. *)
Definition matrix_total (aggregated : matrix) : Z :=
  sum_Z (flat_map (fun pd => Dict.values (snd pd)) aggregated).

(** Equality of version triples. *)
Definition triple_eqb (a b : Z * Z * Z) : bool :=
  let '(a1, a2, a3) := a in
  let '(b1, b2, b3) := b in
  (a1 =? b1) && (a2 =? b2) && (a3 =? b3).

Definition no_quarter_scenario : list starts_record :=
  [scenario_record "P" "2024-25" 0 5]%string.

Definition london_no_quarter_scenario : list starts_record :=
  [scenario_record "X" "202324" 0 5]%string.

(** ** [utils.parse_positions] *)

(** The values the function tells apart: [None], an [int], a [str] and
    anything else. *)
Inductive py_value : Type :=
| PyNone
| PyInt (n : Z)
| PyStr (s : string)
| PyOther.

(** [s.isdigit()] *)
Definition isdigit (s : string) : bool :=
  match s with
  | EmptyString => false
  | String _ _ => all_digits s
  end.

(** [int(s)] as the interpreter runs it: it raises [ValueError], here
    [None], also on a numeral of more than [max_str_digits] digits. *)
Definition limited_int (s : string) : option Z :=
  if (String.length (Str.digits_only s) <=? max_str_digits)%nat
  then Str.to_Z s
  else None.

(** A [ValueError] of [int] is caught and gives the default. *)
Definition parse_positions (positions_value : py_value) (default : Z) : Z :=
  match positions_value with
  | PyNone => default
  | PyInt n => n
  | PyStr s =>
      let positions_str := Str.strip s in
      if isdigit positions_str
      then match limited_int positions_str with
           | Some n => n
           | None => default
           end
      else default
  | PyOther => default
  end.

(** ** Cleaning of the rows in [format_starts_csv] and its siblings *)

(** [s.replace(old, new)] for a non-empty [old]: leftmost occurrences
    that do not overlap.  [skip] counts the characters of a matched
    occurrence that are still to be dropped. *)
Fixpoint replace_from (old new : string) (skip : nat) (s : string) : string :=
  match s with
  | EmptyString => EmptyString
  | String c t =>
      match skip with
      | S k => replace_from old new k t
      | O =>
          if String.prefix old s
          then Str.cat new (replace_from old new (String.length old - 1) t)
          else String c (replace_from old new 0 t)
      end
  end.

Definition replace (s old new : string) : string := replace_from old new 0 s.

(** [str(cell)] *)
Definition cell_str (c : cell) : string :=
  match c with
  | CStr s => s
  | CInt n => Str.of_Z n
  end.

(** The loop shared by [format_starts_csv], [format_starts_table],
    [format_starts_tsv] and the three London functions:
    [[str(cell).replace('**', '') for cell in row]] for every row. *)
Definition cleaned_rows (rows : list (list cell)) : list (list string) :=
  map (map (fun c => replace (cell_str c) "**" EmptyString)) rows.

(** A file system with one archive in each of two versioned folders,
    and the members of an archive. *)
Definition archives_in_folders (pattern : string) : list string :=
  if String.eqb pattern "apprenticeships_*"
  then ["apprenticeships_2023-24"; "apprenticeships_2024-25"]%string
  else if String.eqb pattern
            "apprenticeships_2023-24/supporting-files/app-underlying-data-starts-*.zip"
  then ["apprenticeships_2023-24/supporting-files/app-underlying-data-starts-202324-q4.zip"%string]
  else if String.eqb pattern
            "apprenticeships_2024-25/supporting-files/app-underlying-data-starts-*.zip"
  then ["apprenticeships_2024-25/supporting-files/app-underlying-data-starts-202425-q1.zip"%string]
  else [].

Definition archive_members (zip : string) : list string :=
  ["readme.txt"; "app-underlying-data-starts-202425-q1.csv"; "metadata.csv"]%string.

(** ** [utils.extract_from_zip_if_needed] on archives that may be unreadable *)

(** How the call ends: with the path it returns, with [None], or with
    the exception ([zipfile.BadZipFile] and the like) that
    [zipfile.ZipFile] or [extract] raises and the function lets through. *)
Inductive zip_outcome : Type :=
| Extracted (path : string)
| NothingFound
| ZipError.

Module Zip.

Section Archives.

Variable glob : string -> list string.

(** [zipfile.ZipFile(path, 'r').namelist()]: the names of the members,
    or [None] when the file cannot be opened as an archive. *)
Variable open_archive : string -> option (list string).

(** Whether [zip_ref.extract(member, path)] succeeds on an archive. *)
Variable extracts : string -> string -> bool.

(** The outcome and the file operations attempted, in order. *)
Definition extract_from_zip_if_needed (zip_pattern folder_prefix subfolder : string)
  : zip_outcome * list file_op :=
  match folder_candidates glob zip_pattern folder_prefix subfolder with
  | [] => (NothingFound, [])
  | all_zip_files =>
      match sort_newest_first all_zip_files with
      | [] => (NothingFound, [])
      | zip_file :: _ =>
          match open_archive zip_file with
          | None => (ZipError, [OpenZip zip_file])
          | Some names =>
              match filter ends_with_csv names with
              | member :: _ =>
                  let extract_path := Path.dirname zip_file in
                  (if extracts zip_file member
                   then Extracted (Path.join extract_path member)
                   else ZipError,
                   [OpenZip zip_file; ExtractMember zip_file member extract_path])
              | [] => (NothingFound, [OpenZip zip_file])
              end
          end
      end
  end.

End Archives.

End Zip.

(** ** [utils.clean_company_name] and [utils.clean_provider_name] *)

(** [str.upper] on the ASCII letters. *)
Definition upper_char (c : ascii) : ascii :=
  let n := nat_of_ascii c in
  if (97 <=? n)%nat && (n <=? 122)%nat then ascii_of_nat (n - 32) else c.

Fixpoint upper (s : string) : string :=
  match s with
  | EmptyString => EmptyString
  | String c t => String (upper_char c) (upper t)
  end.

(** [s.endswith(suffix)] *)
Definition endswith (s suffix : string) : bool :=
  let n := String.length s in
  let k := String.length suffix in
  (k <=? n)%nat && String.eqb (String.substring (n - k) k s) suffix.

(** [s[:-k]] for a positive [k] *)
Definition drop_last (k : nat) (s : string) : string :=
  String.substring 0 (String.length s - k) s.

Definition suffixes_to_remove : list string :=
  ["LIMITED"; "LTD"; "LTD."; "LLP"; "PLC"; "COMPANY"; "CO"; "CO.";
   "CORP"; "CORPORATION"; "INC"; "INCORPORATED"; "LLC"; "L.L.C.";
   "GMBH"; "AG"; "SA"; "SRL"; "BV"; "NV"; "C.I.C."]%string.

(** The body of the loop over the suffixes. *)
Definition remove_suffix (cleaned_name suffix : string) : string :=
  if endswith (upper cleaned_name) (Str.cat " " suffix)
  then drop_last (String.length (Str.cat " " suffix)) cleaned_name
  else if endswith (upper cleaned_name) suffix
          && (String.length suffix <? String.length cleaned_name)%nat
  then drop_last (String.length suffix) cleaned_name
  else cleaned_name.

Definition clean_company_name (name : string) : string :=
  if String.eqb name EmptyString || String.eqb (Str.strip name) EmptyString
  then name
  else Str.strip (fold_left remove_suffix suffixes_to_remove (Str.strip name)).

(** [$]: the end of the text, or the place before a final newline.
    The result is the text that follows the place. *)
Definition at_end (t : string) : option string :=
  if String.eqb t EmptyString then Some EmptyString
  else if String.eqb t (String "010" EmptyString) then Some t
  else None.

(** [\d*\)$] at the start of [s], after at least one digit when [seen]
    is false. *)
Fixpoint code_close (seen : bool) (s : string) : option string :=
  match s with
  | EmptyString => None
  | String c t =>
      if Str.is_digit c then code_close true t
      else if seen && Ascii.eqb c ")" then at_end t
      else None
  end.

(** [\(\d+\)$] at the start of [s]. *)
Definition code (s : string) : option string :=
  match s with
  | String c t => if Ascii.eqb c "(" then code_close false t else None
  | EmptyString => None
  end.

(** [\s*\(\d+\)$] at the start of [s]: the text left after the match. *)
Fixpoint ukprn_match (s : string) : option string :=
  match code s with
  | Some rest => Some rest
  | None =>
      match s with
      | String c t => if Str.is_space c then ukprn_match t else None
      | EmptyString => None
      end
  end.

(** [re.sub(r'\s*\(\d+\)$', '', s)]: the pattern is anchored at the end,
    so the leftmost match is the only one; it is found at the first
    position from which the pattern matches. *)
Fixpoint remove_ukprn (s : string) : string :=
  match ukprn_match s with
  | Some rest => rest
  | None =>
      match s with
      | String c t => String c (remove_ukprn t)
      | EmptyString => EmptyString
      end
  end.

Definition clean_provider_name (name : string) : string :=
  if String.eqb name EmptyString || String.eqb (Str.strip name) EmptyString
  then name
  else clean_company_name (remove_ukprn (Str.strip name)).

(** Every character is white space. *)
Definition all_space (s : string) : bool :=
  forallb Str.is_space (list_ascii_of_string s).

(** The first character exists and is not white space. *)
Definition starts_nonspace (s : string) : bool :=
  match s with
  | String c _ => negb (Str.is_space c)
  | EmptyString => false
  end.

(** ** [starts.extract_apprenticeship_starts] and
       [london_sme.extract_london_sme_starts] *)

(** A row of [csv.DictReader]: the fields that a short line leaves out
    are [None]. *)
Definition csv_row : Type := Dict.t (option string).

(** [row.get(name, '').strip()].  The result [None] stands for the
    AttributeError of [None.strip()], which nothing catches. *)
Definition field (row : csv_row) (name : string) : option string :=
  match Dict.get row name with
  | None => Some (Str.strip EmptyString)
  | Some (Some v) => Some (Str.strip v)
  | Some None => None
  end.

(** [utils.read_csv_data] on the rows that the reader yields: the rows
    for which the filter holds, in order. *)
Fixpoint read_csv_data (rows : list csv_row) (filter_fn : csv_row -> option bool)
  : option (list csv_row) :=
  match rows with
  | [] => Some []
  | row :: rest =>
      match filter_fn row with
      | None => None
      | Some keep =>
          match read_csv_data rest filter_fn with
          | None => None
          | Some filtered_data =>
              Some (if keep then row :: filtered_data else filtered_data)
          end
      end
  end.

Definition filter_by_standard (standard_code : string) (row : csv_row) : option bool :=
  match field row "st_code" with
  | None => None
  | Some st_code => Some (String.eqb st_code standard_code)
  end.

Definition filter_london_sme (standard_code : string) (row : csv_row) : option bool :=
  match field row "st_code" with
  | None => None
  | Some st_code =>
      if negb (String.eqb st_code standard_code) then Some false
      else
        match field row "learner_home_region" with
        | None => None
        | Some region =>
            if negb (String.eqb region "London") then Some false
            else
              match field row "funding_type" with
              | None => None
              | Some funding_type =>
                  if negb (String.eqb funding_type "Other") then Some false
                  else Some true
              end
        end
  end.

(** The body of the loop that builds the records; both functions read
    the name of the standard from the field [std_fwk_name]. *)
Definition starts_of_row (row : csv_row) : option starts_record :=
  match field row "provider_name" with
  | None => None
  | Some provider_name =>
  match field row "start_quarter" with
  | None => None
  | Some quarter_str =>
  let quarter :=
    if String.eqb quarter_str EmptyString then 0
    else parse_positions (PyStr quarter_str) 0 in
  match field row "year" with
  | None => None
  | Some year =>
  match field row "starts" with
  | None => None
  | Some starts =>
  match field row "st_code" with
  | None => None
  | Some st_code =>
  match field row "std_fwk_name" with
  | None => None
  | Some std_fwk_name =>
      Some (mk_record provider_name (clean_provider_name provider_name) year
              quarter (parse_positions (PyStr starts) 0) st_code std_fwk_name)
  end end end end end end.

Fixpoint starts_of_rows (raw_data : list csv_row) : option (list starts_record) :=
  match raw_data with
  | [] => Some []
  | row :: rest =>
      match starts_of_row row with
      | None => None
      | Some record =>
          match starts_of_rows rest with
          | None => None
          | Some starts_data => Some (record :: starts_data)
          end
      end
  end.

Definition extract_apprenticeship_starts (rows : list csv_row) (standard_code : string)
  : option (list starts_record) :=
  match read_csv_data rows (filter_by_standard standard_code) with
  | None => None
  | Some raw_data => starts_of_rows raw_data
  end.

Definition extract_london_sme_starts (rows : list csv_row) (standard_code : string)
  : option (list starts_record) :=
  match read_csv_data rows (filter_london_sme standard_code) with
  | None => None
  | Some raw_data => starts_of_rows raw_data
  end.

(** [l] is [m] with some elements left out. *)
Inductive subsequence {A : Type} : list A -> list A -> Prop :=
| subsequence_nil : subsequence [] []
| subsequence_skip (x : A) (l m : list A) :
    subsequence l m -> subsequence l (x :: m)
| subsequence_keep (x : A) (l m : list A) :
    subsequence l m -> subsequence (x :: l) (x :: m).

(** Two rows of an input file, the second one short. *)
Definition london_row : csv_row :=
  [("provider_name", Some "Training Provider LTD (12345)");
   ("st_code", Some "ST0116"); ("year", Some "202425");
   ("start_quarter", Some "1"); ("starts", Some " 7 ");
   ("std_fwk_name", Some "Software developer");
   ("learner_home_region", Some "London"); ("funding_type", Some "Other")]%string.

Definition other_row : csv_row :=
  [("provider_name", Some "Other Provider"); ("st_code", Some "ST0116");
   ("year", Some "202425"); ("starts", Some "n/a");
   ("std_fwk_name", Some "Software developer");
   ("learner_home_region", Some "North West"); ("funding_type", None)]%string.

(** ** [TableFormatter.to_markdown] *)

(** [sep.join(parts)] *)
Fixpoint join (sep : string) (parts : list string) : string :=
  match parts with
  | [] => EmptyString
  | [p] => p
  | p :: rest => Str.cat p (Str.cat sep (join sep rest))
  end.

(** ["-" * n] *)
Fixpoint dashes (n : nat) : string :=
  match n with
  | O => EmptyString
  | S k => String "-" (dashes k)
  end.

Definition newline : string := String "010" EmptyString.

Definition markdown_line (cells : list string) : string :=
  Str.cat "| " (Str.cat (join " | " cells) " |").

Definition markdown_separator (headers : list string) : string :=
  Str.cat "|"
    (Str.cat (join "|" (map (fun h => dashes (String.length h + 2)) headers)) "|").

Definition to_markdown (headers : list string) (rows : list (list cell)) : string :=
  join newline
    (markdown_line headers
     :: markdown_separator headers
     :: map (fun row => markdown_line (map cell_str row)) rows).

(** Every character is a bar or a dash. *)
Definition bars_and_dashes (s : string) : bool :=
  forallb (fun c => Ascii.eqb c "|" || Ascii.eqb c "-") (list_ascii_of_string s).

(** * Properties *)

(** ** Strings *)

Lemma append_nil_r (s : string) : Str.cat s EmptyString = s.
Proof. induction s as [|c s IH]; simpl; [reflexivity | now rewrite IH]. Qed.

Lemma append_assoc (a b c : string) :
  Str.cat (Str.cat a b) c = Str.cat a (Str.cat b c).
Proof. induction a as [|x a IH]; simpl; [reflexivity | now rewrite IH]. Qed.

Lemma length_append (a b : string) :
  String.length (Str.cat a b) = (String.length a + String.length b)%nat.
Proof. induction a as [|x a IH]; simpl; [reflexivity | now rewrite IH]. Qed.

Lemma substring_all (s : string) : String.substring 0 (String.length s) s = s.
Proof. induction s as [|c s IH]; simpl; [reflexivity | now rewrite IH]. Qed.

Lemma substring_suffix (stem suffix : string) :
  String.substring (String.length stem) (String.length suffix) (Str.cat stem suffix)
  = suffix.
Proof.
  induction stem as [|c stem IH]; simpl.
  - apply substring_all.
  - exact IH.
Qed.

Lemma substring_split : forall (s : string) (k : nat),
  (k <= String.length s)%nat ->
  s = Str.cat (String.substring 0 k s) (String.substring k (String.length s - k) s).
Proof.
  induction s as [|c s IH]; intros k Hk.
  - destruct k; [reflexivity | simpl in Hk; lia].
  - destruct k as [|k].
    + change (String.substring 0 0 (String c s)) with EmptyString.
      rewrite Nat.sub_0_r, substring_all. reflexivity.
    + simpl in Hk. simpl. f_equal. apply IH. lia.
Qed.

(** ** File names *)

Lemma take_digits_sound (n : nat) : forall s r,
  take_digits n s = Some r ->
  exists rest, s = Str.cat r rest /\ String.length r = n /\ all_digits r = true.
Proof.
  induction n as [|n IH]; intros s r H; simpl in H.
  - injection H as <-. exists s. repeat split.
  - destruct s as [|c t]; [discriminate|].
    destruct (Str.is_digit c) eqn:Hc; [|discriminate].
    destruct (take_digits n t) as [r'|] eqn:Hr; [|discriminate].
    injection H as <-.
    destruct (IH _ _ Hr) as (rest & -> & Hlen & Hd).
    exists rest. repeat split.
    + simpl. now rewrite Hlen.
    + unfold all_digits in *. simpl. now rewrite Hc, Hd.
Qed.

Lemma take_digits_complete : forall r rest,
  all_digits r = true ->
  take_digits (String.length r) (Str.cat r rest) = Some r.
Proof.
  induction r as [|c r IH]; intros rest H; simpl.
  - reflexivity.
  - unfold all_digits in H. simpl in H. apply andb_true_iff in H as [Hc Hr].
    rewrite Hc, (IH rest Hr). reflexivity.
Qed.

Lemma search_year_cons (c : ascii) (t : string) :
  search_year (String c t) =
  match take_digits 6 (String c t) with
  | Some run => Some (String.substring 0 4 run, String.substring 4 2 run)
  | None => search_year t
  end.
Proof. reflexivity. Qed.

Lemma search_year_some : forall f g,
  search_year f = Some g -> exists pre run post, digit_run_at f pre run post.
Proof.
  induction f as [|c t IH]; intros g H.
  - discriminate.
  - rewrite search_year_cons in H.
    destruct (take_digits 6 (String c t)) as [run|] eqn:Hrun.
    + destruct (take_digits_sound _ _ _ Hrun) as (rest & Heq & Hlen & Hd).
      exists EmptyString, run, rest. repeat split; assumption.
    + destruct (IH _ H) as (pre & run & post & Heq & Hlen & Hd).
      exists (String c pre), run, post. repeat split; try assumption.
      simpl. now rewrite Heq.
Qed.

Lemma search_year_leftmost : forall pre f run post,
  digit_run_at f pre run post ->
  (forall pre' run' post',
      digit_run_at f pre' run' post' -> (String.length pre <= String.length pre')%nat) ->
  search_year f = Some (String.substring 0 4 run, String.substring 4 2 run).
Proof.
  induction pre as [|c pre IH]; intros f run post (Heq & Hlen & Hd) Hleft.
  - simpl in Heq. subst f.
    pose proof (take_digits_complete run post Hd) as Ht. rewrite Hlen in Ht.
    destruct run as [|c r]; [discriminate|].
    simpl append. rewrite search_year_cons. simpl append in Ht. now rewrite Ht.
  - subst f. simpl append. rewrite search_year_cons.
    destruct (take_digits 6 _) as [run0|] eqn:Hrun0.
    + destruct (take_digits_sound _ _ _ Hrun0) as (rest & Heq & Hlen0 & Hd0).
      specialize (Hleft EmptyString run0 rest).
      simpl in Hleft. exfalso.
      assert (S (String.length pre) <= 0)%nat; [|lia].
      apply Hleft. repeat split; assumption.
    + apply (IH _ run post).
      * repeat split; assumption.
      * intros pre' run' post' (Heq' & Hlen' & Hd').
        specialize (Hleft (String c pre') run' post').
        simpl in Hleft. apply le_S_n, Hleft.
        repeat split; try assumption. simpl. now rewrite <- Heq'.
Qed.

Lemma search_quarter_cons (c : ascii) (t : string) :
  search_quarter (String c t) =
  match t with
  | String q (String d _) =>
      if Ascii.eqb c "-" && (Ascii.eqb q "q" || Ascii.eqb q "Q") && Str.is_digit d
      then Some d
      else search_quarter t
  | _ => search_quarter t
  end.
Proof. reflexivity. Qed.

Lemma token_test (c q d : ascii) :
  Ascii.eqb c "-" && (Ascii.eqb q "q" || Ascii.eqb q "Q") && Str.is_digit d = true
  <-> c = "-"%char /\ (q = "q"%char \/ q = "Q"%char) /\ Str.is_digit d = true.
Proof.
  rewrite !andb_true_iff, orb_true_iff, !Ascii.eqb_eq. tauto.
Qed.

Lemma search_quarter_some : forall f d,
  search_quarter f = Some d -> exists pre post, quarter_token_at f pre d post.
Proof.
  induction f as [|c t IH]; intros d H.
  - discriminate.
  - rewrite search_quarter_cons in H.
    assert (Hrec : search_quarter t = Some d ->
                   exists pre post, quarter_token_at (String c t) pre d post).
    { intros Ht. destruct (IH _ Ht) as (pre & post & q & Hq & Hd & Heq).
      exists (String c pre), post, q. repeat split; try assumption.
      simpl. now rewrite Heq. }
    destruct t as [|q [|d0 post]]; try (now apply Hrec).
    destruct (_ && _ && _) eqn:Htest; [|now apply Hrec].
    injection H as <-. apply token_test in Htest as (-> & Hq & Hd).
    exists EmptyString, post, q. repeat split; assumption.
Qed.

Lemma search_quarter_leftmost : forall pre f d post,
  quarter_token_at f pre d post ->
  (forall pre' d' post',
      quarter_token_at f pre' d' post' -> (String.length pre <= String.length pre')%nat) ->
  search_quarter f = Some d.
Proof.
  induction pre as [|c pre IH]; intros f d post (q & Hq & Hd & Heq) Hleft.
  - simpl in Heq. subst f. rewrite search_quarter_cons.
    assert (Ht : Ascii.eqb "-" "-" && (Ascii.eqb q "q" || Ascii.eqb q "Q")
                 && Str.is_digit d = true) by (apply token_test; auto).
    now rewrite Ht.
  - subst f. simpl append.
    assert (Hrec : search_quarter
                     (Str.cat pre (String "-" (String q (String d post)))) = Some d).
    { apply (IH _ d post).
      - exists q. repeat split; assumption.
      - intros pre' d' post' (q' & Hq' & Hd' & Heq').
        specialize (Hleft (String c pre') d' post').
        simpl in Hleft. apply le_S_n, Hleft.
        exists q'. repeat split; try assumption. simpl. now rewrite <- Heq'. }
    rewrite search_quarter_cons.
    destruct (Str.cat pre _) as [|q0 [|d0 post0]] eqn:Et; try exact Hrec.
    destruct (_ && _ && _) eqn:Htest; [|exact Hrec].
    apply token_test in Htest as (-> & Hq0 & Hd0).
    exfalso.
    assert (S (String.length pre) <= 0)%nat; [|lia].
    apply (Hleft EmptyString d0 post0).
    exists q0. repeat split; try assumption. simpl. now rewrite Et.
Qed.

Lemma search_month_some : forall months lowered n,
  search_month months lowered = Some n ->
  exists name, In (name, n) months /\ Str.contains name lowered = true.
Proof.
  induction months as [|[name num] rest IH]; intros lowered n H; simpl in H.
  - discriminate.
  - destruct (Str.contains name lowered) eqn:Hc.
    + injection H as <-. exists name. split; [now left | assumption].
    + destruct (IH _ _ H) as (name' & Hin & Hc'). exists name'. split; [now right | assumption].
Qed.

Lemma search_month_none : forall months lowered,
  (forall name num, In (name, num) months -> Str.contains name lowered = false) ->
  search_month months lowered = None.
Proof.
  induction months as [|[name num] rest IH]; intros lowered H; simpl.
  - reflexivity.
  - rewrite (H name num (or_introl eq_refl)). apply IH.
    intros name' num' Hin. apply (H name' num'). now right.
Qed.

Lemma search_month_found : forall months lowered name num,
  In (name, num) months -> Str.contains name lowered = true ->
  exists n, search_month months lowered = Some n.
Proof.
  induction months as [|[name0 num0] rest IH]; intros lowered name num Hin Hc; simpl.
  - contradiction.
  - destruct (Str.contains name0 lowered) eqn:Hc0; [eauto|].
    destruct Hin as [Heq | Hin].
    + injection Heq as -> ->. congruence.
    + eapply IH; eassumption.
Qed.

Lemma month_map_range : forall name num, In (name, num) month_map -> 1 <= num <= 12.
Proof.
  intros name num Hin. unfold month_map in Hin. simpl in Hin.
  repeat (destruct Hin as [Heq | Hin]; [injection Heq as _ <-; lia|]).
  contradiction.
Qed.

(** ** Stable sorting *)

Section SortFacts.
Context {K A : Type} (before : K -> K -> bool).

Lemma ins_perm (x : K * A) (l : list (K * A)) :
  Permutation (ins before x l) (x :: l).
Proof.
  induction l as [|y t IH]; simpl.
  - apply Permutation_refl.
  - destruct (before (fst x) (fst y)).
    + apply Permutation_refl.
    + eapply perm_trans; [apply perm_skip, IH | apply perm_swap].
Qed.

Lemma sort_keyed_perm (l : list (K * A)) : Permutation (sort_keyed before l) l.
Proof.
  induction l as [|x t IH]; simpl.
  - apply perm_nil.
  - eapply perm_trans; [apply ins_perm | apply perm_skip, IH].
Qed.

Lemma sort_keyed_nil (l : list (K * A)) : sort_keyed before l = [] -> l = [].
Proof.
  intros H. pose proof (sort_keyed_perm l) as P. rewrite H in P.
  now apply Permutation_nil.
Qed.

Hypothesis before_total : forall a b, before a b = true \/ before b a = true.


Lemma ins_sorted (x : K * A) (l : list (K * A)) :
  Sorted (ordered before) l -> Sorted (ordered before) (ins before x l).
Proof.
  induction l as [|y t IH]; intros Hs; simpl.
  - repeat constructor.
  - destruct (before (fst x) (fst y)) eqn:Hxy.
    + constructor; [assumption | constructor; exact Hxy].
    + inversion Hs as [|? ? Hst Hhd]; subst.
      constructor; [now apply IH|].
      assert (Hyx : ordered before y x).
      { destruct (before_total (fst x) (fst y)); [congruence | assumption]. }
      destruct t as [|z t']; simpl.
      * now constructor.
      * destruct (before (fst x) (fst z)); constructor;
          [assumption | now inversion Hhd].
Qed.

Lemma sort_keyed_sorted (l : list (K * A)) : Sorted (ordered before) (sort_keyed before l).
Proof.
  induction l as [|x t IH]; simpl; [constructor | now apply ins_sorted].
Qed.

Hypothesis before_trans :
  forall a b c, before a b = true -> before b c = true -> before a c = true.

Lemma sort_keyed_strongly_sorted (l : list (K * A)) :
  StronglySorted (ordered before) (sort_keyed before l).
Proof.
  apply Sorted_StronglySorted; [|apply sort_keyed_sorted].
  intros x y z. unfold ordered. apply before_trans.
Qed.

(** The head of the sorted list is the first element of the input that
    no other element must precede. *)
Lemma sort_keyed_head (l : list (K * A)) :
  l <> [] ->
  exists l1 x l2,
    l = l1 ++ x :: l2
    /\ hd_error (sort_keyed before l) = Some x
    /\ (forall y, In y l1 -> before (fst y) (fst x) = false)
    /\ (forall y, In y l2 -> before (fst x) (fst y) = true).
Proof.
  induction l as [|a t IH]; intros Hne; [congruence|].
  destruct t as [|b t'].
  - exists [], a, []. simpl. repeat split; intros y [].
  - destruct IH as (l1 & x & l2 & Heq & Hhd & H1 & H2); [discriminate|].
    change (sort_keyed before (a :: b :: t'))
      with (ins before a (sort_keyed before (b :: t'))).
    destruct (sort_keyed before (b :: t')) as [|x' s] eqn:Es; [discriminate|].
    injection Hhd as ->. simpl ins.
    destruct (before (fst a) (fst x)) eqn:Hax.
    + exists [], a, (b :: t'). repeat split; [intros y [] | intros y Hy].
      rewrite Heq in Hy. apply in_app_or in Hy.
      destruct Hy as [Hy | [<- | Hy]].
      * apply (before_trans _ (fst x)); [assumption|].
        destruct (before_total (fst x) (fst y)) as [H|H]; [assumption|].
        rewrite (H1 y Hy) in H. discriminate.
      * assumption.
      * apply (before_trans _ (fst x)); [assumption | now apply H2].
    + exists (a :: l1), x, l2. rewrite Heq. simpl. repeat split.
      * intros y [<- | Hy]; [assumption | now apply H1].
      * assumption.
Qed.

End SortFacts.

(** ** The version resolver *)

Lemma triple_leb_le (a b : Z * Z * Z) : triple_leb a b = true <-> triple_le a b.
Proof.
  destruct a as [[a1 a2] a3], b as [[b1 b2] b3]. unfold triple_leb, triple_le, triple_lt.
  rewrite !orb_true_iff, !andb_true_iff, !orb_true_iff, !andb_true_iff.
  rewrite !Z.ltb_lt, !Z.eqb_eq, Z.leb_le.
  split.
  - intros [H | (-> & [H | (-> & H)])]; [left; lia | left; lia |].
    destruct (Z.eq_dec a3 b3) as [-> | Hne]; [now right | left; lia].
  - intros [H | H]; [lia|]. injection H as -> -> ->. lia.
Qed.

Lemma triple_leb_gt (a b : Z * Z * Z) : triple_leb a b = false <-> triple_lt b a.
Proof.
  destruct a as [[a1 a2] a3], b as [[b1 b2] b3]. unfold triple_leb, triple_lt.
  rewrite !orb_false_iff, !andb_false_iff, !orb_false_iff, !andb_false_iff.
  rewrite !Z.ltb_ge, !Z.eqb_neq, Z.leb_gt. lia.
Qed.

Lemma triple_leb_total (a b : Z * Z * Z) :
  triple_leb b a = true \/ triple_leb a b = true.
Proof.
  destruct (triple_leb b a) eqn:H; [now left | right].
  apply triple_leb_gt in H. apply triple_leb_le. now left.
Qed.

Lemma triple_leb_trans (a b c : Z * Z * Z) :
  triple_leb b a = true -> triple_leb c b = true -> triple_leb c a = true.
Proof.
  rewrite !triple_leb_le.
  destruct a as [[a1 a2] a3], b as [[b1 b2] b3], c as [[c1 c2] c3].
  unfold triple_le, triple_lt.
  intros [H1 | H1] [H2 | H2];
    try (injection H1 as -> -> ->); try (injection H2 as -> -> ->);
    solve [now right | left; lia].
Qed.

Lemma sort_newest_first_head (files : list string) :
  files <> [] ->
  exists earlier chosen later,
    files = earlier ++ chosen :: later
    /\ hd_error (sort_newest_first files) = Some chosen
    /\ (forall f, In f earlier -> triple_lt (file_sort_key f) (file_sort_key chosen))
    /\ (forall f, In f later -> triple_le (file_sort_key f) (file_sort_key chosen)).
Proof.
  intros Hne. unfold sort_newest_first.
  set (keyed := map (fun f => (file_sort_key f, f)) files).
  destruct (sort_keyed_head (fun a b => triple_leb b a)
              (fun a b => triple_leb_total a b)
              (fun a b c => triple_leb_trans a b c) keyed)
    as (l1 & x & l2 & Heq & Hhd & H1 & H2).
  { subst keyed. destruct files; [congruence | discriminate]. }
  subst keyed. apply map_eq_app in Heq as (earlier & rest & -> & <- & Hrest).
  apply map_eq_cons in Hrest as (chosen & later & -> & <- & <-).
  exists earlier, chosen, later. split; [reflexivity|]. split.
  - destruct (sort_keyed _ _) as [|y s]; [discriminate|].
    simpl in *. now injection Hhd as ->.
  - split.
    + intros f Hf. apply triple_leb_gt.
      apply (H1 (file_sort_key f, f)). apply in_map_iff. now exists f.
    + intros f Hf. apply triple_leb_le.
      apply (H2 (file_sort_key f, f)). apply in_map_iff. now exists f.
Qed.

Lemma find_latest_file_some
  (glob : string -> list string) (file_pattern folder_prefix subfolder : string) :
  let candidates := latest_candidates glob file_pattern folder_prefix subfolder in
  candidates <> [] ->
  exists earlier chosen later,
    candidates = earlier ++ chosen :: later
    /\ find_latest_file glob file_pattern folder_prefix subfolder = Some chosen
    /\ (forall f, In f earlier -> triple_lt (file_sort_key f) (file_sort_key chosen))
    /\ (forall f, In f later -> triple_le (file_sort_key f) (file_sort_key chosen)).
Proof.
  intros candidates Hne. unfold find_latest_file. fold candidates.
  destruct (sort_newest_first_head candidates Hne)
    as (earlier & chosen & later & Heq & Hhd & H1 & H2).
  exists earlier, chosen, later. repeat split; try assumption.
  destruct candidates; [congruence | exact Hhd].
Qed.

(** C6. On candidates with ASCII names, [find_latest_file] returns the
    candidate whose (yearStart, yearEnd, subPeriod) triple, extracted
    from its base name, is lexicographically greatest, and among equals
    the one found first: every candidate found earlier has a strictly
    smaller triple, every later one a smaller or equal triple.  Without
    candidates it returns [None]; the function only lists directories
    and performs no operation on a file.  In the file system with the
    version 202324-q4 in the working directory and the versions
    202425-q1 and 202425-Q1 in a versioned folder, the first of the two
    newest is returned. *)
Theorem find_latest_file_greatest
  (glob : string -> list string) (file_pattern folder_prefix subfolder : string) :
  let candidates := latest_candidates glob file_pattern folder_prefix subfolder in
  let version f := extract_year_quarter_from_filename (Path.basename f) in
  ((forall f, In f candidates -> ascii_text f = true) ->
   (candidates = [] ->
    find_latest_file glob file_pattern folder_prefix subfolder = None)
   /\ (candidates <> [] ->
       exists earlier chosen later,
         candidates = earlier ++ chosen :: later
         /\ find_latest_file glob file_pattern folder_prefix subfolder = Some chosen
         /\ (forall f, In f earlier -> triple_lt (version f) (version chosen))
         /\ (forall f, In f later -> triple_le (version f) (version chosen))))
  /\ find_latest_file two_versions "app-underlying-data-starts-*.csv"
       "apprenticeships" "supporting-files"
     = Some "apprenticeships_2024-25/supporting-files/app-underlying-data-starts-202425-q1.csv"%string.
Proof.
  intros candidates version. split; [|reflexivity].
  intros _. split.
  - intros Hnil. unfold find_latest_file. fold candidates. now rewrite Hnil.
  - apply find_latest_file_some.
Qed.

(** C10. The archive fallback looks for archives under the versioned
    folders only: when none of them holds a matching archive it returns
    [None] and touches no file, whatever the working directory contains,
    whereas [find_latest_file] with the same pattern returns one of the
    files of the working directory. *)
Theorem zip_fallback_ignores_working_directory
  (glob namelist : string -> list string) (zip_pattern folder_prefix subfolder : string) :
  (forall folder, In folder (glob (Str.cat folder_prefix "_*")) ->
                  glob (Path.join3 folder subfolder zip_pattern) = []) ->
  glob zip_pattern <> [] ->
  extract_from_zip_if_needed glob namelist zip_pattern folder_prefix subfolder
  = (None, [])
  /\ exists f, find_latest_file glob zip_pattern folder_prefix subfolder = Some f
               /\ In f (glob zip_pattern).
Proof.
  intros Hfolders Hroot.
  assert (Hnone : folder_candidates glob zip_pattern folder_prefix subfolder = []).
  { unfold folder_candidates.
    induction (glob (Str.cat folder_prefix "_*")) as [|folder rest IH]; simpl.
    - reflexivity.
    - rewrite (Hfolders folder (or_introl eq_refl)). simpl. apply IH.
      intros f Hf. apply Hfolders. now right. }
  split.
  - unfold extract_from_zip_if_needed. now rewrite Hnone.
  - destruct (find_latest_file_some glob zip_pattern folder_prefix subfolder)
      as (earlier & f & later & Heq & Hf & _).
    { unfold latest_candidates. rewrite Hnone, app_nil_r. exact Hroot. }
    exists f. split; [assumption|].
    unfold latest_candidates in Heq. rewrite Hnone, app_nil_r in Heq.
    rewrite Heq. apply in_elt.
Qed.

(** ** Prefixes, substrings and the order of strings *)

Lemma prefix_nil (s : string) : String.prefix EmptyString s = true.
Proof. destruct s; reflexivity. Qed.

Lemma prefix_cons (c d : ascii) (p s : string) :
  String.prefix (String c p) (String d s) = Ascii.eqb c d && String.prefix p s.
Proof.
  simpl. destruct (Ascii.ascii_dec c d) as [-> | Hne].
  - now rewrite Ascii.eqb_refl.
  - apply Ascii.eqb_neq in Hne. now rewrite Hne.
Qed.

Lemma prefix_append (p s : string) : String.prefix p (Str.cat p s) = true.
Proof.
  induction p as [|c p IH]; [apply prefix_nil|].
  simpl append. now rewrite prefix_cons, Ascii.eqb_refl.
Qed.

Lemma prefix_split : forall p s,
  String.prefix p s = true -> exists r, s = Str.cat p r.
Proof.
  induction p as [|c p IH]; intros s H.
  - now exists s.
  - destruct s as [|d s]; [discriminate|].
    rewrite prefix_cons in H. apply andb_true_iff in H as [Hc Hp].
    apply Ascii.eqb_eq in Hc as ->.
    destruct (IH _ Hp) as (r & ->). now exists r.
Qed.

Lemma contains_cons (needle : string) (c : ascii) (t : string) :
  Str.contains needle (String c t)
  = String.prefix needle (String c t) || Str.contains needle t.
Proof. reflexivity. Qed.

Lemma contains_prefix (needle hay : string) :
  String.prefix needle hay = true -> Str.contains needle hay = true.
Proof. intros H. destruct hay; simpl in *; now rewrite H. Qed.

Lemma contains_append (a needle b : string) :
  Str.contains needle (Str.cat a (Str.cat needle b)) = true.
Proof.
  induction a as [|c a IH].
  - change (Str.contains needle (Str.cat needle b) = true).
    apply contains_prefix, prefix_append.
  - simpl append. rewrite contains_cons, IH. apply orb_true_r.
Qed.

Lemma contains_append_l : forall a b needle,
  Str.contains needle (Str.cat a b) = false -> Str.contains needle b = false.
Proof.
  induction a as [|c a IH]; intros b needle H; [exact H|].
  simpl append in H. rewrite contains_cons in H.
  apply orb_false_iff in H as [_ H]. now apply IH.
Qed.

Lemma ascii_compare_refl (c : ascii) : Ascii.compare c c = Eq.
Proof. unfold Ascii.compare. apply N.compare_refl. Qed.

Lemma string_compare_refl (s : string) : String.compare s s = Eq.
Proof.
  induction s as [|c s IH]; simpl; [reflexivity|].
  now rewrite ascii_compare_refl.
Qed.

Lemma string_compare_lt_trans : forall a b c,
  String.compare a b = Lt -> String.compare b c = Lt -> String.compare a c = Lt.
Proof.
  induction a as [|x a IH]; intros [|y b] [|z c]; simpl; try congruence.
  unfold Ascii.compare.
  destruct (N.compare_spec (N_of_ascii x) (N_of_ascii y)) as [Exy | Lxy | Gxy];
    destruct (N.compare_spec (N_of_ascii y) (N_of_ascii z)) as [Eyz | Lyz | Gyz];
    try congruence; intros H1 H2.
  - rewrite Exy, Eyz, N.compare_refl. now apply (IH b).
  - rewrite Exy. now apply N.compare_lt_iff in Lyz as ->.
  - rewrite <- Eyz. now apply N.compare_lt_iff in Lxy as ->.
  - assert (Hlt : (N_of_ascii x < N_of_ascii z)%N) by lia.
    now apply N.compare_lt_iff in Hlt as ->.
Qed.

Lemma str_leb_refl (s : string) : str_leb s s = true.
Proof. unfold str_leb, String.leb. now rewrite string_compare_refl. Qed.

Lemma str_leb_total (a b : string) : str_leb a b = true \/ str_leb b a = true.
Proof. apply String.leb_total. Qed.

Lemma str_leb_cases (a b : string) :
  str_leb a b = true <-> String.compare a b = Lt \/ a = b.
Proof.
  unfold str_leb, String.leb. split.
  - destruct (String.compare a b) eqn:E; try discriminate.
    + right. now apply String.compare_eq_iff.
    + now left.
  - intros [-> | ->]; [reflexivity | now rewrite string_compare_refl].
Qed.

Lemma str_leb_trans (a b c : string) :
  str_leb a b = true -> str_leb b c = true -> str_leb a c = true.
Proof.
  rewrite !str_leb_cases. intros [H1 | ->] [H2 | ->]; auto.
  left. eapply string_compare_lt_trans; eassumption.
Qed.

Lemma str_leb_antisym (a b : string) :
  str_leb a b = true -> str_leb b a = true -> a = b.
Proof. apply String.leb_antisym. Qed.

(** A string is not below any of its prefixes. *)
Lemma prefix_leb : forall p s, String.prefix p s = true -> str_leb p s = true.
Proof.
  intros p s H. destruct (prefix_split _ _ H) as (r & ->). clear H.
  apply str_leb_cases.
  induction p as [|c p IH]; simpl.
  - destruct r; [now right | now left].
  - rewrite ascii_compare_refl. destruct IH as [IH | IH]; [now left | right].
    now f_equal.
Qed.

(** ** Month names in any case *)

Lemma lower_char_small (c d : ascii) :
  is_small_letter d = true ->
  (Str.lower_char c = d <-> eq_ignoring_case c d).
Proof.
  unfold is_small_letter, Str.lower_char, eq_ignoring_case, is_letter.
  intros Hd. apply andb_true_iff in Hd as [Hd1 Hd2].
  apply Nat.leb_le in Hd1, Hd2.
  pose proof (nat_ascii_bounded c) as Hc.
  destruct ((65 <=? nat_of_ascii c)%nat && (nat_of_ascii c <=? 90)%nat) eqn:Eu.
  - apply andb_true_iff in Eu as [E1 E2]. apply Nat.leb_le in E1, E2. split.
    + intros <-. right. rewrite nat_ascii_embedding by lia.
      repeat split.
      * apply orb_true_iff. right. apply andb_true_iff.
        split; apply Nat.leb_le; rewrite nat_ascii_embedding in Hd1, Hd2; lia.
      * now left.
    + intros [-> | (_ & _ & [H | H])]; try lia.
      rewrite H. apply ascii_nat_embedding.
  - split.
    + intros ->. now left.
    + intros [-> | (Hl & _ & [H | H])]; [reflexivity | |].
      * exfalso. apply andb_false_iff in Eu.
        destruct Eu as [E | E]; apply Nat.leb_gt in E; lia.
      * exfalso. cbn [orb] in Hl.
        apply andb_true_iff in Hl as [H1 H2]. apply Nat.leb_le in H1, H2. lia.
Qed.

Lemma small_letters_cons (c : ascii) (s : string) :
  small_letters (String c s) = is_small_letter c && small_letters s.
Proof. reflexivity. Qed.

Lemma lower_spells : forall w name,
  small_letters name = true -> (Str.lower w = name <-> spells w name).
Proof.
  induction w as [|c w IH]; intros [|d name] Hs; cbn [Str.lower spells];
    try (split; [discriminate | contradiction]); [tauto|].
  rewrite small_letters_cons in Hs. apply andb_true_iff in Hs as [Hd Hs].
  split.
  - intros H. injection H as Hc Hw. split.
    + now apply lower_char_small.
    + now apply IH.
  - intros [Hc Hw]. f_equal; [now apply lower_char_small | now apply IH].
Qed.

Lemma lower_append (a b : string) :
  Str.lower (Str.cat a b) = Str.cat (Str.lower a) (Str.lower b).
Proof. induction a as [|c a IH]; simpl; [reflexivity | now rewrite IH]. Qed.

Lemma lower_split : forall x f y,
  Str.lower f = Str.cat x y ->
  exists a b, f = Str.cat a b /\ Str.lower a = x /\ Str.lower b = y.
Proof.
  induction x as [|c x IH]; intros f y H.
  - exists EmptyString, f. now repeat split.
  - destruct f as [|d f]; [discriminate|]. cbn [Str.lower String.append] in H.
    injection H as Hc Hf. destruct (IH _ _ Hf) as (a & b & -> & Ha & Hb).
    exists (String d a), b. cbn [Str.lower]. now rewrite Hc, Ha.
Qed.

Lemma contains_occurrence : forall needle hay,
  Str.contains needle hay = true <->
  exists pre post, hay = Str.cat pre (Str.cat needle post).
Proof.
  intros needle hay. split.
  - induction hay as [|c hay IH]; intros H.
    + destruct needle; [|discriminate]. now exists EmptyString, EmptyString.
    + rewrite contains_cons in H. apply orb_true_iff in H as [H | H].
      * apply prefix_split in H as [r ->]. now exists EmptyString, r.
      * destruct (IH H) as (pre & post & ->). now exists (String c pre), post.
  - intros (pre & post & ->). apply contains_append.
Qed.

(** A month name occurs in the lower-cased file name exactly when the
    file name holds it in some mix of capital and small letters. *)
Lemma contains_lower (name f : string) :
  small_letters name = true ->
  (Str.contains name (Str.lower f) = true <-> occurs_ignoring_case name f).
Proof.
  intros Hs. rewrite contains_occurrence. split.
  - intros (x & y & H).
    destruct (lower_split _ _ _ H) as (pre & rest & -> & _ & Hrest).
    destruct (lower_split _ _ _ Hrest) as (w & post & -> & Hw & _).
    exists pre, w, post. split; [reflexivity|]. now apply lower_spells.
  - intros (pre & w & post & -> & Hw).
    exists (Str.lower pre), (Str.lower post).
    rewrite !lower_append. now rewrite (proj2 (lower_spells _ _ Hs) Hw).
Qed.

Lemma month_names_small : forall name num,
  In (name, num) month_map -> small_letters name = true.
Proof.
  intros name num Hin. unfold month_map in Hin. simpl in Hin.
  repeat (destruct Hin as [Heq | Hin]; [injection Heq as <- _; reflexivity|]).
  contradiction.
Qed.

Lemma search_quarter_complete : forall pre f d post,
  quarter_token_at f pre d post -> exists d', search_quarter f = Some d'.
Proof.
  induction pre as [|c pre IH]; intros f d post (q & Hq & Hd & ->).
  - cbn [String.append]. rewrite search_quarter_cons.
    cbn [Ascii.eqb Bool.eqb andb]. rewrite Hd.
    destruct Hq as [-> | ->]; cbn; eauto.
  - change (Str.cat (String c pre) (String "-" (String q (String d post))))
      with (String c (Str.cat pre (String "-" (String q (String d post))))).
    rewrite search_quarter_cons.
    destruct (IH (Str.cat pre (String "-" (String q (String d post)))) d post)
      as (d' & Hd').
    { exists q. repeat split; assumption. }
    rewrite Hd'.
    destruct (Str.cat pre (String "-" (String q (String d post)))) as [|x [|y r]];
      eauto.
    destruct (Ascii.eqb c "-" && (Ascii.eqb x "q" || Ascii.eqb x "Q") && Str.is_digit y);
      eauto.
Qed.

(** A run of six digits starts where six digits can be taken. *)
Lemma digit_run_taken (f pre run post : string) :
  digit_run_at f pre run post ->
  take_digits 6 (String.substring (String.length pre)
                   (String.length f - String.length pre) f)
  = Some run.
Proof.
  intros (-> & Hlen & Hd).
  rewrite length_append.
  replace (String.length pre + String.length (Str.cat run post) - String.length pre)%nat
    with (String.length (Str.cat run post)) by lia.
  rewrite substring_suffix, <- Hlen. now apply take_digits_complete.
Qed.

(** C7. The file-name parser on ASCII names: the year comes from the
    leftmost run of six digits (first four digits and last two), the
    result is (0, 0, 0) when there is no run of six digits, a token
    -q<digit> or -Q<digit> wins over any month name, and without such a
    token the third component is the number (1 to 12) of a month name of
    the table that occurs in the name in any mix of capital and small
    letters, or 0 when none occurs; with the three file names of the
    scenario, and two in capital letters. *)
Theorem extract_year_quarter_spec :
  (forall filename,
      ascii_text filename = true ->
      (forall pre run post, ~ digit_run_at filename pre run post) ->
      extract_year_quarter_from_filename filename = (0, 0, 0))
  /\ (forall filename pre run post,
         ascii_text filename = true ->
         digit_run_at filename pre run post ->
         (forall pre' run' post',
             digit_run_at filename pre' run' post' ->
             (String.length pre <= String.length pre')%nat) ->
         let '(year_start, year_end, sub_period) :=
           extract_year_quarter_from_filename filename in
         year_start = digits_value (String.substring 0 4 run)
         /\ year_end = digits_value (String.substring 4 2 run)
         /\ (forall qpre d qpost,
                quarter_token_at filename qpre d qpost ->
                (forall qpre' d' qpost',
                    quarter_token_at filename qpre' d' qpost' ->
                    (String.length qpre <= String.length qpre')%nat) ->
                sub_period = digit_value d)
         /\ ((forall qpre d qpost, ~ quarter_token_at filename qpre d qpost) ->
             ((exists name num,
                  In (name, num) month_map
                  /\ occurs_ignoring_case name filename) ->
              1 <= sub_period <= 12
              /\ exists name,
                  In (name, sub_period) month_map
                  /\ occurs_ignoring_case name filename)
             /\ ((forall name num,
                     In (name, num) month_map ->
                     ~ occurs_ignoring_case name filename) ->
                 sub_period = 0)))
  /\ extract_year_quarter_from_filename
       "app-underlying-data-vacancies-202425-q2.csv" = (2024, 25, 2)
  /\ extract_year_quarter_from_filename
       "app-underlying-data-monthly-202324-nov.csv" = (2023, 24, 11)
  /\ extract_year_quarter_from_filename "invalid-file.csv" = (0, 0, 0)
  /\ extract_year_quarter_from_filename
       "APP-UNDERLYING-DATA-VACANCIES-202425-Q2.CSV" = (2024, 25, 2)
  /\ extract_year_quarter_from_filename
       "App-Underlying-Data-Monthly-202324-November.csv" = (2023, 24, 11).
Proof.
  split; [|split; [|repeat split; reflexivity]].
  - intros filename _ Hnone. unfold extract_year_quarter_from_filename.
    destruct (search_year filename) as [g|] eqn:Hy; [|reflexivity].
    destruct (search_year_some _ _ Hy) as (pre & run & post & Hrun).
    exfalso. exact (Hnone _ _ _ Hrun).
  - intros filename pre run post _ Hrun Hleft.
    unfold extract_year_quarter_from_filename.
    rewrite (search_year_leftmost _ _ _ _ Hrun Hleft).
    destruct (search_quarter filename) as [d0|] eqn:Hq.
    + split; [reflexivity|]. split; [reflexivity|]. split.
      * intros qpre d qpost Htok Hqleft.
        rewrite (search_quarter_leftmost _ _ _ _ Htok Hqleft) in Hq.
        now injection Hq as <-.
      * intros Hno. exfalso.
        destruct (search_quarter_some _ _ Hq) as (qpre & qpost & Htok).
        exact (Hno _ _ _ Htok).
    + destruct (search_month month_map (Str.lower filename)) as [m|] eqn:Hm.
      * split; [reflexivity|]. split; [reflexivity|]. split.
        -- intros qpre d qpost Htok Hqleft.
           rewrite (search_quarter_leftmost _ _ _ _ Htok Hqleft) in Hq. discriminate.
        -- intros _. split.
           ++ intros _. destruct (search_month_some _ _ _ Hm) as (name & Hin & Hc).
              split; [exact (month_map_range _ _ Hin)|]. exists name.
              split; [assumption|].
              now apply (contains_lower _ _ (month_names_small _ _ Hin)).
           ++ intros Habs. rewrite search_month_none in Hm; [discriminate|].
              intros name num Hin.
              destruct (Str.contains name (Str.lower filename)) eqn:Hc; [|reflexivity].
              exfalso. apply (Habs name num Hin).
              now apply (contains_lower _ _ (month_names_small _ _ Hin)).
      * split; [reflexivity|]. split; [reflexivity|]. split.
        -- intros qpre d qpost Htok Hqleft.
           rewrite (search_quarter_leftmost _ _ _ _ Htok Hqleft) in Hq. discriminate.
        -- intros _. split.
           ++ intros (name & num & Hin & Hc).
              apply (contains_lower _ _ (month_names_small _ _ Hin)) in Hc.
              destruct (search_month_found _ _ _ _ Hin Hc) as (n & Hn). congruence.
           ++ reflexivity.
Qed.

(** ** Order of the sort keys of columns *)

Lemma tuple_leb_total (a b : string * Z) :
  tuple_leb a b = true \/ tuple_leb b a = true.
Proof.
  unfold tuple_leb. rewrite (String.compare_antisym (fst b) (fst a)).
  destruct (String.compare (fst a) (fst b)); simpl; auto.
  rewrite !Z.leb_le. lia.
Qed.

Lemma tuple_leb_trans (a b c : string * Z) :
  tuple_leb a b = true -> tuple_leb b c = true -> tuple_leb a c = true.
Proof.
  unfold tuple_leb.
  destruct (String.compare (fst a) (fst b)) eqn:Eab; try discriminate;
    destruct (String.compare (fst b) (fst c)) eqn:Ebc; try discriminate;
    intros H1 H2.
  - apply String.compare_eq_iff in Eab, Ebc. rewrite Eab, Ebc, string_compare_refl.
    apply Z.leb_le in H1, H2. apply Z.leb_le. lia.
  - apply String.compare_eq_iff in Eab. now rewrite Eab, Ebc.
  - apply String.compare_eq_iff in Ebc. now rewrite <- Ebc, Eab.
  - now rewrite (string_compare_lt_trans _ _ _ Eab Ebc).
Qed.

(** ** Decimal numerals *)

Lemma digit_not_space (c : ascii) : Str.is_digit c = true -> Str.is_space c = false.
Proof.
  unfold Str.is_digit, Str.is_space. intros H.
  apply andb_true_iff in H as [H1 H2]. apply Nat.leb_le in H1, H2.
  repeat rewrite orb_false_iff. repeat split.
  - apply Nat.eqb_neq. lia.
  - apply andb_false_iff. right. apply Nat.leb_gt. lia.
  - apply andb_false_iff. right. apply Nat.leb_gt. lia.
Qed.

Lemma digit_not_char (c x : ascii) :
  Str.is_digit c = true -> Str.is_digit x = false -> Ascii.eqb c x = false.
Proof.
  intros Hc Hx. apply Ascii.eqb_neq. intros ->. congruence.
Qed.

Lemma all_digits_cons (c : ascii) (s : string) :
  all_digits (String c s) = Str.is_digit c && all_digits s.
Proof. reflexivity. Qed.

Lemma rstrip_digits : forall s, all_digits s = true -> Str.rstrip s = s.
Proof.
  induction s as [|c s IH]; intros H; [reflexivity|].
  rewrite all_digits_cons in H. apply andb_true_iff in H as [Hc Hs].
  simpl. rewrite (IH Hs). destruct s; [|reflexivity].
  now rewrite (digit_not_space _ Hc).
Qed.

Lemma strip_digits (s : string) : all_digits s = true -> Str.strip s = s.
Proof.
  intros H. unfold Str.strip.
  assert (Hl : Str.lstrip s = s).
  { destruct s as [|c s]; [reflexivity|].
    rewrite all_digits_cons in H. apply andb_true_iff in H as [Hc _].
    simpl. now rewrite (digit_not_space _ Hc). }
  rewrite Hl. now apply rstrip_digits.
Qed.

Lemma literal_digits_digits : forall s prev,
  all_digits s = true -> s <> EmptyString \/ prev = true ->
  Str.literal_digits prev s = Some s.
Proof.
  induction s as [|c s IH]; intros prev H Hne.
  - destruct Hne as [Hne | ->]; [congruence | reflexivity].
  - rewrite all_digits_cons in H. apply andb_true_iff in H as [Hc Hs].
    simpl. rewrite Hc, (IH true Hs); [reflexivity | now right].
Qed.

Lemma string_of_uint_digits (d : Decimal.uint) :
  all_digits (NilEmpty.string_of_uint d) = true.
Proof. induction d; simpl; try reflexivity; exact IHd. Qed.

Lemma of_Z_pos (p : positive) :
  Str.of_Z (Zpos p) = NilEmpty.string_of_uint (Pos.to_uint p).
Proof. reflexivity. Qed.

Lemma of_Z_digits (q : Z) : 0 < q -> all_digits (Str.of_Z q) = true.
Proof.
  destruct q as [|p|p]; try lia. intros _.
  rewrite of_Z_pos. apply string_of_uint_digits.
Qed.

Lemma of_Z_nonempty (q : Z) : 0 < q -> Str.of_Z q <> EmptyString.
Proof.
  destruct q as [|p|p]; try lia. intros _. rewrite of_Z_pos.
  pose proof (DecimalPos.Unsigned.to_uint_nonnil p) as Hn.
  destruct (Pos.to_uint p); simpl; congruence.
Qed.

Lemma digit_not_int_space (c : ascii) :
  Str.is_digit c = true -> Str.is_int_space c = false.
Proof.
  unfold Str.is_digit, Str.is_int_space. intros H.
  apply andb_true_iff in H as [H1 H2]. apply Nat.leb_le in H1, H2.
  apply orb_false_iff. split.
  - apply Nat.eqb_neq. lia.
  - apply andb_false_iff. right. apply Nat.leb_gt. lia.
Qed.

Lemma int_strip_digits (s : string) :
  all_digits s = true -> Str.int_rstrip (Str.int_lstrip s) = s.
Proof.
  intros H.
  assert (Hl : Str.int_lstrip s = s).
  { destruct s as [|c s]; [reflexivity|].
    rewrite all_digits_cons in H. apply andb_true_iff in H as [Hc _].
    simpl. now rewrite (digit_not_int_space _ Hc). }
  rewrite Hl. clear Hl. induction s as [|c s IH]; [reflexivity|].
  rewrite all_digits_cons in H. apply andb_true_iff in H as [Hc Hs].
  simpl. rewrite (IH Hs). destruct s; [|reflexivity].
  now rewrite (digit_not_int_space _ Hc).
Qed.

(** [int(str(q)) == q] for a positive integer. *)
Lemma to_Z_of_Z (q : Z) : 0 < q -> Str.to_Z (Str.of_Z q) = Some q.
Proof.
  intros Hq. pose proof (of_Z_digits q Hq) as Hd.
  pose proof (of_Z_nonempty q Hq) as Hne.
  unfold Str.to_Z. rewrite (int_strip_digits _ Hd).
  destruct (Str.of_Z q) as [|c t] eqn:E; [congruence|].
  pose proof Hd as Hd'.
  rewrite all_digits_cons in Hd'. apply andb_true_iff in Hd' as [Hc _].
  rewrite (digit_not_char c "+" Hc eq_refl), (digit_not_char c "-" Hc eq_refl).
  unfold Str.unsigned_literal.
  rewrite (literal_digits_digits _ false Hd); [|left; discriminate].
  rewrite <- E. destruct q as [|p|p]; try lia.
  rewrite of_Z_pos, NilEmpty.usu. simpl. unfold Z.of_uint.
  now rewrite DecimalPos.Unsigned.of_to.
Qed.

Lemma digits_no_separator : forall s,
  all_digits s = true -> Str.contains " Q" s = false.
Proof.
  induction s as [|c s IH]; intros H; [reflexivity|].
  rewrite all_digits_cons in H. apply andb_true_iff in H as [Hc Hs].
  rewrite contains_cons, (IH Hs), orb_false_r, prefix_cons.
  rewrite Ascii.eqb_sym, (digit_not_char c " " Hc eq_refl). reflexivity.
Qed.

(** ** Splitting a quarterly key *)

Lemma split_no_separator : forall s,
  Str.contains " Q" s = false -> Str.split s " Q" = [s].
Proof.
  unfold Str.split.
  induction s as [|c s IH]; intros H; [reflexivity|].
  rewrite contains_cons in H. apply orb_false_iff in H as [Hp Hs].
  cbn [Str.split_from]. rewrite Hp, (IH Hs). reflexivity.
Qed.

Lemma prefix_one (c : ascii) (s : string) :
  String.prefix (String c EmptyString) s
  = match s with
    | String d _ => Ascii.eqb c d
    | EmptyString => false
    end.
Proof.
  destruct s as [|d s]; [reflexivity|].
  now rewrite prefix_cons, prefix_nil, andb_true_r.
Qed.

Lemma split_quarter_key : forall y d,
  Str.contains " Q" y = false -> Str.contains " Q" d = false ->
  Str.split (Str.cat y (Str.cat " Q" d)) " Q" = [y; d].
Proof.
  unfold Str.split.
  induction y as [|c y IH]; intros d Hy Hd.
  - simpl append. cbn [Str.split_from]. rewrite prefix_cons, prefix_one.
    simpl. fold (Str.split d " Q"). now rewrite (split_no_separator _ Hd).
  - rewrite contains_cons in Hy. apply orb_false_iff in Hy as [Hp Hy].
    change (Str.cat (String c y) (Str.cat " Q" d))
      with (String c (Str.cat y (Str.cat " Q" d))).
    cbn [Str.split_from].
    assert (Hp' : String.prefix " Q" (String c (Str.cat y (Str.cat " Q" d))) = false).
    { rewrite prefix_cons, prefix_one in *.
      destruct y as [|c' y]; simpl append.
      - apply andb_false_iff. now right.
      - exact Hp. }
    rewrite Hp', (IH d Hy Hd). reflexivity.
Qed.

Lemma split_from_nonempty (sep : string) : forall s skip,
  Str.split_from sep skip s <> [].
Proof.
  induction s as [|c s IH]; intros skip; cbn [Str.split_from]; [discriminate|].
  destruct skip; [|apply IH].
  destruct (String.prefix sep (String c s)); [discriminate|].
  destruct (Str.split_from sep 0 s); discriminate.
Qed.

(** [header_of] reads index 1 of the split only when the key contains
    the separator, where the split has at least two parts. *)
Lemma split_two_parts : forall s,
  Str.contains " Q" s = true ->
  exists a b rest, Str.split s " Q" = a :: b :: rest.
Proof.
  unfold Str.split.
  induction s as [|c s IH]; intros H; [discriminate|].
  rewrite contains_cons in H. cbn [Str.split_from].
  destruct (String.prefix " Q" (String c s)) eqn:Ep.
  - destruct (Str.split_from " Q" (String.length " Q" - 1) s) as [|b rest] eqn:Es.
    + now apply split_from_nonempty in Es.
    + now exists EmptyString, b, rest.
  - simpl in H. destruct (IH H) as (a & b & rest & ->).
    now exists (String c a), b, rest.
Qed.

Lemma sort_key_plain (k : string) :
  Str.contains " Q" k = false -> sort_key k = Ok (k, 0).
Proof. intros H. unfold sort_key. now rewrite H. Qed.

Lemma sort_key_quarter_key (y : string) (q : Z) :
  Str.contains " Q" y = false -> 0 < q ->
  sort_key (quarter_key y q) = Ok (y, q).
Proof.
  intros Hy Hq. unfold sort_key, quarter_key.
  rewrite contains_append.
  rewrite (split_quarter_key y _ Hy (digits_no_separator _ (of_Z_digits q Hq))).
  now rewrite (to_Z_of_Z q Hq).
Qed.

(** ** Dictionaries *)

Section DictFacts.
Context {V : Type}.
Implicit Types (d : Dict.t V) (k : string) (v : V).

Lemma get_set_same d k v : Dict.get (Dict.set d k v) k = Some v.
Proof.
  induction d as [|[k' v'] r IH]; simpl.
  - now rewrite String.eqb_refl.
  - destruct (String.eqb k' k) eqn:E; simpl; rewrite E; [reflexivity | exact IH].
Qed.

Lemma get_set_other d k k' v :
  k <> k' -> Dict.get (Dict.set d k v) k' = Dict.get d k'.
Proof.
  intros Hne. induction d as [|[k0 v0] r IH]; simpl.
  - apply String.eqb_neq in Hne. now rewrite Hne.
  - destruct (String.eqb k0 k) eqn:E; simpl.
    + apply String.eqb_eq in E as ->.
      apply String.eqb_neq in Hne. now rewrite Hne.
    + now rewrite IH.
Qed.

Lemma get_none_iff d k : Dict.get d k = None <-> ~ In k (Dict.keys d).
Proof.
  induction d as [|[k' v'] r IH]; simpl.
  - tauto.
  - destruct (String.eqb_spec k' k) as [-> | Hne].
    + split; [discriminate | tauto].
    + rewrite IH. tauto.
Qed.

Lemma get_some_in d k v : Dict.get d k = Some v -> In (k, v) d.
Proof.
  induction d as [|[k' v'] r IH]; simpl; [discriminate|].
  destruct (String.eqb_spec k' k) as [-> | Hne].
  - intros [= ->]. now left.
  - intros H. right. now apply IH.
Qed.

Lemma in_get d k v : NoDup (Dict.keys d) -> In (k, v) d -> Dict.get d k = Some v.
Proof.
  induction d as [|[k' v'] r IH]; simpl; intros Hnd Hin; [contradiction|].
  inversion Hnd as [|? ? Hnot Hnd']; subst.
  destruct Hin as [[= -> ->] | Hin].
  - now rewrite String.eqb_refl.
  - destruct (String.eqb_spec k' k) as [-> | Hne].
    + exfalso. apply Hnot. apply in_map_iff. now exists (k, v).
    + now apply IH.
Qed.

Lemma mem_true_iff d k : Dict.mem d k = true <-> In k (Dict.keys d).
Proof.
  unfold Dict.mem. pose proof (get_none_iff d k) as H.
  destruct (Dict.get d k).
  - split; [intros _ | reflexivity].
    destruct (in_dec string_dec k (Dict.keys d)) as [Hin | Hnot]; [assumption|].
    apply H in Hnot. discriminate.
  - split; [discriminate|]. intros Hin. exfalso. now apply (proj1 H).
Qed.

Lemma keys_set_in d k v x :
  In x (Dict.keys (Dict.set d k v)) <-> x = k \/ In x (Dict.keys d).
Proof.
  induction d as [|[k' v'] r IH]; simpl.
  - intuition.
  - destruct (String.eqb_spec k' k) as [-> | Hne]; simpl.
    + intuition.
    + rewrite IH. intuition.
Qed.

Lemma keys_set_nodup d k v :
  NoDup (Dict.keys d) -> NoDup (Dict.keys (Dict.set d k v)).
Proof.
  induction d as [|[k' v'] r IH]; simpl; intros Hnd.
  - constructor; [intros [] | constructor].
  - inversion Hnd as [|? ? Hnot Hnd']; subst.
    destruct (String.eqb_spec k' k) as [-> | Hne]; simpl.
    + now constructor.
    + constructor; [|now apply IH].
      intros Hin. apply keys_set_in in Hin. destruct Hin as [-> | Hin]; tauto.
Qed.

Lemma remove_in d k x : In x (Dict.remove d k) -> In x d.
Proof.
  induction d as [|[k' v'] r IH]; simpl; [tauto|].
  destruct (String.eqb k' k); simpl; [tauto|].
  intros [<- | H]; [now left | right; now apply IH].
Qed.

Lemma remove_keys_nodup d k : NoDup (Dict.keys d) -> NoDup (Dict.keys (Dict.remove d k)).
Proof.
  induction d as [|[k' v'] r IH]; simpl; intros Hnd; [constructor|].
  inversion Hnd as [|? ? Hnot Hnd']; subst.
  destruct (String.eqb k' k); simpl; [assumption|].
  constructor; [|now apply IH].
  intros Hin. apply Hnot. apply in_map_iff in Hin as ([k0 v0] & <- & Hin).
  apply in_map_iff. exists (k0, v0). split; [reflexivity|].
  now apply remove_in in Hin.
Qed.

Lemma remove_not_key d k :
  NoDup (Dict.keys d) -> ~ In k (Dict.keys (Dict.remove d k)).
Proof.
  induction d as [|[k' v'] r IH]; simpl; intros Hnd; [tauto|].
  inversion Hnd as [|? ? Hnot Hnd']; subst.
  destruct (String.eqb_spec k' k) as [-> | Hne]; simpl; [assumption|].
  intros [H | H]; [congruence | now apply IH].
Qed.

Lemma get_remove_other d k k' :
  k <> k' -> Dict.get (Dict.remove d k) k' = Dict.get d k'.
Proof.
  intros Hne. induction d as [|[k0 v0] r IH]; simpl; [reflexivity|].
  destruct (String.eqb_spec k0 k) as [-> | Hne0]; simpl.
  - apply String.eqb_neq in Hne. now rewrite Hne.
  - now rewrite IH.
Qed.

End DictFacts.

Lemma sum_Z_app (a b : list Z) : sum_Z (a ++ b) = sum_Z a + sum_Z b.
Proof. induction a as [|x a IH]; simpl; [reflexivity | rewrite IH; lia]. Qed.

Lemma sum_Z_perm (a b : list Z) : Permutation a b -> sum_Z a = sum_Z b.
Proof. induction 1; simpl; lia. Qed.

Lemma sum_Z_zero (l : list Z) : Forall (fun z => z = 0) l -> sum_Z l = 0.
Proof. induction 1; simpl; lia. Qed.

(** ** Sets of strings *)

Lemma set_of_in (l : list string) (x : string) : In x (set_of l) <-> In x l.
Proof.
  induction l as [|y t IH]; simpl; [tauto|].
  rewrite filter_In, IH, negb_true_iff, String.eqb_neq.
  destruct (string_dec y x); intuition.
Qed.

Lemma set_of_nodup (l : list string) : NoDup (set_of l).
Proof.
  induction l as [|y t IH]; simpl; constructor.
  - rewrite filter_In, negb_true_iff, String.eqb_neq. tauto.
  - now apply NoDup_filter.
Qed.

(** ** The monad *)

Lemma mapM_keyed {A K : Type} (f : A -> result K) : forall l keyed,
  mapM (fun a => k <- f a ;; Ok (k, a)) l = Ok keyed ->
  map snd keyed = l /\ Forall (fun ka => f (snd ka) = Ok (fst ka)) keyed.
Proof.
  induction l as [|a l IH]; intros keyed H; simpl in H.
  - injection H as <-. split; constructor.
  - destruct (f a) as [k|e] eqn:Ek; simpl in H; [|discriminate].
    destruct (mapM _ l) as [ys|e] eqn:Em; simpl in H; [|discriminate].
    injection H as <-. destruct (IH _ eq_refl) as [Hs Hf].
    split; [simpl; now rewrite Hs | constructor; assumption].
Qed.

Lemma mapM_keyed_ok {A K : Type} (f : A -> result K) : forall l,
  Forall (fun a => exists k, f a = Ok k) l ->
  exists keyed, mapM (fun a => k <- f a ;; Ok (k, a)) l = Ok keyed.
Proof.
  induction 1 as [|a l (k & Hk) _ (keyed & IH)]; simpl.
  - now exists [].
  - rewrite Hk. simpl. rewrite IH. simpl. now eexists.
Qed.

(** ** The column planner *)

Lemma tuple_leb_spec (ka kb : string * Z) :
  tuple_leb ka kb = true
  <-> String.compare (fst ka) (fst kb) = Lt \/ (fst ka = fst kb /\ snd ka <= snd kb).
Proof.
  unfold tuple_leb. destruct (String.compare (fst ka) (fst kb)) eqn:E.
  - apply String.compare_eq_iff in E. rewrite Z.leb_le. split.
    + intros H. right. now split.
    + intros [H | [_ H]]; [discriminate | assumption].
  - split; [now left | reflexivity].
  - split; [discriminate|]. intros [H | [H _]]; [discriminate|].
    rewrite H, string_compare_refl in E. discriminate.
Qed.

Lemma sorted_year_keys_spec (keys sorted : list string) :
  sorted_year_keys keys = Ok sorted ->
  Permutation sorted keys /\ StronglySorted key_le sorted.
Proof.
  unfold sorted_year_keys. intros H.
  destruct (mapM _ keys) as [keyed|e] eqn:Em; simpl in H; [|discriminate].
  injection H as <-. destruct (mapM_keyed _ _ _ Em) as [Hs Hf].
  split.
  - rewrite <- Hs. apply Permutation_map, sort_keyed_perm.
  - pose proof (sort_keyed_strongly_sorted tuple_leb tuple_leb_total
                  tuple_leb_trans keyed) as Hss.
    assert (Hf' : Forall (fun ka => sort_key (snd ka) = Ok (fst ka))
                    (sort_keyed tuple_leb keyed)).
    { eapply Permutation_Forall; [|exact Hf].
      apply Permutation_sym, sort_keyed_perm. }
    induction Hss as [|x l Hl IH Hx]; simpl; constructor.
    + apply IH. now inversion Hf'.
    + inversion Hf' as [|? ? Hfx Hfl]; subst.
      rewrite Forall_forall in *. intros k Hk.
      apply in_map_iff in Hk as (y & <- & Hy).
      exists (fst x), (fst y). repeat split; auto.
      apply tuple_leb_spec. now apply Hx.
Qed.

Lemma plan_columns_inv (aggregated : matrix) (m : string) sorted quarterly final :
  plan_columns aggregated m = Ok (sorted, quarterly, final) ->
  sorted_year_keys (all_year_keys aggregated) = Ok sorted
  /\ quarterly = quarterly_keys_of m sorted
  /\ final_year_keys m quarterly sorted = Ok final.
Proof.
  unfold plan_columns. intros H.
  destruct (sorted_year_keys _) as [s|e]; simpl in H; [|discriminate].
  destruct (final_year_keys _ _ s) as [f|e] eqn:Ef; simpl in H; [|discriminate].
  injection H as <- <- <-. auto.
Qed.

Lemma final_year_keys_plain (m : string) (keys final : list string) :
  final_year_keys m [] keys = Ok final -> final = keys.
Proof.
  revert final. induction keys as [|k keys IH]; intros final H; simpl in H.
  - now injection H as <-.
  - destruct (Str.contains " Q" k); simpl in H; [discriminate|].
    destruct (final_year_keys m [] keys) as [t|e]; simpl in H; [|discriminate].
    injection H as <-. now rewrite (IH t eq_refl).
Qed.

Lemma final_year_keys_first (m first : string) (rest keys : list string) :
  Str.contains " Q" first = true ->
  final_year_keys m (first :: rest) keys
  = Ok (flat_map (fun k => if String.eqb k first then [m; k] else [k]) keys).
Proof.
  intros Hq. induction keys as [|k keys IH]; simpl; [reflexivity|].
  rewrite IH. destruct (String.eqb_spec k first) as [-> | Hne].
  - rewrite Hq. reflexivity.
  - destruct (Str.contains " Q" k); reflexivity.
Qed.

Lemma flat_map_absent (m first : string) (l : list string) :
  ~ In first l ->
  flat_map (fun k => if String.eqb k first then [m; k] else [k]) l = l.
Proof.
  induction l as [|k l IH]; simpl; intros H; [reflexivity|].
  destruct (String.eqb_spec k first) as [-> | Hne]; [tauto|].
  simpl. rewrite IH; tauto.
Qed.

Lemma quarterly_head (m first : string) (rest sorted : list string) :
  quarterly_keys_of m sorted = first :: rest ->
  Str.startswith first m = true /\ Str.contains " Q" first = true
  /\ exists earlier later,
      sorted = earlier ++ first :: later
      /\ Forall (fun k => Str.startswith k m && Str.contains " Q" k = false) earlier.
Proof.
  unfold quarterly_keys_of.
  induction sorted as [|k sorted IH]; simpl; [discriminate|].
  destruct (Str.startswith k m && Str.contains " Q" k) eqn:Ek.
  - intros [= -> <-]. apply andb_true_iff in Ek as [H1 H2].
    repeat split; try assumption. exists [], sorted. split; [reflexivity | constructor].
  - intros H. destruct (IH H) as (H1 & H2 & earlier & later & -> & Hf).
    repeat split; try assumption.
    exists (k :: earlier), later. split; [reflexivity | now constructor].
Qed.

Lemma plan_columns_nodup (aggregated : matrix) (m : string) sorted quarterly final :
  plan_columns aggregated m = Ok (sorted, quarterly, final) -> NoDup sorted.
Proof.
  intros H. apply plan_columns_inv in H as (Hs & _ & _).
  apply sorted_year_keys_spec in Hs as [Hp _].
  eapply Permutation_NoDup; [apply Permutation_sym, Hp | apply set_of_nodup].
Qed.

Lemma plan_columns_final (aggregated : matrix) (m : string) sorted quarterly final :
  plan_columns aggregated m = Ok (sorted, quarterly, final) ->
  (quarterly = [] -> final = sorted)
  /\ (forall first rest,
         quarterly = first :: rest ->
         exists earlier later,
           sorted = earlier ++ first :: later
           /\ final = earlier ++ m :: first :: later
           /\ Forall (fun k => Str.startswith k m && Str.contains " Q" k = false)
                earlier).
Proof.
  intros H. pose proof (plan_columns_nodup _ _ _ _ _ H) as Hnd.
  apply plan_columns_inv in H as (_ & Hq & Hf). split.
  - intros E. rewrite E in Hf. now apply final_year_keys_plain in Hf.
  - intros first rest E. rewrite E in Hq, Hf. symmetry in Hq.
    destruct (quarterly_head _ _ _ _ Hq) as (_ & Hc & earlier & later & -> & Hall).
    exists earlier, later. split; [reflexivity|]. split; [|assumption].
    rewrite (final_year_keys_first _ _ _ _ Hc) in Hf. injection Hf as <-.
    apply NoDup_remove_2 in Hnd.
    rewrite flat_map_app. simpl. rewrite String.eqb_refl.
    rewrite !flat_map_absent; [reflexivity | |];
      intros Hin; apply Hnd, in_or_app; auto.
Qed.

(** ** The aggregation *)

Lemma set_set {V : Type} (d : Dict.t V) (k : string) (v v' : V) :
  Dict.set (Dict.set d k v) k v' = Dict.set d k v'.
Proof.
  induction d as [|[k0 v0] r IH]; simpl.
  - now rewrite String.eqb_refl.
  - destruct (String.eqb k0 k) eqn:E; simpl; rewrite E; [reflexivity | now rewrite IH].
Qed.

Lemma get_or_set_same {V : Type} (d : Dict.t V) (k : string) (v default : V) :
  Dict.get_or (Dict.set d k v) k default = v.
Proof. unfold Dict.get_or. now rewrite get_set_same. Qed.

Lemma get_or_set_other {V : Type} (d : Dict.t V) (k k' : string) (v default : V) :
  k <> k' -> Dict.get_or (Dict.set d k v) k' default = Dict.get_or d k' default.
Proof. intros H. unfold Dict.get_or. now rewrite get_set_other. Qed.

(** The loop body sets one cell of the matrix. *)
Lemma aggregate_step_eq (m : option string) (aggregated : matrix) (r : starts_record) :
  let year_data := Dict.get_or aggregated (provider_clean r) [] in
  let k := year_key_of m r in
  aggregate_step m aggregated r
  = Dict.set aggregated (provider_clean r)
      (Dict.set year_data k (Dict.get_or year_data k 0 + starts r)).
Proof.
  intros year_data k. unfold aggregate_step. cbv zeta. fold k.
  assert (Hinner : forall d : Dict.t Z,
             Dict.set (if Dict.mem d k then d else Dict.set d k 0) k
               (Dict.get_or (if Dict.mem d k then d else Dict.set d k 0) k 0
                + starts r)
             = Dict.set d k (Dict.get_or d k 0 + starts r)).
  { intros d. unfold Dict.mem. destruct (Dict.get d k) eqn:E; [reflexivity|].
    rewrite get_or_set_same, set_set. unfold Dict.get_or. now rewrite E. }
  rewrite Hinner. subst year_data. unfold Dict.mem, Dict.get_or.
  destruct (Dict.get aggregated (provider_clean r)) eqn:E.
  - now rewrite E.
  - now rewrite get_set_same, set_set.
Qed.

Lemma set_in {V : Type} (d : Dict.t V) (k : string) (v : V) (x : string * V) :
  In x (Dict.set d k v) -> x = (k, v) \/ In x d.
Proof.
  induction d as [|[k0 v0] r IH]; simpl.
  - intros [<- | []]. now left.
  - destruct (String.eqb_spec k0 k) as [-> | Hne]; simpl.
    + intros [<- | H]; auto.
    + intros [<- | H]; auto. destruct (IH H); auto.
Qed.

Lemma lookup_step (m : option string) (aggregated : matrix) (r : starts_record)
  (p k : string) :
  lookup (aggregate_step m aggregated r) p k
  = lookup aggregated p k + contribution m p k r.
Proof.
  rewrite aggregate_step_eq. unfold lookup, contribution.
  destruct (String.eqb_spec (provider_clean r) p) as [<- | Hp]; simpl.
  - rewrite get_or_set_same.
    destruct (String.eqb_spec (year_key_of m r) k) as [<- | Hk].
    + now rewrite get_or_set_same.
    + rewrite get_or_set_other by assumption. lia.
  - rewrite get_or_set_other by assumption. lia.
Qed.

Lemma lookup_fold (m : option string) (p k : string) :
  forall data aggregated,
    lookup (fold_left (aggregate_step m) data aggregated) p k
    = lookup aggregated p k + sum_Z (map (contribution m p k) data).
Proof.
  induction data as [|r data IH]; intros aggregated; simpl.
  - lia.
  - rewrite IH, lookup_step. lia.
Qed.

(** Every cell of the matrix is the sum of the measures of the records
    that fall into it. *)
Lemma lookup_aggregate (data : list starts_record) (m : option string) (p k : string) :
  lookup (aggregate_starts_by_provider_year data m) p k
  = sum_Z (map (contribution m p k) data).
Proof.
  unfold aggregate_starts_by_provider_year. rewrite lookup_fold. reflexivity.
Qed.

Lemma get_or_in {V : Type} (d : Dict.t V) (k : string) (v : V) :
  NoDup (Dict.keys d) -> In (k, v) d -> forall default, Dict.get_or d k default = v.
Proof. intros Hnd Hin default. unfold Dict.get_or. now rewrite (in_get d k v Hnd Hin). Qed.

Lemma get_or_nil_keys {V : Type} (d : Dict.t (Dict.t V)) (p : string) :
  forall year_data, Dict.get d p = Some year_data -> Dict.get_or d p [] = year_data.
Proof. intros year_data H. unfold Dict.get_or. now rewrite H. Qed.

Lemma step_well_formed (m : option string) (aggregated : matrix) (r : starts_record) :
  well_formed aggregated -> well_formed (aggregate_step m aggregated r).
Proof.
  intros [Hnd Hin]. rewrite aggregate_step_eq. split.
  - now apply keys_set_nodup.
  - intros p year_data H. apply set_in in H as [[= -> ->] | H]; [|eauto].
    apply keys_set_nodup. unfold Dict.get_or.
    destruct (Dict.get aggregated (provider_clean r)) as [d|] eqn:E; [|constructor].
    apply get_some_in in E. eauto.
Qed.

Lemma fold_well_formed (m : option string) : forall data aggregated,
  well_formed aggregated ->
  well_formed (fold_left (aggregate_step m) data aggregated).
Proof.
  induction data as [|r data IH]; intros aggregated H; simpl; [assumption|].
  apply IH. now apply step_well_formed.
Qed.

Lemma aggregate_well_formed (data : list starts_record) (m : option string) :
  well_formed (aggregate_starts_by_provider_year data m).
Proof.
  apply fold_well_formed. split; [constructor | intros p d []].
Qed.

Lemma step_keys (m : option string) (aggregated : matrix) (r : starts_record)
  (p k : string) :
  In k (Dict.keys (Dict.get_or (aggregate_step m aggregated r) p []))
  <-> In k (Dict.keys (Dict.get_or aggregated p []))
      \/ (provider_clean r = p /\ year_key_of m r = k).
Proof.
  rewrite aggregate_step_eq.
  destruct (string_dec (provider_clean r) p) as [<- | Hp].
  - rewrite get_or_set_same, keys_set_in. intuition.
  - rewrite get_or_set_other by assumption. intuition.
Qed.

Lemma fold_keys (m : option string) (p k : string) : forall data aggregated,
  In k (Dict.keys (Dict.get_or (fold_left (aggregate_step m) data aggregated) p []))
  <-> In k (Dict.keys (Dict.get_or aggregated p []))
      \/ exists r, In r data /\ provider_clean r = p /\ year_key_of m r = k.
Proof.
  induction data as [|r data IH]; intros aggregated; simpl.
  - split; [auto | intros [H | (r & [] & _)]; assumption].
  - rewrite IH, step_keys. split.
    + intros [[H | H] | (r' & Hin & H)]; auto.
      * right. exists r. auto.
      * right. exists r'. auto.
    + intros [H | (r' & [<- | Hin] & H)]; auto.
      right. exists r'. auto.
Qed.

Lemma aggregate_keys (data : list starts_record) (m : option string) (p k : string) :
  In k (Dict.keys (Dict.get_or (aggregate_starts_by_provider_year data m) p []))
  <-> exists r, In r data /\ provider_clean r = p /\ year_key_of m r = k.
Proof.
  unfold aggregate_starts_by_provider_year. rewrite fold_keys. simpl.
  split; [intros [[] | H] | intros H]; auto.
Qed.

Lemma all_year_keys_in (aggregated : matrix) (k : string) :
  In k (all_year_keys aggregated)
  <-> exists p year_data, In (p, year_data) aggregated /\ In k (Dict.keys year_data).
Proof.
  unfold all_year_keys. rewrite set_of_in, in_flat_map. split.
  - intros ([p d] & Hin & Hk). now exists p, d.
  - intros (p & d & Hin & Hk). now exists (p, d).
Qed.

Lemma all_year_keys_row (aggregated : matrix) (p k : string) :
  In k (Dict.keys (Dict.get_or aggregated p [])) -> In k (all_year_keys aggregated).
Proof.
  unfold Dict.get_or. destruct (Dict.get aggregated p) as [d|] eqn:E; [|intros []].
  intros H. apply all_year_keys_in. exists p, d. split; [|assumption].
  now apply get_some_in.
Qed.

Lemma all_year_keys_aggregate (data : list starts_record) (m : option string) (k : string) :
  In k (all_year_keys (aggregate_starts_by_provider_year data m))
  <-> exists r, In r data /\ year_key_of m r = k.
Proof.
  split.
  - intros H. apply all_year_keys_in in H as (p & d & Hin & Hk).
    destruct (aggregate_well_formed data m) as [Hnd _].
    pose proof (get_or_in _ _ _ Hnd Hin []) as Hg.
    rewrite <- Hg in Hk. apply aggregate_keys in Hk as (r & Hr & _ & Hk).
    now exists r.
  - intros (r & Hr & Hk). apply (all_year_keys_row _ (provider_clean r)).
    apply aggregate_keys. now exists r.
Qed.

(** ** The most recent year *)

Lemma sorted_last_max {A : Type} (R : A -> A -> Prop) (l : list A) :
  StronglySorted R l ->
  forall m t, rev l = m :: t -> Forall (fun x => x = m \/ R x m) l.
Proof.
  induction 1 as [|x l Hl IH Hx]; intros m t E; [constructor|].
  simpl in E. destruct l as [|y l'].
  - simpl in E. injection E as <- <-. constructor; [now left | constructor].
  - destruct (rev (y :: l')) as [|m' t'] eqn:Er.
    { apply (f_equal (@length A)) in Er. rewrite length_rev in Er. discriminate. }
    simpl in E. injection E as -> <-.
    constructor; [|now apply (IH m t')].
    right. rewrite Forall_forall in Hx. apply Hx.
    apply in_rev. rewrite Er. now left.
Qed.

Lemma most_recent_year_spec (data : list starts_record) (m : string) :
  hd_error (rev (sorted_base_years data)) = Some m ->
  (exists r, In r data /\ year r = m)
  /\ forall r, In r data -> str_leb (year r) m = true.
Proof.
  unfold sorted_base_years.
  set (keyed := map (fun y => (y, y)) (set_of (map year data))).
  intros H.
  destruct (rev (map snd (sort_keyed str_leb keyed))) as [|m' t] eqn:Er;
    [discriminate|]. injection H as ->.
  rewrite <- map_rev in Er.
  destruct (rev (sort_keyed str_leb keyed)) as [|[km vm] t'] eqn:Er'; [discriminate|].
  simpl in Er. injection Er as -> _.
  pose proof (sort_keyed_perm str_leb keyed) as Hperm.
  assert (Hpair : forall x, In x (sort_keyed str_leb keyed) ->
                            fst x = snd x /\ exists r, In r data /\ year r = snd x).
  { intros x Hx. apply (Permutation_in _ Hperm) in Hx. subst keyed.
    apply in_map_iff in Hx as (y & <- & Hy). split; [reflexivity|].
    apply set_of_in, in_map_iff in Hy as (r & <- & Hr). now exists r. }
  assert (Hm : In (km, m) (sort_keyed str_leb keyed)).
  { apply in_rev. rewrite Er'. now left. }
  destruct (Hpair _ Hm) as [Hkm Hex]. simpl in Hkm. subst km. split; [exact Hex|].
  intros r Hr.
  pose proof (sorted_last_max _ _
                (sort_keyed_strongly_sorted str_leb str_leb_total str_leb_trans keyed)
                _ _ Er') as Hmax.
  rewrite Forall_forall in Hmax.
  assert (Hin : In (year r, year r) (sort_keyed str_leb keyed)).
  { apply (Permutation_in _ (Permutation_sym Hperm)). subst keyed.
    apply in_map_iff. exists (year r). split; [reflexivity|].
    apply set_of_in, in_map. exact Hr. }
  destruct (Hmax _ Hin) as [[= ->] | Hle]; [apply str_leb_refl | exact Hle].
Qed.

(** A year that is not the most recent one does not start with it. *)
Lemma other_year_not_recent (data : list starts_record) (m : string) (r : starts_record) :
  hd_error (rev (sorted_base_years data)) = Some m ->
  In r data -> year r <> m -> Str.startswith (year r) m = false.
Proof.
  intros Hm Hr Hne. destruct (most_recent_year_spec _ _ Hm) as [_ Hmax].
  destruct (Str.startswith (year r) m) eqn:E; [|reflexivity].
  exfalso. apply Hne. apply str_leb_antisym; [now apply Hmax|].
  now apply prefix_leb.
Qed.

(** ** Sums *)

Lemma sum_Z_map_add {A : Type} (f g : A -> Z) (l : list A) :
  sum_Z (map (fun x => f x + g x) l) = sum_Z (map f l) + sum_Z (map g l).
Proof. induction l as [|x l IH]; simpl; lia. Qed.

Lemma sum_Z_map_ext {A : Type} (f g : A -> Z) (l : list A) :
  (forall x, In x l -> f x = g x) -> sum_Z (map f l) = sum_Z (map g l).
Proof.
  induction l as [|x l IH]; simpl; intros H; [reflexivity|].
  rewrite (H x (or_introl eq_refl)), IH; auto.
Qed.

Lemma sum_Z_map_zero {A : Type} (f : A -> Z) (l : list A) :
  (forall x, In x l -> f x = 0) -> sum_Z (map f l) = 0.
Proof.
  induction l as [|x l IH]; simpl; intros H; [reflexivity|].
  rewrite (H x (or_introl eq_refl)), IH; auto.
Qed.

Lemma sum_Z_swap {A B : Type} (f : A -> B -> Z) (la : list A) (lb : list B) :
  sum_Z (map (fun a => sum_Z (map (fun b => f a b) lb)) la)
  = sum_Z (map (fun b => sum_Z (map (fun a => f a b) la)) lb).
Proof.
  induction la as [|a la IH]; simpl.
  - symmetry. now apply sum_Z_map_zero.
  - rewrite IH. symmetry. apply (sum_Z_map_add (fun b => f a b)).
Qed.

Lemma sum_Z_indicator (k : string) (s : Z) (l : list string) :
  NoDup l ->
  sum_Z (map (fun x => if String.eqb k x then s else 0) l)
  = if in_dec string_dec k l then s else 0.
Proof.
  induction 1 as [|x l Hx Hnd IH]; simpl; [reflexivity|].
  rewrite IH. destruct (String.eqb_spec k x) as [-> | Hne].
  - destruct (string_dec x x); [|congruence].
    destruct (in_dec string_dec x l); [contradiction | lia].
  - destruct (string_dec x k); [congruence|].
    destruct (in_dec string_dec k l); lia.
Qed.

(** ** Refinement *)

Lemma truthy_some (m : string) : m <> EmptyString -> truthy (Some m) = true.
Proof. destruct m; [congruence | reflexivity]. Qed.

Lemma year_key_of_none (r : starts_record) : year_key_of None r = year r.
Proof. reflexivity. Qed.

Lemma year_key_of_recent (m : string) (r : starts_record) :
  m <> EmptyString -> year r = m -> 0 < quarter r ->
  year_key_of (Some m) r = quarter_key m (quarter r).
Proof.
  intros Hm Hy Hq. unfold year_key_of.
  rewrite (truthy_some m Hm), Hy, String.eqb_refl.
  apply Z.ltb_lt in Hq. now rewrite Hq.
Qed.

Lemma year_key_of_other (m : string) (r : starts_record) :
  year r <> m -> year_key_of (Some m) r = year r.
Proof.
  intros Hy. unfold year_key_of. apply String.eqb_neq in Hy.
  now rewrite Hy, andb_false_r.
Qed.

Lemma quarter_key_startswith (m : string) (q : Z) :
  Str.startswith (quarter_key m q) m = true.
Proof. apply prefix_append. Qed.

Lemma quarter_key_contains (m : string) (q : Z) :
  Str.contains " Q" (quarter_key m q) = true.
Proof. apply contains_append. Qed.

Lemma quarterly_keys_of_in (m : string) (keys : list string) (k : string) :
  In k (quarterly_keys_of m keys)
  <-> In k keys /\ Str.startswith k m = true /\ Str.contains " Q" k = true.
Proof. unfold quarterly_keys_of. now rewrite filter_In, andb_true_iff. Qed.

Lemma row_value_recent (m : string) (quarterly : list string) (aggregated : matrix)
  (p : string) :
  row_value m quarterly (Dict.get_or aggregated p []) m
  = sum_Z (map (fun q_key => lookup aggregated p q_key) quarterly).
Proof. unfold row_value. now rewrite String.eqb_refl. Qed.

(** C2, amended. When the most recent period is a non-empty string and
    every record of that period has a positive quarter, the value shown
    for a provider in the total column of the most recent period, which
    is the sum of its values over the quarterly keys of that period,
    equals the value that the aggregation without refinement gives the
    provider for that period. *)
Theorem refinement_conservation
  (data : list starts_record) (m : string) (sorted quarterly final : list string)
  (p : string) :
  hd_error (rev (sorted_base_years data)) = Some m ->
  m <> EmptyString ->
  (forall r, In r data -> year r = m -> 0 < quarter r) ->
  plan_columns (aggregate_starts_by_provider_year data (Some m)) m
  = Ok (sorted, quarterly, final) ->
  row_value m quarterly
    (Dict.get_or (aggregate_starts_by_provider_year data (Some m)) p []) m
  = lookup (aggregate_starts_by_provider_year data None) p m.
Proof.
  intros Hm Hne Hpos Hplan.
  pose proof (plan_columns_nodup _ _ _ _ _ Hplan) as Hnd.
  apply plan_columns_inv in Hplan as (Hs & Hq & _).
  apply sorted_year_keys_spec in Hs as [Hperm _].
  assert (Hndq : NoDup quarterly).
  { subst quarterly. now apply NoDup_filter. }
  rewrite row_value_recent, lookup_aggregate.
  rewrite (sum_Z_map_ext _
             (fun q_key => sum_Z (map (contribution (Some m) p q_key) data)));
    [|intros; apply lookup_aggregate].
  rewrite (sum_Z_swap (fun q_key r => contribution (Some m) p q_key r)).
  apply sum_Z_map_ext. intros r Hr. unfold contribution.
  rewrite year_key_of_none.
  destruct (String.eqb (provider_clean r) p); cbn [andb];
    [|now apply sum_Z_map_zero].
  rewrite (sum_Z_indicator _ _ _ Hndq).
  destruct (String.eqb_spec (year r) m) as [Hy | Hy].
  - rewrite (year_key_of_recent m r Hne Hy (Hpos r Hr Hy)).
    destruct (in_dec string_dec _ quarterly) as [_ | Hnot]; [reflexivity|].
    exfalso. apply Hnot. subst quarterly. apply quarterly_keys_of_in.
    split; [|split; [apply quarter_key_startswith | apply quarter_key_contains]].
    apply (Permutation_in _ (Permutation_sym Hperm)).
    apply all_year_keys_aggregate. exists r. split; [assumption|].
    apply year_key_of_recent; auto.
  - rewrite (year_key_of_other m r Hy).
    destruct (in_dec string_dec _ quarterly) as [Hin | _]; [|reflexivity].
    exfalso. subst quarterly. apply quarterly_keys_of_in in Hin as (_ & Hst & _).
    rewrite (other_year_not_recent data m r Hm Hr Hy) in Hst. discriminate.
Qed.

Lemma refinement_conservation_witness :
  row_value "2024-25"
    ["2024-25 Q1"; "2024-25 Q2"]%string
    (Dict.get_or
       (aggregate_starts_by_provider_year column_scenario (Some "2024-25"%string))
       "A" []) "2024-25"
  = lookup (aggregate_starts_by_provider_year column_scenario None) "A" "2024-25".
Proof.
  apply (refinement_conservation column_scenario "2024-25"
           ["2022-23"; "2023-24"; "2024-25 Q1"; "2024-25 Q2"]%string
           ["2024-25 Q1"; "2024-25 Q2"]%string
           ["2022-23"; "2023-24"; "2024-25"; "2024-25 Q1"; "2024-25 Q2"]%string
           "A").
  - reflexivity.
  - discriminate.
  - intros r Hr Hy. simpl in Hr.
    repeat (destruct Hr as [<- | Hr]; [simpl in *; first [lia | discriminate]|]).
    contradiction.
  - vm_compute. reflexivity.
Defined.

(** Counterexample to C2 as stated: a record of the most recent period
    without quarter is summed under the plain key, outside the quarterly
    keys, so the total column shows 3 where the unrefined total is 8. *)
Lemma refinement_conservation_counterexample :
  ~ (forall (data : list starts_record) (m : string)
            (sorted quarterly final : list string) (p : string),
        hd_error (rev (sorted_base_years data)) = Some m ->
        plan_columns (aggregate_starts_by_provider_year data (Some m)) m
        = Ok (sorted, quarterly, final) ->
        row_value m quarterly
          (Dict.get_or (aggregate_starts_by_provider_year data (Some m)) p []) m
        = lookup (aggregate_starts_by_provider_year data None) p m).
Proof.
  intros H.
  specialize (H mixed_quarter_scenario "2024-25"%string
                ["2024-25"; "2024-25 Q1"]%string ["2024-25 Q1"]%string
                ["2024-25"; "2024-25"; "2024-25 Q1"]%string "P"%string
                eq_refl eq_refl).
  vm_compute in H. discriminate.
Qed.

(** ** Totality of the planner on plain years *)

Lemma year_key_of_cases (m : string) (r : starts_record) :
  year_key_of (Some m) r = year r
  \/ (year r = m /\ 0 < quarter r
      /\ year_key_of (Some m) r = quarter_key m (quarter r)).
Proof.
  unfold year_key_of.
  destruct (truthy (Some m)); [|now left].
  destruct (String.eqb_spec (year r) m) as [Hy | Hy]; [|now left].
  destruct (Z.ltb_spec 0 (quarter r)) as [Hq | Hq]; [|now left].
  right. simpl. rewrite Hy. auto.
Qed.

Lemma final_year_keys_no_separator (m : string) (quarterly keys : list string) :
  Forall (fun k => Str.contains " Q" k = false) keys ->
  final_year_keys m quarterly keys = Ok keys.
Proof.
  induction 1 as [|k keys Hk _ IH]; simpl; [reflexivity|].
  now rewrite Hk, IH.
Qed.

Lemma plan_columns_ok (data : list starts_record) (m : string) :
  (forall r, In r data -> Str.contains " Q" (year r) = false) ->
  exists sorted quarterly final,
    plan_columns (aggregate_starts_by_provider_year data (Some m)) m
    = Ok (sorted, quarterly, final).
Proof.
  intros Hplain.
  set (aggregated := aggregate_starts_by_provider_year data (Some m)).
  assert (Hkeys : forall k, In k (all_year_keys aggregated) ->
                    (Str.contains " Q" k = false /\ sort_key k = Ok (k, 0))
                    \/ (Str.contains " Q" k = true /\ Str.startswith k m = true
                        /\ exists q, sort_key k = Ok (m, q))).
  { intros k Hk. apply all_year_keys_aggregate in Hk as (r & Hr & <-).
    destruct (year_key_of_cases m r) as [-> | (Hy & Hq & ->)].
    - left. split; [now apply Hplain | now apply sort_key_plain, Hplain].
    - right. split; [apply quarter_key_contains|].
      split; [apply quarter_key_startswith|].
      exists (quarter r). apply sort_key_quarter_key; [|assumption].
      rewrite <- Hy. now apply Hplain. }
  destruct (mapM_keyed_ok sort_key (all_year_keys aggregated)) as (keyed & Hkeyed).
  { apply Forall_forall. intros k Hk.
    destruct (Hkeys k Hk) as [[_ H] | (_ & _ & q & H)]; eauto. }
  unfold plan_columns, sorted_year_keys. rewrite Hkeyed. simpl.
  set (sorted := map snd (sort_keyed tuple_leb keyed)).
  assert (Hsorted : forall k, In k sorted -> In k (all_year_keys aggregated)).
  { intros k Hk. destruct (mapM_keyed _ _ _ Hkeyed) as [Hs _]. rewrite <- Hs.
    subst sorted. eapply Permutation_in; [|exact Hk].
    apply Permutation_map, sort_keyed_perm. }
  destruct (quarterly_keys_of m sorted) as [|first rest] eqn:Eq.
  - rewrite final_year_keys_no_separator; [simpl; eauto|].
    apply Forall_forall. intros k Hk.
    destruct (Hkeys k (Hsorted k Hk)) as [[H _] | (Hc & Hs & _)]; [assumption|].
    exfalso. assert (Hin : In k (quarterly_keys_of m sorted)).
    { apply quarterly_keys_of_in. auto. }
    rewrite Eq in Hin. contradiction.
  - destruct (quarterly_head _ _ _ _ Eq) as (_ & Hc & _).
    rewrite (final_year_keys_first _ _ _ _ Hc). simpl. eauto.
Qed.

Lemma sorted_base_years_nonempty (data : list starts_record) :
  data <> [] -> exists m, hd_error (rev (sorted_base_years data)) = Some m.
Proof.
  intros Hne. destruct (rev (sorted_base_years data)) as [|m t] eqn:E; [|now exists m].
  exfalso. apply (f_equal (@rev string)) in E. rewrite rev_involutive in E.
  simpl in E. unfold sorted_base_years in E. apply map_eq_nil in E.
  apply sort_keyed_nil in E. apply map_eq_nil in E.
  destruct data as [|r data]; [congruence|]. simpl in E. discriminate.
Qed.

Lemma prepare_starts_ok (data : list starts_record) (min_starts : Z) :
  (forall r, In r data -> Str.contains " Q" (year r) = false) ->
  exists t, prepare_starts_table_data data min_starts = Ok t.
Proof.
  intros Hplain. unfold prepare_starts_table_data.
  destruct data as [|r0 data0] eqn:Ed; [eauto|]. rewrite <- Ed in *.
  destruct (rev (sorted_base_years data)) as [|m t]; [eauto|].
  destruct (plan_columns_ok data m Hplain) as (sorted & quarterly & final & ->).
  simpl. destruct sorted; eauto.
Qed.

(** The parts of a table that has rows. *)
Lemma prepare_starts_inv (data : list starts_record) (min_starts : Z)
  (headers : list string) (rows : list (list cell)) (title : string) :
  prepare_starts_table_data data min_starts = Ok (headers, rows, title) ->
  data <> [] ->
  exists m sorted quarterly final,
    hd_error (rev (sorted_base_years data)) = Some m
    /\ plan_columns (aggregate_starts_by_provider_year data (Some m)) m
       = Ok (sorted, quarterly, final)
    /\ headers = "Provider"%string :: map header_of final
    /\ let aggregated := aggregate_starts_by_provider_year data (Some m) in
       let other_providers :=
         filter (fun pd => negb (is_major min_starts m pd)) aggregated in
       rows
       = bold_totals_row (totals_dict m quarterly aggregated final) final
         :: map (fun pd => provider_row m quarterly final (fst pd) (snd pd))
              (sort_by_recent m (filter (is_major min_starts m) aggregated))
         ++ match other_providers with
            | [] => []
            | _ :: _ =>
                [totals_row "All other providers"
                   (totals_dict m quarterly other_providers final) final]
            end.
Proof.
  intros H Hne. unfold prepare_starts_table_data in H.
  destruct data as [|r0 data0] eqn:Ed; [congruence|]. rewrite <- Ed in *.
  destruct (sorted_base_years_nonempty data) as (m & Hm); [now rewrite Ed|].
  destruct (rev (sorted_base_years data)) as [|m' t]; [discriminate|].
  injection Hm as ->.
  destruct (plan_columns _ m) as [[[sorted quarterly] final]|e] eqn:Ep;
    [|discriminate].
  simpl in H. exists m, sorted, quarterly, final.
  split; [reflexivity|]. split; [exact Ep|].
  destruct sorted as [|k sorted].
  - exfalso. apply plan_columns_inv in Ep as (Hs & _).
    apply sorted_year_keys_spec in Hs as [Hp _].
    apply Permutation_nil in Hp.
    assert (Hin : In (year_key_of (Some m) r0)
                    (all_year_keys (aggregate_starts_by_provider_year data (Some m)))).
    { apply all_year_keys_aggregate. exists r0. split; [|reflexivity].
      rewrite Ed. now left. }
    rewrite Hp in Hin. contradiction.
  - injection H as <- <- _. split; reflexivity.
Qed.

Lemma final_includes_sorted (aggregated : matrix) (m : string) sorted quarterly final :
  plan_columns aggregated m = Ok (sorted, quarterly, final) ->
  forall k, In k sorted -> In k final.
Proof.
  intros H k Hk. destruct (plan_columns_final _ _ _ _ _ H) as [Hplain Hfirst].
  destruct quarterly as [|first rest].
  - now rewrite (Hplain eq_refl).
  - destruct (Hfirst first rest eq_refl) as (earlier & later & -> & -> & _).
    apply in_app_or in Hk. apply in_or_app.
    destruct Hk as [Hk | Hk]; [now left | right; now right].
Qed.

Lemma search_year_complete : forall pre f run post,
  digit_run_at f pre run post -> exists g, search_year f = Some g.
Proof.
  induction pre as [|c pre IH]; intros f run post (Heq & Hlen & Hd).
  - simpl in Heq. subst f.
    pose proof (take_digits_complete run post Hd) as Ht. rewrite Hlen in Ht.
    destruct run as [|c r]; [discriminate|].
    simpl append in *. rewrite search_year_cons, Ht. eauto.
  - subst f. simpl append. rewrite search_year_cons.
    destruct (take_digits 6 _); [eauto|].
    apply (IH _ run post). repeat split; assumption.
Qed.

(** C8, amended. The quarter is not checked against an upper bound.  On
    printable records whose years are plain (without the separator of
    quarterly keys) the table is always produced, and a record of the
    most recent period with any positive quarter [q], above 4 as well,
    has its own column, whose key sorts under the pair (year, q).  On an
    ASCII file name with a run of six digits the parser likewise returns
    the digit of the leftmost token -q<d> or -Q<d>, for every digit. *)
Theorem quarter_ordinal_unchecked :
  (forall (data : list starts_record) (min_starts : Z),
      printable data ->
      (forall r, In r data -> Str.contains " Q" (year r) = false) ->
      exists headers rows title,
        prepare_starts_table_data data min_starts = Ok (headers, rows, title)
        /\ forall m r,
            hd_error (rev (sorted_base_years data)) = Some m ->
            m <> EmptyString -> In r data -> year r = m -> 0 < quarter r ->
            sort_key (quarter_key m (quarter r)) = Ok (m, quarter r)
            /\ In (header_of (quarter_key m (quarter r))) headers)
  /\ (forall filename qpre d qpost,
         ascii_text filename = true ->
         (exists pre run post, digit_run_at filename pre run post) ->
         quarter_token_at filename qpre d qpost ->
         (forall qpre' d' qpost',
             quarter_token_at filename qpre' d' qpost' ->
             (String.length qpre <= String.length qpre')%nat) ->
         exists year_start year_end,
           extract_year_quarter_from_filename filename
           = (year_start, year_end, digit_value d)).
Proof.
  split.
  - intros data min_starts _ Hplain.
    destruct (prepare_starts_ok data min_starts Hplain) as ([[headers rows] title] & Hok).
    exists headers, rows, title. split; [assumption|].
    intros m r Hm Hne Hr Hy Hq. split.
    + apply sort_key_quarter_key; [|assumption]. rewrite <- Hy. now apply Hplain.
    + destruct (prepare_starts_inv _ _ _ _ _ Hok)
        as (m' & sorted & quarterly & final & Hm' & Hplan & -> & _).
      { intros ->. contradiction. }
      rewrite Hm in Hm'. injection Hm' as <-.
      right. apply in_map. apply (final_includes_sorted _ _ _ _ _ Hplan).
      pose proof Hplan as Hinv. apply plan_columns_inv in Hinv as (Hs & _).
      apply sorted_year_keys_spec in Hs as [Hperm _].
      apply (Permutation_in _ (Permutation_sym Hperm)).
      apply all_year_keys_aggregate. exists r. split; [assumption|].
      now apply year_key_of_recent.
  - intros filename qpre d qpost _ (pre & run & post & Hrun) Htok Hleft.
    unfold extract_year_quarter_from_filename.
    destruct (search_year_complete _ _ _ _ Hrun) as ([g1 g2] & ->).
    rewrite (search_quarter_leftmost _ _ _ _ Htok Hleft). eauto.
Qed.

Lemma quarter_ordinal_unchecked_witness :
  exists headers rows title,
    prepare_starts_table_data fifth_quarter_scenario STARTS_MIN_THRESHOLD
    = Ok (headers, rows, title)
    /\ In (header_of (quarter_key "2024-25" 5)) headers.
Proof.
  destruct quarter_ordinal_unchecked as [H _].
  destruct (H fifth_quarter_scenario STARTS_MIN_THRESHOLD)
    as (headers & rows & title & Hok & Hcol).
  - unfold printable. split; [|split].
    + intros r Hr. simpl in Hr.
      repeat (destruct Hr as [<- | Hr]; [reflexivity|]). contradiction.
    + intros r Hr. simpl in Hr.
      repeat (destruct Hr as [<- | Hr]; [vm_compute; reflexivity|]). contradiction.
    + vm_compute. reflexivity.
  - intros r Hr. simpl in Hr.
    repeat (destruct Hr as [<- | Hr]; [reflexivity|]). contradiction.
  - exists headers, rows, title. split; [assumption|].
    apply (Hcol "2024-25"%string (scenario_record "P" "2024-25" 5 5)).
    + reflexivity.
    + discriminate.
    + now left.
    + reflexivity.
    + reflexivity.
Defined.

(** Counterexample to C8 as stated: a record with quarter 5 does not make
    the request fail; the table is produced with a column for it. *)
Lemma quarter_ordinal_counterexample :
  ~ (forall (data : list starts_record) (min_starts : Z),
        (exists r, In r data /\ 4 < quarter r) ->
        exists e, prepare_starts_table_data data min_starts = Raise e).
Proof.
  intros H.
  destruct (H fifth_quarter_scenario STARTS_MIN_THRESHOLD) as (e & He).
  - exists (scenario_record "P" "2024-25" 5 5). split; [now left | reflexivity].
  - vm_compute in He. discriminate.
Qed.

(** C5. On records of the most recent period with and without quarter
    the final key list holds that period twice: once as the observed
    plain key and once as the inserted total. *)
Theorem column_plan_duplicate :
  exists sorted quarterly final,
    plan_columns
      (aggregate_starts_by_provider_year mixed_quarter_scenario
         (Some "2024-25"%string)) "2024-25"
    = Ok (sorted, quarterly, final)
    /\ final = ["2024-25"; "2024-25"; "2024-25 Q1"]%string
    /\ ~ NoDup final
    /\ exists rows title,
        prepare_starts_table_data mixed_quarter_scenario STARTS_MIN_THRESHOLD
        = Ok (["Provider"; "2024-25"; "2024-25"; "2024-25 Q1"]%string, rows, title).
Proof.
  eexists. eexists. eexists. split; [vm_compute; reflexivity|].
  split; [reflexivity|]. split.
  - intros Hnd. inversion Hnd as [|? ? Hnot _]; subst. apply Hnot. now left.
  - eexists. eexists. vm_compute. reflexivity.
Qed.

(** The final key list is free of duplicates when the most recent period
    is not itself among the observed keys. *)
Lemma column_plan_nodup (aggregated : matrix) (m : string) sorted quarterly final :
  plan_columns aggregated m = Ok (sorted, quarterly, final) ->
  ~ In m sorted -> NoDup final.
Proof.
  intros H Hm. pose proof (plan_columns_nodup _ _ _ _ _ H) as Hnd.
  destruct (plan_columns_final _ _ _ _ _ H) as [Hplain Hfirst].
  destruct quarterly as [|first rest].
  - now rewrite (Hplain eq_refl).
  - destruct (Hfirst first rest eq_refl) as (earlier & later & -> & -> & _).
    apply NoDup_Add with (a := m) (l := earlier ++ first :: later);
      [apply Add_app | split; assumption].
Qed.

(** ** Rows and totals *)

Lemma fold_set_get {V : Type} (f : string -> V) (k : string) :
  forall (l : list string) (d : Dict.t V),
    In k l ->
    Dict.get (fold_left (fun acc x => Dict.set acc x (f x)) l d) k = Some (f k).
Proof.
  assert (Hkeep : forall (l : list string) (d : Dict.t V),
             Dict.get d k = Some (f k) ->
             Dict.get (fold_left (fun acc x => Dict.set acc x (f x)) l d) k
             = Some (f k)).
  { induction l as [|x l IH]; intros d Hd; simpl; [assumption|].
    apply IH. destruct (string_dec x k) as [-> | Hne].
    - apply get_set_same.
    - now rewrite get_set_other. }
  induction l as [|x l IH]; intros d Hin; simpl; [contradiction|].
  destruct (string_dec x k) as [-> | Hne].
  - apply Hkeep, get_set_same.
  - apply IH. destruct Hin; [congruence | assumption].
Qed.

Lemma totals_dict_get (m : string) (quarterly : list string)
  (providers : list (string * Dict.t Z)) (year_keys : list string) (k : string) :
  In k year_keys ->
  Dict.get_or (totals_dict m quarterly providers year_keys) k 0
  = total_for m quarterly providers k.
Proof.
  intros Hin. unfold Dict.get_or, totals_dict.
  now rewrite (fold_set_get (total_for m quarterly providers) k year_keys [] Hin).
Qed.

Lemma sum_Z_cons (x : Z) (l : list Z) : sum_Z (x :: l) = x + sum_Z l.
Proof. reflexivity. Qed.

Lemma quarterly_total_cons (quarterly : list string) (pd : string * Dict.t Z)
  (providers : list (string * Dict.t Z)) :
  quarterly_total quarterly (pd :: providers)
  = sum_Z (map (fun q_key => Dict.get_or (snd pd) q_key 0) quarterly)
    + quarterly_total quarterly providers.
Proof.
  unfold quarterly_total.
  induction quarterly as [|q quarterly IH]; [reflexivity|].
  cbn [flat_map map app] in *. rewrite !sum_Z_cons, !sum_Z_app, IH. lia.
Qed.

Lemma quarterly_total_nil (quarterly : list string) : quarterly_total quarterly [] = 0.
Proof.
  unfold quarterly_total. induction quarterly as [|q quarterly IH]; simpl; auto.
Qed.

(** A total is the sum of the values of the providers it covers. *)
Lemma total_for_sum (m : string) (quarterly : list string)
  (providers : list (string * Dict.t Z)) (k : string) :
  total_for m quarterly providers k
  = sum_Z (map (fun pd => row_value m quarterly (snd pd) k) providers).
Proof.
  unfold total_for, row_value. destruct (String.eqb k m).
  - induction providers as [|pd providers IH]; simpl.
    + apply quarterly_total_nil.
    + now rewrite quarterly_total_cons, IH.
  - reflexivity.
Qed.

Lemma total_for_app (m : string) (quarterly : list string)
  (a b : list (string * Dict.t Z)) (k : string) :
  total_for m quarterly (a ++ b) k
  = total_for m quarterly a k + total_for m quarterly b k.
Proof. now rewrite !total_for_sum, map_app, sum_Z_app. Qed.

Lemma total_for_perm (m : string) (quarterly : list string)
  (a b : list (string * Dict.t Z)) (k : string) :
  Permutation a b -> total_for m quarterly a k = total_for m quarterly b k.
Proof.
  intros H. rewrite !total_for_sum. apply sum_Z_perm. now apply Permutation_map.
Qed.

Lemma bold_totals_row_eq (m : string) (quarterly : list string)
  (providers : list (string * Dict.t Z)) (year_keys : list string) :
  bold_totals_row (totals_dict m quarterly providers year_keys) year_keys
  = bold_row "**Total**" (map (total_for m quarterly providers) year_keys).
Proof.
  unfold bold_totals_row, bold_row. f_equal. rewrite map_map.
  apply map_ext_in. intros k Hk. now rewrite totals_dict_get.
Qed.

Lemma totals_row_eq (label : string) (m : string) (quarterly : list string)
  (providers : list (string * Dict.t Z)) (year_keys : list string) :
  totals_row label (totals_dict m quarterly providers year_keys) year_keys
  = int_row (label, map (total_for m quarterly providers) year_keys).
Proof.
  unfold totals_row, int_row. simpl. f_equal. rewrite map_map.
  apply map_ext_in. intros k Hk. now rewrite totals_dict_get.
Qed.

Lemma provider_row_eq (m : string) (quarterly year_keys : list string)
  (label : string) (year_data : Dict.t Z) :
  provider_row m quarterly year_keys label year_data
  = int_row (label, map (row_value m quarterly year_data) year_keys).
Proof.
  unfold provider_row, row_values, int_row. simpl. now rewrite map_map.
Qed.

Lemma column_sum_rows {A : Type} (label : A -> string) (value : A -> string -> Z)
  (year_keys : list string) (i : nat) (l : list A) :
  (i < length year_keys)%nat ->
  column_sum i (map (fun a => (label a, map (value a) year_keys)) l)
  = sum_Z (map (fun a => value a (nth i year_keys EmptyString)) l).
Proof.
  intros Hi. unfold column_sum. rewrite map_map. apply sum_Z_map_ext.
  intros a _. simpl.
  rewrite (nth_indep _ 0 (value a EmptyString)) by now rewrite length_map.
  apply map_nth.
Qed.

Lemma sort_by_recent_perm (m : string) (providers : list (string * Dict.t Z)) :
  Permutation (sort_by_recent m providers) providers.
Proof.
  unfold sort_by_recent.
  eapply perm_trans; [apply Permutation_map, sort_keyed_perm|].
  rewrite map_map. simpl. rewrite map_id. apply Permutation_refl.
Qed.

Lemma filter_partition_perm {A : Type} (f : A -> bool) (l : list A) :
  Permutation (filter f l ++ filter (fun a => negb (f a)) l) l.
Proof.
  induction l as [|a l IH]; simpl; [constructor|].
  destruct (f a); simpl.
  - now constructor.
  - apply Permutation_sym, Permutation_cons_app, Permutation_sym, IH.
Qed.

(** ** Adjustments *)

Lemma mem_set_same {V : Type} (d : Dict.t V) (k : string) (v : V) :
  Dict.mem (Dict.set d k v) k = true.
Proof. unfold Dict.mem. now rewrite get_set_same. Qed.

Lemma aggregate_step_mem (m : option string) (aggregated : matrix) (r : starts_record) :
  Dict.mem (aggregate_step m aggregated r) (provider_clean r) = true.
Proof. rewrite aggregate_step_eq. apply mem_set_same. Qed.

(** The loop of adjustments is the loop of the aggregation run on the
    adjustments as records. *)
Lemma apply_adjustments_fold (name : string) (adjustments : Dict.t Z)
  (aggregated : matrix) :
  apply_adjustments name adjustments aggregated
  = fold_left (aggregate_step None) (map (adjustment_record name) adjustments)
      (ensure_row aggregated name).
Proof.
  unfold apply_adjustments. fold (ensure_row aggregated name).
  assert (Hmem : Dict.mem (ensure_row aggregated name) name = true).
  { unfold ensure_row. destruct (Dict.mem aggregated name) eqn:E;
      [assumption | apply mem_set_same]. }
  revert Hmem. generalize (ensure_row aggregated name) as acc.
  induction adjustments as [|[k v] adjustments IH]; intros acc Hmem; [reflexivity|].
  cbn [fold_left map].
  rewrite <- (IH (aggregate_step None acc (adjustment_record name (k, v))))
    by apply (aggregate_step_mem None acc (adjustment_record name (k, v))).
  f_equal. unfold aggregate_step.
  cbn [provider_clean adjustment_record year_key_of year starts fst snd].
  now rewrite Hmem.
Qed.

Lemma lookup_ensure_row (aggregated : matrix) (name p k : string) :
  lookup (ensure_row aggregated name) p k = lookup aggregated p k.
Proof.
  unfold ensure_row, Dict.mem.
  destruct (Dict.get aggregated name) eqn:E; [reflexivity|].
  unfold lookup. destruct (string_dec name p) as [<- | Hne].
  - rewrite get_or_set_same. unfold Dict.get_or. now rewrite E.
  - now rewrite get_or_set_other.
Qed.

Lemma ensure_row_well_formed (aggregated : matrix) (name : string) :
  well_formed aggregated -> well_formed (ensure_row aggregated name).
Proof.
  intros [Hnd Hin]. unfold ensure_row.
  destruct (Dict.mem aggregated name); [now split|]. split.
  - now apply keys_set_nodup.
  - intros p d H. apply set_in in H as [[= -> ->] | H]; [constructor | eauto].
Qed.

Lemma apply_adjustments_well_formed (name : string) (adjustments : Dict.t Z)
  (aggregated : matrix) :
  well_formed aggregated -> well_formed (apply_adjustments name adjustments aggregated).
Proof.
  intros H. rewrite apply_adjustments_fold.
  now apply fold_well_formed, ensure_row_well_formed.
Qed.

(** The amount added to the cell of key [k]. *)
Lemma lookup_apply_adjustments (name : string) (adjustments : Dict.t Z)
  (aggregated : matrix) (p k : string) :
  lookup (apply_adjustments name adjustments aggregated) p k
  = lookup aggregated p k
    + if String.eqb name p
      then sum_Z (map (fun adj => if String.eqb (fst adj) k then snd adj else 0)
                    adjustments)
      else 0.
Proof.
  rewrite apply_adjustments_fold, lookup_fold, lookup_ensure_row. f_equal.
  rewrite map_map. unfold contribution.
  cbn [provider_clean adjustment_record year_key_of year starts].
  destruct (String.eqb name p); cbn [andb]; [reflexivity|].
  now apply sum_Z_map_zero.
Qed.

Lemma keys_ensure_row (aggregated : matrix) (name p k : string) :
  In k (Dict.keys (Dict.get_or (ensure_row aggregated name) p []))
  <-> In k (Dict.keys (Dict.get_or aggregated p [])).
Proof.
  unfold ensure_row, Dict.mem.
  destruct (Dict.get aggregated name) eqn:E; [reflexivity|].
  destruct (string_dec name p) as [<- | Hne].
  - rewrite get_or_set_same. unfold Dict.get_or. rewrite E. reflexivity.
  - now rewrite get_or_set_other.
Qed.

Lemma keys_apply_adjustments (name : string) (adjustments : Dict.t Z)
  (aggregated : matrix) (p k : string) :
  In k (Dict.keys (Dict.get_or (apply_adjustments name adjustments aggregated) p []))
  <-> In k (Dict.keys (Dict.get_or aggregated p []))
      \/ (name = p /\ In k (Dict.keys adjustments)).
Proof.
  rewrite apply_adjustments_fold, fold_keys, keys_ensure_row.
  split; (intros [H | H]; [now left | right]).
  - destruct H as (r & Hr & Hp & Hk). apply in_map_iff in Hr as ([k' v] & <- & Hin).
    simpl in *. split; [assumption|]. subst k'. apply in_map_iff. now exists (k, v).
  - destruct H as [<- Hk]. apply in_map_iff in Hk as ([k' v] & Hk' & Hin).
    simpl in Hk'. subst k'.
    exists (adjustment_record name (k, v)). repeat split.
    apply in_map_iff. now exists (k, v).
Qed.

(** The sum of the amounts recorded for a key is the amount of the table
    of adjustments. *)
Lemma adjustments_amount (adjustments : Dict.t Z) (k : string) :
  NoDup (Dict.keys adjustments) ->
  sum_Z (map (fun adj => if String.eqb (fst adj) k then snd adj else 0) adjustments)
  = Dict.get_or adjustments k 0.
Proof.
  unfold Dict.get_or.
  induction adjustments as [|[k' v] adjustments IH]; intros Hnd; [reflexivity|].
  inversion Hnd as [|? ? Hnot Hnd']; subst. cbn [map fst snd Dict.get].
  rewrite sum_Z_cons, (IH Hnd').
  destruct (String.eqb_spec k' k) as [-> | Hne]; [|lia].
  apply get_none_iff in Hnot. rewrite Hnot. lia.
Qed.

(** ** Excluded providers *)

Lemma separate_rogue_fold (names : list string) :
  forall (rogue : list (string * Dict.t Z)) (aggregated : matrix) rogue' rest,
    NoDup (Dict.keys aggregated) ->
    fold_left
      (fun acc rogue_name =>
         let '(rogue_providers, aggregated) := acc in
         match Dict.get aggregated rogue_name with
         | Some year_data =>
             (rogue_providers ++ [(rogue_name, year_data)],
              Dict.remove aggregated rogue_name)
         | None => (rogue_providers, aggregated)
         end)
      names (rogue, aggregated) = (rogue', rest) ->
    NoDup (Dict.keys rest)
    /\ (forall pd, In pd rest -> In pd aggregated /\ ~ In (fst pd) names)
    /\ (forall pd, In pd rogue' ->
                   In pd rogue \/ (In pd aggregated /\ In (fst pd) names)).
Proof.
  induction names as [|name names IH]; intros rogue aggregated rogue' rest Hnd H.
  - simpl in H. injection H as <- <-. repeat split; auto.
  - cbn [fold_left] in H.
    destruct (Dict.get aggregated name) as [year_data|] eqn:E.
    + apply IH in H as (Hnd' & Hrest & Hrogue); [|now apply remove_keys_nodup].
      split; [assumption|]. split.
      * intros pd Hpd. destruct (Hrest pd Hpd) as [Hin Hnot].
        split; [now apply remove_in in Hin|].
        intros [Heq | Hn]; [|contradiction].
        apply (remove_not_key aggregated name Hnd).
        apply in_map_iff. now exists pd.
      * intros pd Hpd. destruct (Hrogue pd Hpd) as [Hin | [Hin Hn]].
        -- apply in_app_or in Hin as [Hin | [<- | []]]; [now left | right].
           split; [now apply get_some_in | now left].
        -- right. split; [now apply remove_in in Hin | now right].
    + apply IH in H as (Hnd' & Hrest & Hrogue); [|assumption].
      split; [assumption|]. split.
      * intros pd Hpd. destruct (Hrest pd Hpd) as [Hin Hnot].
        split; [assumption|]. intros [Heq | Hn]; [|contradiction].
        apply get_none_iff in E. apply E. apply in_map_iff. now exists pd.
      * intros pd Hpd. destruct (Hrogue pd Hpd) as [Hin | [Hin Hn]]; auto.
        right. split; [assumption | now right].
Qed.

Lemma separate_rogue_spec (names : list string) (aggregated : matrix) rogue rest :
  NoDup (Dict.keys aggregated) ->
  separate_rogue names aggregated = (rogue, rest) ->
  NoDup (Dict.keys rest)
  /\ (forall pd, In pd rest -> In pd aggregated /\ ~ In (fst pd) names)
  /\ (forall pd, In pd rogue -> In pd aggregated /\ In (fst pd) names).
Proof.
  intros Hnd H. apply separate_rogue_fold in H as (H1 & H2 & H3); [|assumption].
  repeat split; try assumption; try (now apply H2);
    destruct (H3 pd H) as [[] | [Ha Hb]]; assumption.
Qed.

(** ** The parts of the London table *)

Lemma fc_key_observed (aggregated : matrix) (k : string) :
  In k (Dict.keys fc_adjustments) ->
  In k (all_year_keys (apply_founders_coders_adjustments aggregated)).
Proof.
  intros Hk. apply (all_year_keys_row _ fc_name).
  apply keys_apply_adjustments. right. now split.
Qed.

Lemma prepare_london_inv (data : list starts_record)
  (headers : list string) (rows : list (list cell)) (title : string) :
  prepare_london_sme_table_data data = Ok (headers, rows, title) ->
  data <> [] ->
  exists m sorted quarterly final rogue rest,
    hd_error (rev (sorted_base_years data)) = Some m
    /\ plan_columns
         (apply_founders_coders_adjustments
            (aggregate_starts_by_provider_year data (Some m))) m
       = Ok (sorted, quarterly, final)
    /\ headers = "Provider"%string :: map header_of final
    /\ let aggregated :=
         apply_founders_coders_adjustments
           (aggregate_starts_by_provider_year data (Some m)) in
       let fc_data := Dict.get_or aggregated fc_name [] in
       separate_rogue rogue_provider_names (Dict.remove aggregated fc_name)
       = (rogue, rest)
       /\ let major := sort_by_recent m (filter is_major_sme rest) in
          let small := filter (fun pd => negb (is_major_sme pd)) rest in
          rows
          = match fc_data with
            | [] => []
            | _ :: _ => [provider_row m quarterly final fc_name fc_data]
            end
            ++ map (fun pd => provider_row m quarterly final (fst pd) (snd pd)) major
            ++ match small with
               | [] => []
               | _ :: _ =>
                   [totals_row "All other providers"
                      (totals_dict m quarterly small final) final]
               end
            ++ [bold_totals_row
                  (totals_dict m quarterly
                     ((fc_name, fc_data) :: major ++ small) final) final]
            ++ map (fun pd =>
                      provider_row m quarterly final
                        (Str.cat (fst pd) " (closed)") (snd pd))
                 rogue.
Proof.
  intros H Hne. unfold prepare_london_sme_table_data in H.
  destruct data as [|r0 data0] eqn:Ed; [congruence|]. rewrite <- Ed in *.
  destruct (sorted_base_years_nonempty data) as (m & Hm); [now rewrite Ed|].
  destruct (rev (sorted_base_years data)) as [|m' t]; [discriminate|].
  injection Hm as ->.
  destruct (plan_columns _ m) as [[[sorted quarterly] final]|e] eqn:Ep;
    [|discriminate].
  cbn [bind] in H.
  destruct (separate_rogue _ _) as [rogue rest] eqn:Er.
  exists m, sorted, quarterly, final, rogue, rest.
  split; [reflexivity|]. split; [exact Ep|].
  destruct sorted as [|k sorted].
  - exfalso. apply plan_columns_inv in Ep as (Hs & _).
    apply sorted_year_keys_spec in Hs as [Hp _].
    apply Permutation_nil in Hp.
    pose proof (fc_key_observed (aggregate_starts_by_provider_year data (Some m))
                  "202324") as Hin.
    rewrite Hp in Hin. apply Hin. simpl. tauto.
  - injection H as <- <- _. split; [reflexivity|]. split; [exact Er | reflexivity].
Qed.

(** ** The total row *)

Lemma column_sum_app (i : nat) (a b : list (string * list Z)) :
  column_sum i (a ++ b) = column_sum i a + column_sum i b.
Proof. unfold column_sum. now rewrite map_app, sum_Z_app. Qed.

Lemma row_value_nil (m : string) (quarterly : list string) (k : string) :
  row_value m quarterly [] k = 0.
Proof.
  unfold row_value. destruct (String.eqb k m); [|reflexivity].
  now apply sum_Z_map_zero.
Qed.

Lemma nth_map_key {B : Type} (f : string -> B) (year_keys : list string) (i : nat)
  (default : B) :
  (i < length year_keys)%nat ->
  nth i (map f year_keys) default = f (nth i year_keys EmptyString).
Proof.
  intros Hi. rewrite (nth_indep _ default (f EmptyString)) by now rewrite length_map.
  apply map_nth.
Qed.

(** The column sum of the pooled row, present or not. *)
Lemma column_sum_pooled (m : string) (quarterly year_keys : list string)
  (label : string) (small : list (string * Dict.t Z)) (i : nat) :
  (i < length year_keys)%nat ->
  column_sum i
    (match small with
     | [] => []
     | _ :: _ => [(label, map (total_for m quarterly small) year_keys)]
     end)
  = total_for m quarterly small (nth i year_keys EmptyString).
Proof.
  intros Hi. destruct small as [|pd small].
  - now rewrite total_for_sum.
  - unfold column_sum. cbn [map snd sum_Z fold_right].
    rewrite nth_map_key by assumption. lia.
Qed.

Lemma column_sum_providers (m : string) (quarterly year_keys : list string)
  (label : string * Dict.t Z -> string) (providers : list (string * Dict.t Z))
  (i : nat) :
  (i < length year_keys)%nat ->
  column_sum i
    (map (fun pd => (label pd, map (row_value m quarterly (snd pd)) year_keys))
       providers)
  = total_for m quarterly providers (nth i year_keys EmptyString).
Proof.
  intros Hi. rewrite total_for_sum.
  apply (column_sum_rows label (fun pd k => row_value m quarterly (snd pd) k)).
  exact Hi.
Qed.

Lemma starts_total_invariant (data : list starts_record) (min_starts : Z)
  (headers : list string) (rows : list (list cell)) (title : string) :
  prepare_starts_table_data data min_starts = Ok (headers, rows, title) ->
  data <> [] ->
  exists totals shown pooled,
    rows = bold_row "**Total**" totals :: map int_row shown ++ map int_row pooled
    /\ (length pooled <= 1)%nat
    /\ length headers = S (length totals)
    /\ Forall (fun r => length (snd r) = length totals) (shown ++ pooled)
    /\ forall i, (i < length totals)%nat ->
                 nth i totals 0 = column_sum i shown + column_sum i pooled.
Proof.
  intros H Hne.
  destruct (prepare_starts_inv _ _ _ _ _ H Hne)
    as (m & sorted & quarterly & final & _ & _ & -> & Hrows).
  cbv zeta in Hrows.
  set (aggregated := aggregate_starts_by_provider_year data (Some m)) in *.
  set (major := sort_by_recent m (filter (is_major min_starts m) aggregated)) in *.
  set (other := filter (fun pd => negb (is_major min_starts m pd)) aggregated) in *.
  exists (map (total_for m quarterly aggregated) final),
    (map (fun pd => (fst pd, map (row_value m quarterly (snd pd)) final)) major),
    (match other with
     | [] => []
     | _ :: _ => [("All other providers"%string, map (total_for m quarterly other) final)]
     end).
  split; [|split; [|split; [|split]]].
  - rewrite Hrows, bold_totals_row_eq. f_equal. f_equal.
    + rewrite map_map. apply map_ext. intros pd. apply provider_row_eq.
    + destruct other; [reflexivity|]. cbn [map]. now rewrite totals_row_eq.
  - destruct other; simpl; lia.
  - simpl. now rewrite !length_map.
  - apply Forall_app. split.
    + apply Forall_forall. intros r Hr. apply in_map_iff in Hr as (pd & <- & _).
      simpl. now rewrite !length_map.
    + destruct other; constructor; [|constructor]. simpl. now rewrite !length_map.
  - intros i Hi. rewrite length_map in Hi.
    rewrite nth_map_key by assumption.
    rewrite (column_sum_providers m quarterly final fst major i Hi).
    rewrite (column_sum_pooled m quarterly final _ other i Hi).
    rewrite <- total_for_app. apply total_for_perm.
    apply Permutation_sym.
    eapply perm_trans; [|apply (filter_partition_perm (is_major min_starts m))].
    apply Permutation_app_tail. apply sort_by_recent_perm.
Qed.

Lemma london_matrix_nodup (data : list starts_record) (m : option string) :
  NoDup
    (Dict.keys
       (Dict.remove
          (apply_founders_coders_adjustments (aggregate_starts_by_provider_year data m))
          fc_name)).
Proof.
  apply remove_keys_nodup.
  apply (apply_adjustments_well_formed fc_name fc_adjustments).
  apply aggregate_well_formed.
Qed.

Lemma sum_Z_filter {A : Type} (g : A -> bool) (value : A -> Z) (l : list A) :
  sum_Z (map value (filter g l))
  = sum_Z (map (fun a => if g a then value a else 0) l).
Proof.
  induction l as [|a l IH]; [reflexivity|].
  cbn [filter map]. destruct (g a); cbn [map]; rewrite !sum_Z_cons, IH; lia.
Qed.

(** ** The total of the most recent period *)

Lemma dict_sum_filter (f : string -> bool) (d : Dict.t Z) :
  NoDup (Dict.keys d) ->
  sum_Z (map snd (filter (fun kv => f (fst kv)) d))
  = sum_Z (map (fun k => if f k then Dict.get_or d k 0 else 0) (Dict.keys d)).
Proof.
  unfold Dict.keys.
  induction d as [|[k v] d IH]; intros Hnd; [reflexivity|].
  inversion Hnd as [|? ? Hnot Hnd']; subst.
  cbn [filter fst map]. rewrite sum_Z_cons.
  assert (Htail : sum_Z (map (fun k' => if f k' then Dict.get_or ((k, v) :: d) k' 0 else 0)
                           (map fst d))
                  = sum_Z (map (fun k' => if f k' then Dict.get_or d k' 0 else 0)
                             (map fst d))).
  { apply sum_Z_map_ext. intros k' Hk'. destruct (f k'); [|reflexivity].
    unfold Dict.get_or. cbn [Dict.get].
    destruct (String.eqb_spec k k') as [-> | Hne]; [contradiction | reflexivity]. }
  rewrite Htail, <- (IH Hnd').
  unfold Dict.get_or at 1. cbn [Dict.get]. rewrite String.eqb_refl.
  destruct (f k); cbn [map snd]; [now rewrite sum_Z_cons | lia].
Qed.

Lemma startswith_refl (m : string) : Str.startswith m m = true.
Proof.
  unfold Str.startswith. rewrite <- (append_nil_r m) at 2. apply prefix_append.
Qed.

Lemma year_key_startswith (data : list starts_record) (m : string) (r : starts_record) :
  hd_error (rev (sorted_base_years data)) = Some m -> In r data ->
  Str.startswith (year_key_of (Some m) r) m = String.eqb (year r) m.
Proof.
  intros Hm Hr. destruct (String.eqb_spec (year r) m) as [Hy | Hy].
  - destruct (year_key_of_cases m r) as [-> | (_ & _ & ->)].
    + rewrite Hy. apply startswith_refl.
    + apply quarter_key_startswith.
  - rewrite (year_key_of_other m r Hy). now apply (other_year_not_recent data).
Qed.

(** The sum compared with the threshold is the total of the provider for
    the most recent period. *)
Lemma recent_starts_total (data : list starts_record) (m p : string)
  (year_data : Dict.t Z) :
  hd_error (rev (sorted_base_years data)) = Some m ->
  In (p, year_data) (aggregate_starts_by_provider_year data (Some m)) ->
  recent_starts m year_data
  = lookup (aggregate_starts_by_provider_year data None) p m.
Proof.
  intros Hm Hin.
  destruct (aggregate_well_formed data (Some m)) as [Hnd Hrows].
  pose proof (Hrows _ _ Hin) as Hndk.
  pose proof (get_or_in _ _ _ Hnd Hin []) as Hrow.
  unfold recent_starts.
  rewrite (dict_sum_filter (fun k => Str.startswith k m) year_data Hndk).
  rewrite lookup_aggregate.
  rewrite (sum_Z_map_ext _
             (fun k => sum_Z (map (fun r => if Str.startswith k m
                                            then contribution (Some m) p k r else 0)
                                data))).
  2:{ intros k _. destruct (Str.startswith k m).
      - rewrite <- Hrow. apply (lookup_aggregate data (Some m) p k).
      - symmetry. now apply sum_Z_map_zero. }
  rewrite (sum_Z_swap
             (fun k r => if Str.startswith k m then contribution (Some m) p k r else 0)).
  apply sum_Z_map_ext. intros r Hr. unfold contribution.
  rewrite year_key_of_none.
  destruct (String.eqb_spec (provider_clean r) p) as [Hp | Hp]; cbn [andb].
  2:{ apply sum_Z_map_zero. intros k _. now destruct (Str.startswith k m). }
  rewrite (sum_Z_map_ext _
             (fun k => if String.eqb (year_key_of (Some m) r) k
                       then (if String.eqb (year r) m then starts r else 0)
                       else 0)).
  2:{ intros k _. destruct (String.eqb_spec (year_key_of (Some m) r) k) as [<- | Hk].
      - now rewrite (year_key_startswith data m r Hm Hr).
      - now destruct (Str.startswith k m). }
  rewrite (sum_Z_indicator _ _ _ Hndk).
  destruct (in_dec string_dec _ (Dict.keys year_data)) as [_ | Hnot]; [reflexivity|].
  exfalso. apply Hnot. rewrite <- Hrow. apply aggregate_keys. now exists r.
Qed.

Lemma sort_by_recent_sorted (m : string) (providers : list (string * Dict.t Z)) :
  StronglySorted
    (fun a b => recent_starts m (snd b) <= recent_starts m (snd a))
    (sort_by_recent m providers).
Proof.
  unfold sort_by_recent.
  set (keyed := map (fun x => (recent_starts m (snd x), x)) providers).
  assert (Htotal : forall a b, desc a b = true \/ desc b a = true).
  { intros a b. unfold desc. rewrite !Z.leb_le. lia. }
  assert (Htrans : forall a b c, desc a b = true -> desc b c = true -> desc a c = true).
  { intros a b c. unfold desc. rewrite !Z.leb_le. lia. }
  pose proof (sort_keyed_strongly_sorted desc Htotal Htrans keyed) as Hss.
  assert (Hkey : Forall (fun kx => fst kx = recent_starts m (snd (snd kx)))
                   (sort_keyed desc keyed)).
  { eapply Permutation_Forall; [apply Permutation_sym, sort_keyed_perm|].
    subst keyed. apply Forall_forall. intros kx Hkx.
    apply in_map_iff in Hkx as (x & <- & _). reflexivity. }
  induction Hss as [|kx l Hl IH Hx]; simpl; constructor.
  - apply IH. now inversion Hkey.
  - inversion Hkey as [|? ? Hk Hkl]; subst.
    rewrite Forall_forall in *. intros y Hy.
    apply in_map_iff in Hy as (ky & <- & Hky).
    specialize (Hx ky Hky). unfold ordered, desc in Hx. apply Z.leb_le in Hx.
    rewrite <- Hk, <- (Hkl ky Hky). exact Hx.
Qed.

Lemma is_major_true (min_starts : Z) (m : string) (pd : string * Dict.t Z) :
  is_major min_starts m pd = true
  <-> min_starts <= recent_starts m (snd pd) \/ In (fst pd) ALWAYS_SHOW_PROVIDERS.
Proof.
  unfold is_major. rewrite orb_true_iff, Z.leb_le.
  assert (Hmem : forall l, mem_str (fst pd) l = true <-> In (fst pd) l).
  { induction l as [|x l IH]; simpl; [split; [discriminate | tauto]|].
    rewrite orb_true_iff, IH, String.eqb_eq. tauto. }
  now rewrite Hmem.
Qed.

(** C4. Under threshold bucketing the providers of the matrix are split
    into the individually shown ones and the pooled ones: the two lists
    together are a rearrangement of the matrix, in which every provider
    name occurs once.  A provider is shown individually exactly when its
    total for the most recent period reaches the threshold or its name is
    in the always-show list; each individual provider has one row, in
    descending order of that total, and the pooled row sums the other
    providers only.  Totals 10, 2, 6, 1 with threshold 3 give the rows 10
    and 6, a pooled row of 3 and the total 19. *)
Theorem threshold_partition :
  (forall (data : list starts_record) (min_starts : Z)
          (headers : list string) (rows : list (list cell)) (title : string),
      prepare_starts_table_data data min_starts = Ok (headers, rows, title) ->
      data <> [] ->
      exists m quarterly year_keys major other,
        hd_error (rev (sorted_base_years data)) = Some m
        /\ Permutation (major ++ other)
             (aggregate_starts_by_provider_year data (Some m))
        /\ NoDup (map fst (major ++ other))
        /\ (forall pd, In pd major ->
                       min_starts <= recent_starts m (snd pd)
                       \/ In (fst pd) ALWAYS_SHOW_PROVIDERS)
        /\ (forall pd, In pd other ->
                       recent_starts m (snd pd) < min_starts
                       /\ ~ In (fst pd) ALWAYS_SHOW_PROVIDERS)
        /\ (forall pd, In pd (major ++ other) ->
                       recent_starts m (snd pd)
                       = lookup (aggregate_starts_by_provider_year data None)
                           (fst pd) m)
        /\ StronglySorted
             (fun a b => recent_starts m (snd b) <= recent_starts m (snd a)) major
        /\ exists total_row,
            rows
            = total_row
              :: map (fun pd =>
                        int_row (fst pd, map (row_value m quarterly (snd pd)) year_keys))
                   major
              ++ match other with
                 | [] => []
                 | _ :: _ =>
                     [int_row
                        ("All other providers"%string,
                         map (fun k =>
                                sum_Z (map (fun pd => row_value m quarterly (snd pd) k)
                                         other))
                           year_keys)]
                 end)
  /\ prepare_starts_table_data threshold_scenario 3
     = Ok (["Provider"; "2024-25"; "2024-25 Q1"; "2024-25 Q2"]%string,
           [[CStr "**Total**"; CStr "**19**"; CStr "**16**"; CStr "**3**"];
            [CStr "A"; CInt 10; CInt 10; CInt 0];
            [CStr "C"; CInt 6; CInt 6; CInt 0];
            [CStr "All other providers"; CInt 3; CInt 0; CInt 3]],
           "ST0116 Software developer starts"%string).
Proof.
  split; [|vm_compute; reflexivity].
  intros data min_starts headers rows title H Hne.
  destruct (prepare_starts_inv _ _ _ _ _ H Hne)
    as (m & sorted & quarterly & final & Hm & _ & _ & Hrows).
  cbv zeta in Hrows.
  set (aggregated := aggregate_starts_by_provider_year data (Some m)) in *.
  exists m, quarterly, final,
    (sort_by_recent m (filter (is_major min_starts m) aggregated)),
    (filter (fun pd => negb (is_major min_starts m pd)) aggregated).
  assert (Hperm : Permutation
                    (sort_by_recent m (filter (is_major min_starts m) aggregated)
                     ++ filter (fun pd => negb (is_major min_starts m pd)) aggregated)
                    aggregated).
  { eapply perm_trans; [|apply (filter_partition_perm (is_major min_starts m))].
    apply Permutation_app_tail, sort_by_recent_perm. }
  split; [exact Hm|]. split; [exact Hperm|]. split.
  { eapply Permutation_NoDup; [apply Permutation_sym, Permutation_map, Hperm|].
    apply (aggregate_well_formed data (Some m)). }
  split.
  { intros pd Hpd. apply (Permutation_in _ (sort_by_recent_perm m _)) in Hpd.
    apply filter_In in Hpd as [_ Hpd]. now apply is_major_true. }
  split.
  { intros pd Hpd. apply filter_In in Hpd as [_ Hpd].
    apply negb_true_iff in Hpd.
    destruct (Z.lt_ge_cases (recent_starts m (snd pd)) min_starts) as [Hlt | Hge].
    - split; [assumption|]. intros Hin.
      assert (Ht : is_major min_starts m pd = true) by (apply is_major_true; auto).
      congruence.
    - assert (Ht : is_major min_starts m pd = true) by (apply is_major_true; auto).
      congruence. }
  split.
  { intros [p year_data] Hpd. apply (Permutation_in _ Hperm) in Hpd.
    now apply (recent_starts_total data m p year_data Hm). }
  split; [apply sort_by_recent_sorted|].
  eexists. rewrite Hrows. f_equal. f_equal.
  - apply map_ext. intros pd. apply provider_row_eq.
  - destruct (filter (fun pd => negb (is_major min_starts m pd)) aggregated)
      as [|pd other] eqn:Eo; [reflexivity|].
    rewrite totals_row_eq. f_equal. f_equal. f_equal.
    apply map_ext. intros k. apply total_for_sum.
Qed.

(** ** The row of an adjusted provider *)

Lemma fold_keeps_provider (m : option string) (p : string) : forall data aggregated,
  In p (Dict.keys aggregated) ->
  In p (Dict.keys (fold_left (aggregate_step m) data aggregated)).
Proof.
  induction data as [|r data IH]; intros aggregated H; simpl; [assumption|].
  apply IH. rewrite aggregate_step_eq. apply keys_set_in. now right.
Qed.

Lemma apply_adjustments_mem (name : string) (adjustments : Dict.t Z)
  (aggregated : matrix) :
  Dict.mem (apply_adjustments name adjustments aggregated) name = true.
Proof.
  rewrite apply_adjustments_fold. apply mem_true_iff, fold_keeps_provider.
  apply mem_true_iff. unfold ensure_row.
  destruct (Dict.mem aggregated name) eqn:E; [assumption | apply mem_set_same].
Qed.

Lemma lookup_absent (aggregated : matrix) (p k : string) :
  ~ In p (Dict.keys aggregated) -> lookup aggregated p k = 0.
Proof.
  intros H. apply get_none_iff in H. unfold lookup, Dict.get_or. now rewrite H.
Qed.

(** The cells of a provider that has adjustments only. *)
Lemma lookup_adjusted_only (name : string) (adjustments : Dict.t Z)
  (aggregated : matrix) (k : string) :
  NoDup (Dict.keys adjustments) ->
  lookup aggregated name k = 0 ->
  lookup (apply_adjustments name adjustments aggregated) name k
  = Dict.get_or adjustments k 0.
Proof.
  intros Hnd H0. rewrite lookup_apply_adjustments, H0, String.eqb_refl.
  now rewrite adjustments_amount.
Qed.

Lemma fc_adjustments_nodup : NoDup (Dict.keys fc_adjustments).
Proof.
  unfold fc_adjustments. simpl.
  repeat (constructor; [simpl; intuition discriminate|]). constructor.
Qed.

Lemma lookup_no_records (data : list starts_record) (m : option string) (p k : string) :
  (forall r, In r data -> provider_clean r <> p) ->
  lookup (aggregate_starts_by_provider_year data m) p k = 0.
Proof.
  intros H. rewrite lookup_aggregate. apply sum_Z_map_zero. intros r Hr.
  unfold contribution. apply H in Hr. apply String.eqb_neq in Hr. now rewrite Hr.
Qed.

(** The sum over the quarterly keys of the amounts of a table whose keys
    are all among the sorted keys. *)
Lemma quarterly_sum_adjustments (m : string) (sorted : list string)
  (adjustments : Dict.t Z) :
  NoDup sorted -> NoDup (Dict.keys adjustments) ->
  (forall k, In k (Dict.keys adjustments) -> In k sorted) ->
  sum_Z (map (fun q_key => Dict.get_or adjustments q_key 0) (quarterly_keys_of m sorted))
  = sum_Z (map snd
             (filter (fun adj => Str.startswith (fst adj) m
                                 && Str.contains " Q" (fst adj))
                adjustments)).
Proof.
  intros Hnd Hnda Hin.
  assert (Hndq : NoDup (quarterly_keys_of m sorted)) by now apply NoDup_filter.
  rewrite sum_Z_filter.
  rewrite (sum_Z_map_ext _
             (fun q_key =>
                sum_Z (map (fun adj => if String.eqb (fst adj) q_key then snd adj else 0)
                         adjustments)));
    [|intros; symmetry; now apply adjustments_amount].
  rewrite (sum_Z_swap
             (fun q_key adj => if String.eqb (fst adj) q_key then snd adj else 0)).
  apply sum_Z_map_ext. intros [k v] Hkv. cbn [fst snd].
  rewrite (sum_Z_indicator _ _ _ Hndq).
  assert (Hk : In k sorted).
  { apply Hin. apply in_map_iff. now exists (k, v). }
  destruct (in_dec string_dec k (quarterly_keys_of m sorted)) as [Hq | Hq].
  - apply quarterly_keys_of_in in Hq as (_ & H1 & H2). now rewrite H1, H2.
  - destruct (Str.startswith k m && Str.contains " Q" k) eqn:E; [|reflexivity].
    exfalso. apply Hq. apply quarterly_keys_of_in. apply andb_true_iff in E. tauto.
Qed.

(** C9, amended. A provider that occurs in the adjustments and in no
    record gets a row of the matrix whose cell is the adjustment amount
    for every adjusted key and 0 for every other key.  When the record set
    is not empty and the London table is produced, the row of FOUNDERS &
    CODERS comes first; in every column other than the most recent period
    it shows the adjustment amount of the column key, 0 for a key without
    adjustment, and in the column of the most recent period, when that
    period is not itself an adjusted key, it shows the sum of the
    adjustments of the quarterly keys of that period. *)
Theorem adjustment_creates_row :
  (forall (name : string) (adjustments : Dict.t Z) (aggregated : matrix) (k : string),
      NoDup (Dict.keys adjustments) -> ~ In name (Dict.keys aggregated) ->
      Dict.mem (apply_adjustments name adjustments aggregated) name = true
      /\ lookup (apply_adjustments name adjustments aggregated) name k
         = Dict.get_or adjustments k 0)
  /\ (forall (data : list starts_record)
             (headers : list string) (rows : list (list cell)) (title : string),
         (forall r, In r data -> provider_clean r <> fc_name) ->
         data <> [] ->
         prepare_london_sme_table_data data = Ok (headers, rows, title) ->
         exists m sorted quarterly year_keys values rest,
           hd_error (rev (sorted_base_years data)) = Some m
           /\ plan_columns
                (apply_founders_coders_adjustments
                   (aggregate_starts_by_provider_year data (Some m))) m
              = Ok (sorted, quarterly, year_keys)
           /\ headers = "Provider"%string :: map header_of year_keys
           /\ rows = int_row (fc_name, values) :: rest
           /\ length values = length year_keys
           /\ forall i k,
               nth_error year_keys i = Some k ->
               (k <> m ->
                nth_error values i = Some (Dict.get_or fc_adjustments k 0))
               /\ (k = m -> Dict.mem fc_adjustments m = false ->
                   nth_error values i
                   = Some (sum_Z (map snd
                                    (filter
                                       (fun adj => Str.startswith (fst adj) m
                                                   && Str.contains " Q" (fst adj))
                                       fc_adjustments))))).
Proof.
  split.
  - intros name adjustments aggregated k Hnd Habsent. split.
    + apply apply_adjustments_mem.
    + apply lookup_adjusted_only; [assumption | now apply lookup_absent].
  - intros data headers rows title Hno Hne H.
    destruct (prepare_london_inv _ _ _ _ H Hne)
      as (m & sorted & quarterly & final & rogue & rest & Hm & Hplan & -> & _ & Hrows).
    cbv zeta in Hrows.
    set (aggregated := apply_founders_coders_adjustments
                         (aggregate_starts_by_provider_year data (Some m))) in *.
    assert (Hcell : forall k, Dict.get_or (Dict.get_or aggregated fc_name []) k 0
                              = Dict.get_or fc_adjustments k 0).
    { intros k. apply (lookup_adjusted_only fc_name fc_adjustments _ k).
      - exact fc_adjustments_nodup.
      - now apply lookup_no_records. }
    assert (Hfc : In "202324"%string (Dict.keys (Dict.get_or aggregated fc_name []))).
    { apply keys_apply_adjustments. right. split; [reflexivity | simpl; tauto]. }
    destruct (Dict.get_or aggregated fc_name []) as [|kv fc_data'] eqn:Efc;
      [contradiction|].
    rewrite <- Efc in *. clear Hfc.
    rewrite provider_row_eq in Hrows.
    exists m, sorted, quarterly, final,
      (map (row_value m quarterly (Dict.get_or aggregated fc_name [])) final).
    eexists. split; [exact Hm|]. split; [exact Hplan|]. split; [reflexivity|].
    split; [exact Hrows|]. split; [apply length_map|].
    intros i k Hk. rewrite (map_nth_error _ _ _ Hk). unfold row_value. split.
    + intros Hkm. apply String.eqb_neq in Hkm. rewrite Hkm. now rewrite Hcell.
    + intros -> _. rewrite String.eqb_refl. f_equal.
      rewrite (sum_Z_map_ext _ (fun q_key => Dict.get_or fc_adjustments q_key 0))
        by (intros; apply Hcell).
      pose proof (plan_columns_nodup _ _ _ _ _ Hplan) as Hnd.
      apply plan_columns_inv in Hplan as (Hs & -> & _).
      apply sorted_year_keys_spec in Hs as [Hperm _].
      apply quarterly_sum_adjustments;
        [assumption | exact fc_adjustments_nodup |].
      intros k Hk'. apply (Permutation_in _ (Permutation_sym Hperm)).
      now apply fc_key_observed.
Qed.

(** Counterexample to C9 as stated: for a provider X with 5 starts in
    quarter 1 of 202425 the row of FOUNDERS & CODERS shows 4 in the
    column 202425, which is not an adjusted key. *)
Lemma adjustment_row_counterexample :
  ~ (forall (data : list starts_record) (m : string)
            (sorted quarterly year_keys headers : list string)
            (rows : list (list cell)) (title : string),
        (forall r, In r data -> provider_clean r <> fc_name) ->
        hd_error (rev (sorted_base_years data)) = Some m ->
        plan_columns
          (apply_founders_coders_adjustments
             (aggregate_starts_by_provider_year data (Some m))) m
        = Ok (sorted, quarterly, year_keys) ->
        prepare_london_sme_table_data data = Ok (headers, rows, title) ->
        exists values rest,
          rows = int_row (fc_name, values) :: rest
          /\ forall i k,
              nth_error year_keys i = Some k ->
              nth_error values i = Some (Dict.get_or fc_adjustments k 0)).
Proof.
  intros H.
  destruct (H london_scenario "202425"%string
              ["202223"; "202324"; "202425 Q1"; "202425 Q2"; "202425 Q3"]%string
              ["202425 Q1"; "202425 Q2"; "202425 Q3"]%string
              ["202223"; "202324"; "202425"; "202425 Q1"; "202425 Q2"; "202425 Q3"]%string
              ["Provider"; "2022-23"; "2023-24"; "2024-25"; "2024-25 Q1";
               "2024-25 Q2"; "2024-25 Q3"]%string
              [[CStr "FOUNDERS & CODERS"; CInt 2; CInt 3; CInt 4; CInt 1; CInt 2; CInt 1];
               [CStr "All other providers"; CInt 0; CInt 0; CInt 5; CInt 5; CInt 0; CInt 0];
               [CStr "**Total**"; CStr "**2**"; CStr "**3**"; CStr "**9**"; CStr "**6**";
                CStr "**2**"; CStr "**1**"]]
              "ST0116 Software developer starts (London SMEs only)"%string)
    as (values & rest & Hrows & Hvalues).
  - intros r [<- | []]. discriminate.
  - reflexivity.
  - vm_compute. reflexivity.
  - vm_compute. reflexivity.
  - unfold int_row in Hrows. cbn [fst snd] in Hrows.
    injection Hrows as Hvals _.
    specialize (Hvalues 2%nat "202425"%string eq_refl).
    destruct values as [|v0 [|v1 [|v2 values]]]; try discriminate.
    cbn [map] in Hvals. injection Hvals as _ _ Hv2 _.
    cbn in Hvalues. injection Hvalues as ->. discriminate.
Qed.

Lemma adjustment_creates_row_witness :
  exists values rest,
    [[CStr "FOUNDERS & CODERS"; CInt 2; CInt 3; CInt 4; CInt 1; CInt 2; CInt 1];
     [CStr "All other providers"; CInt 0; CInt 0; CInt 5; CInt 5; CInt 0; CInt 0];
     [CStr "**Total**"; CStr "**2**"; CStr "**3**"; CStr "**9**"; CStr "**6**";
      CStr "**2**"; CStr "**1**"]]
    = int_row (fc_name, values) :: rest
    /\ nth_error values 1 = Some 3
    /\ nth_error values 2 = Some 4.
Proof.
  destruct adjustment_creates_row as [_ H].
  destruct (H london_scenario
              ["Provider"; "2022-23"; "2023-24"; "2024-25"; "2024-25 Q1";
               "2024-25 Q2"; "2024-25 Q3"]%string
              [[CStr "FOUNDERS & CODERS"; CInt 2; CInt 3; CInt 4; CInt 1; CInt 2; CInt 1];
               [CStr "All other providers"; CInt 0; CInt 0; CInt 5; CInt 5; CInt 0; CInt 0];
               [CStr "**Total**"; CStr "**2**"; CStr "**3**"; CStr "**9**"; CStr "**6**";
                CStr "**2**"; CStr "**1**"]]
              "ST0116 Software developer starts (London SMEs only)"%string)
    as (m & sorted & quarterly & year_keys & values & rest
        & Hm & Hplan & _ & Hrows & _ & Hvalues).
  - intros r [<- | []]. discriminate.
  - discriminate.
  - vm_compute. reflexivity.
  - injection Hm as <-. vm_compute in Hplan. injection Hplan as _ _ <-.
    exists values, rest. split; [exact Hrows|]. split.
    + apply (Hvalues 1%nat "202324"%string eq_refl). discriminate.
    + apply (Hvalues 2%nat "202425"%string eq_refl); reflexivity.
Defined.

(** ** The total row of the London table *)

Lemma filter_all {A : Type} (f : A -> bool) (l : list A) :
  (forall x, In x l -> f x = true) -> filter f l = l.
Proof.
  induction l as [|a l IH]; intros H; [reflexivity|].
  cbn [filter]. rewrite (H a (or_introl eq_refl)). f_equal.
  apply IH. intros x Hx. apply H. now right.
Qed.

Lemma filter_twice {A : Type} (f g : A -> bool) (l : list A) :
  filter f (filter g l) = filter (fun x => g x && f x) l.
Proof.
  induction l as [|a l IH]; [reflexivity|].
  cbn [filter]. destruct (g a); cbn [andb filter]; now rewrite IH.
Qed.

Lemma filter_same {A : Type} (f g : A -> bool) (l : list A) :
  (forall x, In x l -> f x = g x) -> filter f l = filter g l.
Proof.
  induction l as [|a l IH]; intros H; [reflexivity|].
  cbn [filter]. rewrite (H a (or_introl eq_refl)).
  rewrite IH; [reflexivity|]. intros x Hx. apply H. now right.
Qed.

Lemma flat_map_same {A B : Type} (f g : A -> list B) (l : list A) :
  (forall x, In x l -> f x = g x) -> flat_map f l = flat_map g l.
Proof.
  induction l as [|a l IH]; intros H; [reflexivity|].
  cbn [flat_map]. rewrite (H a (or_introl eq_refl)). f_equal.
  apply IH. intros x Hx. apply H. now right.
Qed.

(** On distinct keys [pop] leaves the other entries in their order. *)
Lemma remove_filter {V : Type} (d : Dict.t V) (k : string) :
  NoDup (Dict.keys d) ->
  Dict.remove d k = filter (fun pd => negb (String.eqb (fst pd) k)) d.
Proof.
  unfold Dict.keys. induction d as [|[k' v] d IH]; intros Hnd; [reflexivity|].
  inversion Hnd as [|? ? Hnot Hnd']; subst.
  cbn [Dict.remove filter fst]. destruct (String.eqb k' k) eqn:E; cbn [negb].
  - apply String.eqb_eq in E. subst k'. symmetry. apply filter_all.
    intros [k2 v2] Hin. cbn [fst]. apply negb_true_iff, String.eqb_neq.
    intros ->. apply Hnot. apply in_map_iff. now exists (k, v2).
  - f_equal. now apply IH.
Qed.

Lemma remove_perm {V : Type} (d : Dict.t V) (k : string) (v : V) :
  Dict.get d k = Some v -> Permutation d ((k, v) :: Dict.remove d k).
Proof.
  induction d as [|[k' v'] d IH]; intros H; [discriminate|].
  cbn [Dict.get Dict.remove] in *. destruct (String.eqb k' k) eqn:E.
  - injection H as ->. apply String.eqb_eq in E. now subst.
  - apply perm_trans with ((k', v') :: (k, v) :: Dict.remove d k).
    + apply perm_skip. now apply IH.
    + apply perm_swap.
Qed.

(** The providers found under the names of a list, in the order of the
    list. *)
Lemma separate_rogue_loop (names : list string) :
  NoDup names ->
  forall (rogue0 : list (string * Dict.t Z)) (aggregated : matrix) rogue rest,
    NoDup (Dict.keys aggregated) ->
    fold_left
      (fun acc rogue_name =>
         let '(rogue_providers, aggregated) := acc in
         match Dict.get aggregated rogue_name with
         | Some year_data =>
             (rogue_providers ++ [(rogue_name, year_data)],
              Dict.remove aggregated rogue_name)
         | None => (rogue_providers, aggregated)
         end)
      names (rogue0, aggregated) = (rogue, rest) ->
    rest = filter (fun pd => negb (mem_str (fst pd) names)) aggregated
    /\ rogue
       = rogue0
         ++ flat_map (fun name =>
                        match Dict.get aggregated name with
                        | Some year_data => [(name, year_data)]
                        | None => []
                        end)
              names.
Proof.
  induction names as [|n names IH]; intros Hnames rogue0 aggregated rogue rest Hnd H.
  - cbn [fold_left] in H. injection H as <- <-. split.
    + symmetry. now apply filter_all.
    + cbn [flat_map]. now rewrite app_nil_r.
  - inversion Hnames as [|? ? Hnot Hnames']; subst.
    cbn [fold_left] in H. cbn [flat_map mem_str].
    destruct (Dict.get aggregated n) as [year_data|] eqn:Eg.
    + destruct (IH Hnames' _ _ _ _ (remove_keys_nodup _ n Hnd) H) as [-> ->].
      split.
      * rewrite (remove_filter _ _ Hnd), filter_twice. apply filter_same.
        intros pd _. rewrite String.eqb_sym. now rewrite negb_orb.
      * rewrite <- app_assoc. f_equal. cbn [app]. f_equal.
        apply flat_map_same. intros a Ha.
        rewrite get_remove_other; [reflexivity|]. intros ->. contradiction.
    + destruct (IH Hnames' _ _ _ _ Hnd H) as [-> ->]. split; [|reflexivity].
      apply filter_same. intros pd Hpd.
      assert (Hne : String.eqb n (fst pd) = false).
      { apply String.eqb_neq. intros ->. apply get_none_iff in Eg. apply Eg.
        now apply in_map. }
      now rewrite Hne.
Qed.

Lemma flat_map_ext_in_get (A B : matrix) (names : list string) :
  (forall n, In n names -> Dict.get A n = Dict.get B n) ->
  flat_map (fun name => match Dict.get A name with
                        | Some year_data => [(name, year_data)]
                        | None => []
                        end) names
  = flat_map (fun name => match Dict.get B name with
                          | Some year_data => [(name, year_data)]
                          | None => []
                          end) names.
Proof.
  intros H. apply flat_map_same. intros n Hn. now rewrite (H n Hn).
Qed.

(** The parts of the London table in terms of the adjusted matrix: the
    total sums every provider that is not closed, the pooled row sums
    the providers that are neither closed, nor adjusted, nor major, and
    the rows below the total are those of the closed providers. *)
Lemma london_total_matrix (data : list starts_record)
  (headers : list string) (rows : list (list cell)) (title : string) :
  prepare_london_sme_table_data data = Ok (headers, rows, title) ->
  data <> [] ->
  exists m sorted quarterly year_keys totals shown pooled excluded,
    let aggregated :=
      apply_founders_coders_adjustments
        (aggregate_starts_by_provider_year data (Some m)) in
    let open pd := negb (mem_str (fst pd) rogue_provider_names) in
    let row_of (pd : string * Dict.t Z) :=
      map (row_value m quarterly (snd pd)) year_keys in
    let column k (providers : list (string * Dict.t Z)) :=
      sum_Z (map (fun pd => row_value m quarterly (snd pd) k) providers) in
    hd_error (rev (sorted_base_years data)) = Some m
    /\ plan_columns aggregated m = Ok (sorted, quarterly, year_keys)
    /\ headers = "Provider"%string :: map header_of year_keys
    /\ rows = map int_row shown ++ map int_row pooled
              ++ [bold_row "**Total**" totals] ++ map int_row excluded
    /\ (length pooled <= 1)%nat
    /\ length headers = S (length totals)
    /\ Forall (fun r => length (snd r) = length totals) (shown ++ pooled ++ excluded)
    /\ (forall i, (i < length totals)%nat ->
                  nth i totals 0 = column_sum i shown + column_sum i pooled)
    /\ Forall (fun r => exists name,
                   In name rogue_provider_names /\ fst r = Str.cat name " (closed)")
         excluded
    /\ Forall (fun r => ~ In (fst r) rogue_provider_names) shown
    /\ totals = map (fun k => column k (filter open aggregated)) year_keys
    /\ pooled
       = match filter (fun pd => open pd
                                 && negb (String.eqb (fst pd) fc_name)
                                 && negb (is_major_sme pd)) aggregated with
         | [] => []
         | small =>
             [("All other providers"%string, map (fun k => column k small) year_keys)]
         end
    /\ excluded
       = map (fun pd => (Str.cat (fst pd) " (closed)", row_of pd))
           (flat_map (fun name =>
                        match Dict.get aggregated name with
                        | Some year_data => [(name, year_data)]
                        | None => []
                        end)
              rogue_provider_names)
    /\ Forall (fun r => exists pd,
                   In pd aggregated /\ open pd = true /\ r = (fst pd, row_of pd))
         shown.
Proof.
  intros H Hne.
  destruct (prepare_london_inv _ _ _ _ H Hne)
    as (m & sorted & quarterly & final & rogue & rest & Hm & Hplan & -> & Hsep & Hrows).
  cbv zeta in Hrows.
  pose proof (proj1 (apply_adjustments_well_formed fc_name fc_adjustments _
                       (aggregate_well_formed data (Some m)))) as Hnd.
  fold (apply_founders_coders_adjustments
          (aggregate_starts_by_provider_year data (Some m))) in Hnd.
  destruct (separate_rogue_spec _ _ _ _ (london_matrix_nodup data (Some m)) Hsep)
    as (_ & Hrest & Hrogue).
  assert (Hnames : NoDup rogue_provider_names).
  { unfold rogue_provider_names. repeat constructor; simpl; intuition discriminate. }
  unfold separate_rogue in Hsep.
  destruct (separate_rogue_loop _ Hnames _ _ _ _ (london_matrix_nodup data (Some m)) Hsep)
    as [Hrest_eq Hrogue_eq].
  cbn [app] in Hrogue_eq.
  set (aggregated := apply_founders_coders_adjustments
                       (aggregate_starts_by_provider_year data (Some m))) in *.
  assert (Hfc : exists fc_data,
             Dict.get aggregated fc_name = Some fc_data
             /\ Dict.get_or aggregated fc_name [] = fc_data).
  { pose proof (apply_adjustments_mem fc_name fc_adjustments
                  (aggregate_starts_by_provider_year data (Some m))) as Hmem.
    fold (apply_founders_coders_adjustments
            (aggregate_starts_by_provider_year data (Some m))) in Hmem.
    fold aggregated in Hmem. unfold Dict.mem, Dict.get_or in *.
    destruct (Dict.get aggregated fc_name) as [d|]; [eauto | discriminate]. }
  destruct Hfc as (fc_data & Hget & Hget_or). rewrite Hget_or in Hrows.
  rewrite (remove_filter _ _ Hnd) in Hrest_eq. rewrite filter_twice in Hrest_eq.
  assert (Hrogue_full :
            rogue = flat_map (fun name =>
                                match Dict.get aggregated name with
                                | Some year_data => [(name, year_data)]
                                | None => []
                                end) rogue_provider_names).
  { rewrite Hrogue_eq. apply flat_map_ext_in_get. intros n Hn.
    apply get_remove_other. intros <-. simpl in Hn.
    destruct Hn as [Hn | [Hn | []]]; discriminate. }
  set (major := sort_by_recent m (filter is_major_sme rest)) in *.
  set (small := filter (fun pd => negb (is_major_sme pd)) rest) in *.
  assert (Hperm : Permutation (major ++ small) rest).
  { subst major small. eapply perm_trans; [|apply (filter_partition_perm is_major_sme)].
    apply Permutation_app_tail. apply sort_by_recent_perm. }
  assert (Hmajor : forall pd, In pd major -> In pd aggregated /\ ~ In (fst pd) rogue_provider_names).
  { intros pd Hpd. apply (Permutation_in _ (sort_by_recent_perm m _)) in Hpd.
    apply filter_In in Hpd as [Hpd _]. destruct (Hrest pd Hpd) as [Hin Hnot].
    split; [now apply remove_in in Hin | assumption]. }
  assert (Hopen : forall pd : string * Dict.t Z,
             ~ In (fst pd) rogue_provider_names ->
                             negb (mem_str (fst pd) rogue_provider_names) = true).
  { intros pd Hnot. apply negb_true_iff. unfold rogue_provider_names in *.
    cbn [mem_str]. cbn [In] in Hnot.
    destruct (String.eqb "LONDON COLLEGE OF GLOBAL EDUCATION" (fst pd)) eqn:E1.
    { apply String.eqb_eq in E1. tauto. }
    destruct (String.eqb "CITY COLLEGE OF LONDON" (fst pd)) eqn:E2.
    { apply String.eqb_eq in E2. tauto. }
    reflexivity. }
  assert (Hsmall_eq :
            small = filter (fun pd => negb (mem_str (fst pd) rogue_provider_names)
                                      && negb (String.eqb (fst pd) fc_name)
                                      && negb (is_major_sme pd)) aggregated).
  { subst small. rewrite Hrest_eq, filter_twice. apply filter_same.
    intros pd _. now rewrite (andb_comm (negb (String.eqb (fst pd) fc_name))). }
  assert (Htotal : forall k,
             total_for m quarterly ((fc_name, fc_data) :: major ++ small) k
             = sum_Z (map (fun pd => row_value m quarterly (snd pd) k)
                        (filter (fun pd => negb (mem_str (fst pd) rogue_provider_names))
                           aggregated))).
  { intros k.
    change ((fc_name, fc_data) :: major ++ small)
      with ([(fc_name, fc_data)] ++ (major ++ small)).
    rewrite total_for_app, (total_for_perm _ _ _ _ k Hperm), !total_for_sum.
    rewrite sum_Z_filter.
    rewrite (sum_Z_perm _ _ (Permutation_map _ (remove_perm _ _ _ Hget))).
    cbn [map]. rewrite !sum_Z_cons.
    change (negb (mem_str (fst (fc_name, fc_data)) rogue_provider_names)) with true.
    cbv iota. rewrite <- sum_Z_filter.
    rewrite (remove_filter _ _ Hnd), filter_twice, <- Hrest_eq.
    cbn [sum_Z fold_right]. lia. }
  clearbody major small.
  exists m, sorted, quarterly, final,
    (map (total_for m quarterly ((fc_name, fc_data) :: major ++ small)) final),
    ((match fc_data with
      | [] => []
      | _ :: _ => [(fc_name, map (row_value m quarterly fc_data) final)]
      end)
     ++ map (fun pd => (fst pd, map (row_value m quarterly (snd pd)) final)) major),
    (match small with
     | [] => []
     | _ :: _ => [("All other providers"%string, map (total_for m quarterly small) final)]
     end),
    (map (fun pd => (Str.cat (fst pd) " (closed)",
                     map (row_value m quarterly (snd pd)) final)) rogue).
  cbv beta zeta. subst aggregated.
  split; [exact Hm|]. split; [exact Hplan|]. split; [reflexivity|].
  split; [|split; [|split; [|split; [|split; [|split; [|split; [|split; [|split; [|split]]]]]]]]].
  - rewrite Hrows, bold_totals_row_eq, map_app, <- app_assoc. f_equal.
    { destruct fc_data; [reflexivity|]. cbn [map]. now rewrite provider_row_eq. }
    f_equal.
    { rewrite map_map. apply map_ext. intros pd. apply provider_row_eq. }
    f_equal.
    { destruct small; [reflexivity|]. cbn [map]. now rewrite totals_row_eq. }
    f_equal. rewrite map_map. apply map_ext. intros pd. apply provider_row_eq.
  - destruct small; simpl; lia.
  - simpl. now rewrite !length_map.
  - repeat (apply Forall_app; split).
    + destruct fc_data; constructor; [|constructor]. simpl. now rewrite !length_map.
    + apply Forall_forall. intros r Hr. apply in_map_iff in Hr as (pd & <- & _).
      simpl. now rewrite !length_map.
    + destruct small; constructor; [|constructor]. simpl. now rewrite !length_map.
    + apply Forall_forall. intros r Hr. apply in_map_iff in Hr as (pd & <- & _).
      simpl. now rewrite !length_map.
  - intros i Hi. rewrite length_map in Hi.
    rewrite nth_map_key by assumption. rewrite column_sum_app.
    rewrite (column_sum_providers m quarterly final fst major i Hi).
    rewrite (column_sum_pooled m quarterly final _ small i Hi).
    change ((fc_name, fc_data) :: major ++ small)
      with ([(fc_name, fc_data)] ++ major ++ small).
    rewrite !total_for_app.
    assert (Hfcsum : column_sum i
                    match fc_data with
                    | [] => []
                    | _ :: _ => [(fc_name, map (row_value m quarterly fc_data) final)]
                    end
                  = total_for m quarterly [(fc_name, fc_data)]
                      (nth i final EmptyString)).
    { rewrite total_for_sum. cbn [map snd sum_Z fold_right].
      destruct fc_data as [|kv fc_data'] eqn:Efc.
      - rewrite row_value_nil. reflexivity.
      - unfold column_sum. cbn [map snd sum_Z fold_right].
        rewrite nth_map_key by assumption. reflexivity. }
    rewrite Hfcsum. lia.
  - apply Forall_forall. intros r Hr. apply in_map_iff in Hr as (pd & <- & Hpd).
    exists (fst pd). split; [now apply Hrogue | reflexivity].
  - apply Forall_app. split.
    + destruct fc_data; constructor; [|constructor].
      simpl. intros [H1 | [H1 | []]]; discriminate.
    + apply Forall_forall. intros r Hr. apply in_map_iff in Hr as (pd & <- & Hpd).
      simpl. now apply Hmajor.
  - apply map_ext. intros k. apply Htotal.
  - rewrite <- Hsmall_eq. destruct small as [|pd small']; [reflexivity|].
    f_equal. f_equal. apply map_ext. intros k. apply total_for_sum.
  - now rewrite Hrogue_full.
  - apply Forall_app. split.
    + destruct fc_data as [|kv fc_data'] eqn:Efc; constructor; [|constructor].
      exists (fc_name, kv :: fc_data'). split; [now apply get_some_in|].
      split; reflexivity.
    + apply Forall_forall. intros r Hr. apply in_map_iff in Hr as (pd & <- & Hpd).
      exists pd. destruct (Hmajor pd Hpd) as [Hin Hnot].
      split; [assumption|]. split; [now apply Hopen | reflexivity].
Qed.

(** C1. In the table of [starts.py] and in the table of [london_sme.py]
    the total of every column is the sum of that column over the rows of
    individually shown providers plus the pooled row, where there is one.
    In the London table, built over the adjusted matrix of the most
    recent year, the total of a column is the sum of that column over
    all providers of the matrix that are not in the list of closed
    providers; the pooled row sums the providers of the matrix that are
    not closed, not the adjusted provider and not major; every shown row
    is the row of a provider of the matrix that is not closed; and the
    rows of the closed providers come after the total and enter neither
    the total nor the pooled row. *)
Theorem total_row_invariant :
  (forall (data : list starts_record) (min_starts : Z)
          (headers : list string) (rows : list (list cell)) (title : string),
      prepare_starts_table_data data min_starts = Ok (headers, rows, title) ->
      data <> [] ->
      exists totals shown pooled,
        rows = bold_row "**Total**" totals :: map int_row shown ++ map int_row pooled
        /\ (length pooled <= 1)%nat
        /\ length headers = S (length totals)
        /\ Forall (fun r => length (snd r) = length totals) (shown ++ pooled)
        /\ forall i, (i < length totals)%nat ->
                     nth i totals 0 = column_sum i shown + column_sum i pooled)
  /\ (forall (data : list starts_record)
             (headers : list string) (rows : list (list cell)) (title : string),
         prepare_london_sme_table_data data = Ok (headers, rows, title) ->
         data <> [] ->
         exists m sorted quarterly year_keys totals shown pooled excluded,
           let aggregated :=
             apply_founders_coders_adjustments
               (aggregate_starts_by_provider_year data (Some m)) in
           let open pd := negb (mem_str (fst pd) rogue_provider_names) in
           let row_of (pd : string * Dict.t Z) :=
             map (row_value m quarterly (snd pd)) year_keys in
           let column k (providers : list (string * Dict.t Z)) :=
             sum_Z (map (fun pd => row_value m quarterly (snd pd) k) providers) in
           hd_error (rev (sorted_base_years data)) = Some m
           /\ plan_columns aggregated m = Ok (sorted, quarterly, year_keys)
           /\ headers = "Provider"%string :: map header_of year_keys
           /\ rows = map int_row shown ++ map int_row pooled
                     ++ [bold_row "**Total**" totals] ++ map int_row excluded
           /\ (length pooled <= 1)%nat
           /\ length headers = S (length totals)
           /\ Forall (fun r => length (snd r) = length totals)
                (shown ++ pooled ++ excluded)
           /\ (forall i, (i < length totals)%nat ->
                         nth i totals 0 = column_sum i shown + column_sum i pooled)
           /\ Forall (fun r => exists name,
                          In name rogue_provider_names
                          /\ fst r = Str.cat name " (closed)")
                excluded
           /\ Forall (fun r => ~ In (fst r) rogue_provider_names) shown
           /\ totals = map (fun k => column k (filter open aggregated)) year_keys
           /\ pooled
              = match filter (fun pd => open pd
                                        && negb (String.eqb (fst pd) fc_name)
                                        && negb (is_major_sme pd)) aggregated with
                | [] => []
                | small =>
                    [("All other providers"%string,
                      map (fun k => column k small) year_keys)]
                end
           /\ excluded
              = map (fun pd => (Str.cat (fst pd) " (closed)", row_of pd))
                  (flat_map (fun name =>
                               match Dict.get aggregated name with
                               | Some year_data => [(name, year_data)]
                               | None => []
                               end)
                     rogue_provider_names)
           /\ Forall (fun r => exists pd,
                          In pd aggregated /\ open pd = true
                          /\ r = (fst pd, row_of pd))
                shown)
  /\ prepare_london_sme_table_data closed_provider_scenario
     = Ok (["Provider"; "2022-23"; "2023-24"; "2024-25"; "2024-25 Q1";
            "2024-25 Q2"; "2024-25 Q3"]%string,
           [[CStr "FOUNDERS & CODERS"; CInt 2; CInt 3; CInt 4; CInt 1; CInt 2; CInt 1];
            [CStr "Y"; CInt 4; CInt 0; CInt 0; CInt 0; CInt 0; CInt 0];
            [CStr "All other providers"; CInt 0; CInt 0; CInt 7; CInt 7; CInt 0; CInt 0];
            [CStr "**Total**"; CStr "**6**"; CStr "**3**"; CStr "**11**";
             CStr "**8**"; CStr "**2**"; CStr "**1**"];
            [CStr "CITY COLLEGE OF LONDON (closed)"; CInt 0; CInt 0; CInt 7;
             CInt 7; CInt 0; CInt 0]],
           "ST0116 Software developer starts (London SMEs only)"%string).
Proof.
  split; [|split].
  - exact starts_total_invariant.
  - exact london_total_matrix.
  - vm_compute. reflexivity.
Qed.

(** ** The column scenario for every record set *)

Lemma sorted_perm_unique {A : Type} (R : A -> A -> Prop) : forall l1 l2 : list A,
  StronglySorted R l1 -> StronglySorted R l2 -> Permutation l1 l2 ->
  (forall x y, In x l1 -> In y l1 -> R x y -> R y x -> x = y) ->
  l1 = l2.
Proof.
  induction l1 as [|x t1 IH]; intros l2 H1 H2 Hp Hanti.
  - apply Permutation_nil in Hp. now subst.
  - destruct l2 as [|y t2].
    { apply Permutation_sym, Permutation_nil in Hp. discriminate. }
    inversion H1 as [|? ? Ht1 Hx]; subst. inversion H2 as [|? ? Ht2 Hy]; subst.
    rewrite Forall_forall in Hx, Hy.
    assert (Hxy : x = y).
    { assert (Hin_x : In x (y :: t2)) by (apply (Permutation_in _ Hp); now left).
      assert (Hin_y : In y (x :: t1))
        by (apply (Permutation_in _ (Permutation_sym Hp)); now left).
      destruct Hin_x as [<- | Hin_x]; [reflexivity|].
      destruct Hin_y as [<- | Hin_y]; [reflexivity|].
      apply Hanti; [now left | now right | now apply Hx | now apply Hy]. }
    subst y. f_equal. apply IH; try assumption.
    + now apply Permutation_cons_inv in Hp.
    + intros a b Ha Hb. apply Hanti; now right.
Qed.

Lemma scenario_keys_sorted :
  StronglySorted key_le ["2022-23"; "2023-24"; "2024-25 Q1"; "2024-25 Q2"]%string.
Proof.
  repeat (constructor;
          [|repeat (constructor;
                    [eexists; eexists;
                     split; [vm_compute; reflexivity|];
                     split; [vm_compute; reflexivity|];
                     vm_compute;
                     first [left; reflexivity
                           | right; split; [reflexivity | discriminate]]
                    |]); constructor]).
  constructor.
Qed.

Lemma scenario_keys_antisym (a b : string) :
  In a ["2022-23"; "2023-24"; "2024-25 Q1"; "2024-25 Q2"]%string ->
  In b ["2022-23"; "2023-24"; "2024-25 Q1"; "2024-25 Q2"]%string ->
  key_le a b -> key_le b a -> a = b.
Proof.
  intros Ha Hb (ka & kb & Hka & Hkb & Hab) (kb' & ka' & Hkb' & Hka' & Hba).
  rewrite Hkb in Hkb'. injection Hkb' as <-.
  rewrite Hka in Hka'. injection Hka' as <-.
  simpl in Ha, Hb.
  repeat (destruct Ha as [<- | Ha]; [|]); try contradiction;
    (repeat (destruct Hb as [<- | Hb]; [|]); try contradiction);
    try reflexivity;
    vm_compute in Hka, Hkb; injection Hka as <-; injection Hkb as <-;
    cbn [fst snd] in Hab, Hba;
    destruct Hab as [Hab | [Hab Hab']]; destruct Hba as [Hba | [Hba Hba']];
    first [discriminate
          | vm_compute in Hab', Hba'; congruence
          | now exfalso; apply Hba'
          | now exfalso; apply Hab'].
Qed.

Lemma column_scenario_general (data : list starts_record) (min_starts : Z) :
  (forall r, In r data ->
             year r = "2022-23"%string \/ year r = "2023-24"%string
             \/ (year r = "2024-25"%string /\ (quarter r = 1 \/ quarter r = 2))) ->
  (exists r, In r data /\ year r = "2022-23"%string) ->
  (exists r, In r data /\ year r = "2023-24"%string) ->
  (exists r, In r data /\ year r = "2024-25"%string /\ quarter r = 1) ->
  (exists r, In r data /\ year r = "2024-25"%string /\ quarter r = 2) ->
  exists sorted quarterly rows title,
    plan_columns
      (aggregate_starts_by_provider_year data (Some "2024-25"%string)) "2024-25"
    = Ok (sorted, quarterly,
          ["2022-23"; "2023-24"; "2024-25"; "2024-25 Q1"; "2024-25 Q2"]%string)
    /\ prepare_starts_table_data data min_starts
       = Ok (["Provider"; "2022-23"; "2023-24"; "2024-25"; "2024-25 Q1";
              "2024-25 Q2"]%string, rows, title).
Proof.
  intros Hall (r1 & Hr1 & Hy1) (r2 & Hr2 & Hy2) (r3 & Hr3 & Hy3 & Hq3)
    (r4 & Hr4 & Hy4 & Hq4).
  assert (Hne : data <> []) by (intros ->; contradiction).
  assert (Hplain : forall r, In r data -> Str.contains " Q" (year r) = false).
  { intros r Hr. destruct (Hall r Hr) as [-> | [-> | [-> _]]]; reflexivity. }
  destruct (prepare_starts_ok data min_starts Hplain) as ([[headers rows] title] & Hok).
  destruct (prepare_starts_inv _ _ _ _ _ Hok Hne)
    as (m & sorted & quarterly & final & Hm & Hplan & Hheaders & _).
  assert (Em : m = "2024-25"%string).
  { destruct (most_recent_year_spec _ _ Hm) as [(r & Hr & Hy) Hmax].
    specialize (Hmax r3 Hr3). rewrite Hy3 in Hmax. rewrite <- Hy in *.
    destruct (Hall r Hr) as [E | [E | [E _]]];
      [rewrite E in Hmax; vm_compute in Hmax; discriminate
      |rewrite E in Hmax; vm_compute in Hmax; discriminate
      |exact E]. }
  subst m.
  pose proof (plan_columns_nodup _ _ _ _ _ Hplan) as Hnd.
  pose proof Hplan as Hinv. apply plan_columns_inv in Hinv as (Hs & Hq & Hfinal).
  apply sorted_year_keys_spec in Hs as [Hperm Hsorted].
  assert (Hkeys : forall k,
             In k sorted
             <-> In k ["2022-23"; "2023-24"; "2024-25 Q1"; "2024-25 Q2"]%string).
  { intros k. split.
    - intros Hk. apply (Permutation_in _ Hperm) in Hk.
      apply all_year_keys_aggregate in Hk as (r & Hr & <-).
      unfold year_key_of. cbn [truthy].
      destruct (Hall r Hr) as [E | [E | [E [Eq | Eq]]]]; rewrite E; try rewrite Eq;
        vm_compute; tauto.
    - intros Hk. apply (Permutation_in _ (Permutation_sym Hperm)).
      apply all_year_keys_aggregate. simpl in Hk.
      destruct Hk as [<- | [<- | [<- | [<- | []]]]];
        [exists r1 | exists r2 | exists r3 | exists r4];
        (split; [assumption|]); unfold year_key_of; cbn [truthy].
      + now rewrite Hy1.
      + now rewrite Hy2.
      + now rewrite Hy3, Hq3.
      + now rewrite Hy4, Hq4. }
  assert (Esorted : sorted = ["2022-23"; "2023-24"; "2024-25 Q1"; "2024-25 Q2"]%string).
  { apply (sorted_perm_unique key_le).
    - assumption.
    - exact scenario_keys_sorted.
    - apply NoDup_Permutation; [assumption | | assumption].
      repeat (constructor; [simpl; intuition discriminate|]). constructor.
    - intros a b Ha Hb. apply scenario_keys_antisym; now apply Hkeys. }
  subst sorted quarterly. vm_compute in Hfinal. injection Hfinal as <-.
  subst headers. eexists. eexists. exists rows, title. split; [exact Hplan | exact Hok].
Qed.

(** C3. The planner returns the observed keys sorted ascending by
    (base period, ordinal): a key without quarter has ordinal 0 and the
    quarterly key of year [y] and quarter [q] has the pair (y, q).  When
    the most recent period has quarterly keys, the final list is the
    sorted list with the most recent period inserted immediately before
    the first of them, and otherwise it is the sorted list.  Every record
    set with exactly the periods 2022-23, 2023-24 and 2024-25, the last
    one with exactly the quarters 1 and 2, gives the columns 2022-23,
    2023-24, 2024-25, 2024-25 Q1, 2024-25 Q2. *)
Theorem column_plan_order :
  (forall (aggregated : matrix) (m : string) sorted quarterly final,
      plan_columns aggregated m = Ok (sorted, quarterly, final) ->
      Permutation sorted (all_year_keys aggregated)
      /\ StronglySorted key_le sorted
      /\ quarterly
         = filter (fun k => Str.startswith k m && Str.contains " Q" k) sorted
      /\ (quarterly = [] -> final = sorted)
      /\ (forall first rest,
             quarterly = first :: rest ->
             exists earlier later,
               sorted = earlier ++ first :: later
               /\ final = earlier ++ m :: first :: later
               /\ Forall
                    (fun k => Str.startswith k m && Str.contains " Q" k = false)
                    earlier))
  /\ (forall k, Str.contains " Q" k = false -> sort_key k = Ok (k, 0))
  /\ (forall y q,
         Str.contains " Q" y = false -> 0 < q ->
         sort_key (quarter_key y q) = Ok (y, q))
  /\ (forall (data : list starts_record) (min_starts : Z),
         (forall r, In r data ->
                    year r = "2022-23"%string \/ year r = "2023-24"%string
                    \/ (year r = "2024-25"%string
                        /\ (quarter r = 1 \/ quarter r = 2))) ->
         (exists r, In r data /\ year r = "2022-23"%string) ->
         (exists r, In r data /\ year r = "2023-24"%string) ->
         (exists r, In r data /\ year r = "2024-25"%string /\ quarter r = 1) ->
         (exists r, In r data /\ year r = "2024-25"%string /\ quarter r = 2) ->
         exists sorted quarterly rows title,
           plan_columns
             (aggregate_starts_by_provider_year data (Some "2024-25"%string))
             "2024-25"
           = Ok (sorted, quarterly,
                 ["2022-23"; "2023-24"; "2024-25"; "2024-25 Q1"; "2024-25 Q2"]%string)
           /\ prepare_starts_table_data data min_starts
              = Ok (["Provider"; "2022-23"; "2023-24"; "2024-25"; "2024-25 Q1";
                     "2024-25 Q2"]%string, rows, title)).
Proof.
  split; [|split; [|split]].
  - intros aggregated m sorted quarterly final H.
    pose proof (plan_columns_final _ _ _ _ _ H) as [Hplain Hfirst].
    apply plan_columns_inv in H as (Hs & Hq & _).
    apply sorted_year_keys_spec in Hs as [Hp Hss].
    repeat split; assumption.
  - exact sort_key_plain.
  - exact sort_key_quarter_key.
  - exact column_scenario_general.
Qed.

(** ** Instances *)

Lemma total_row_invariant_witness :
  (exists totals shown pooled,
      [[CStr "**Total**"; CStr "**19**"; CStr "**16**"; CStr "**3**"];
       [CStr "A"; CInt 10; CInt 10; CInt 0];
       [CStr "C"; CInt 6; CInt 6; CInt 0];
       [CStr "All other providers"; CInt 3; CInt 0; CInt 3]]
      = bold_row "**Total**" totals :: map int_row shown ++ map int_row pooled
      /\ forall i, (i < length totals)%nat ->
                   nth i totals 0 = column_sum i shown + column_sum i pooled)
  /\ (exists totals shown pooled excluded,
        [[CStr "FOUNDERS & CODERS"; CInt 2; CInt 3; CInt 4; CInt 1; CInt 2; CInt 1];
         [CStr "Y"; CInt 4; CInt 0; CInt 0; CInt 0; CInt 0; CInt 0];
         [CStr "All other providers"; CInt 0; CInt 0; CInt 7; CInt 7; CInt 0; CInt 0];
         [CStr "**Total**"; CStr "**6**"; CStr "**3**"; CStr "**11**";
          CStr "**8**"; CStr "**2**"; CStr "**1**"];
         [CStr "CITY COLLEGE OF LONDON (closed)"; CInt 0; CInt 0; CInt 7;
          CInt 7; CInt 0; CInt 0]]
        = map int_row shown ++ map int_row pooled
          ++ [bold_row "**Total**" totals] ++ map int_row excluded
        /\ (forall i, (i < length totals)%nat ->
                      nth i totals 0 = column_sum i shown + column_sum i pooled)
        /\ Forall (fun r => exists name,
                       In name rogue_provider_names
                       /\ fst r = Str.cat name " (closed)")
             excluded).
Proof.
  destruct total_row_invariant as (Hstarts & Hlondon & Hscenario).
  split.
  - destruct (Hstarts threshold_scenario 3
                ["Provider"; "2024-25"; "2024-25 Q1"; "2024-25 Q2"]%string
                [[CStr "**Total**"; CStr "**19**"; CStr "**16**"; CStr "**3**"];
                 [CStr "A"; CInt 10; CInt 10; CInt 0];
                 [CStr "C"; CInt 6; CInt 6; CInt 0];
                 [CStr "All other providers"; CInt 3; CInt 0; CInt 3]]
                "ST0116 Software developer starts"%string)
      as (totals & shown & pooled & Hrows & _ & _ & _ & Hsum).
    + vm_compute. reflexivity.
    + discriminate.
    + exists totals, shown, pooled. split; assumption.
  - destruct (Hlondon closed_provider_scenario _ _ _ Hscenario)
      as (m & sorted & quarterly & year_keys & totals & shown & pooled & excluded
          & _ & _ & _ & Hrows & _ & _ & _ & Hsum & Hclosed & _).
    + discriminate.
    + exists totals, shown, pooled, excluded. repeat split; assumption.
Defined.

Lemma column_plan_order_witness :
  Permutation
    ["2022-23"; "2023-24"; "2024-25 Q1"; "2024-25 Q2"]%string
    (all_year_keys
       (aggregate_starts_by_provider_year column_scenario (Some "2024-25"%string)))
  /\ StronglySorted key_le ["2022-23"; "2023-24"; "2024-25 Q1"; "2024-25 Q2"]%string.
Proof.
  destruct column_plan_order as [H _].
  destruct (H (aggregate_starts_by_provider_year column_scenario (Some "2024-25"%string))
              "2024-25"%string
              ["2022-23"; "2023-24"; "2024-25 Q1"; "2024-25 Q2"]%string
              ["2024-25 Q1"; "2024-25 Q2"]%string
              ["2022-23"; "2023-24"; "2024-25"; "2024-25 Q1"; "2024-25 Q2"]%string)
    as (Hperm & Hsorted & _).
  - vm_compute. reflexivity.
  - split; assumption.
Defined.

Lemma threshold_partition_witness :
  exists m quarterly year_keys major other total_row,
    Permutation (major ++ other)
      (aggregate_starts_by_provider_year threshold_scenario (Some m))
    /\ [[CStr "**Total**"; CStr "**19**"; CStr "**16**"; CStr "**3**"];
        [CStr "A"; CInt 10; CInt 10; CInt 0];
        [CStr "C"; CInt 6; CInt 6; CInt 0];
        [CStr "All other providers"; CInt 3; CInt 0; CInt 3]]
       = total_row
         :: map (fun pd =>
                   int_row (fst pd, map (row_value m quarterly (snd pd)) year_keys))
              major
         ++ match other with
            | [] => []
            | _ :: _ =>
                [int_row
                   ("All other providers"%string,
                    map (fun k =>
                           sum_Z (map (fun pd => row_value m quarterly (snd pd) k)
                                    other))
                      year_keys)]
            end.
Proof.
  destruct threshold_partition as [H _].
  destruct (H threshold_scenario 3
              ["Provider"; "2024-25"; "2024-25 Q1"; "2024-25 Q2"]%string
              [[CStr "**Total**"; CStr "**19**"; CStr "**16**"; CStr "**3**"];
               [CStr "A"; CInt 10; CInt 10; CInt 0];
               [CStr "C"; CInt 6; CInt 6; CInt 0];
               [CStr "All other providers"; CInt 3; CInt 0; CInt 3]]
              "ST0116 Software developer starts"%string)
    as (m & quarterly & year_keys & major & other & _ & Hperm & _ & _ & _ & _ & _
        & total_row & Hrows).
  - vm_compute. reflexivity.
  - discriminate.
  - exists m, quarterly, year_keys, major, other, total_row. split; assumption.
Defined.

Lemma find_latest_file_greatest_witness :
  exists earlier later,
    latest_candidates two_versions "app-underlying-data-starts-*.csv"
      "apprenticeships" "supporting-files"
    = earlier
      ++ "apprenticeships_2024-25/supporting-files/app-underlying-data-starts-202425-q1.csv"%string
      :: later
    /\ (forall f, In f earlier ->
          triple_lt (extract_year_quarter_from_filename (Path.basename f))
            (2024, 25, 1)).
Proof.
  destruct (find_latest_file_greatest two_versions "app-underlying-data-starts-*.csv"
              "apprenticeships" "supporting-files") as [H Hscenario].
  destruct H as [_ H].
  - intros f Hf. vm_compute in Hf.
    repeat (destruct Hf as [<- | Hf]; [reflexivity|]). contradiction.
  - destruct H as (earlier & chosen & later & Heq & Hfound & Hearlier & _).
    + vm_compute. discriminate.
    + rewrite Hscenario in Hfound. injection Hfound as <-.
      exists earlier, later. split; [exact Heq | exact Hearlier].
Defined.

Lemma extract_year_quarter_spec_witness :
  2023 = digits_value (String.substring 0 4 "202324")
  /\ 24 = digits_value (String.substring 4 2 "202324")
  /\ exists name,
      In (name, 11) month_map
      /\ occurs_ignoring_case name "app-underlying-data-monthly-202324-NOV.csv".
Proof.
  destruct extract_year_quarter_spec as (_ & H & _).
  pose proof (H "app-underlying-data-monthly-202324-NOV.csv"%string
                "app-underlying-data-monthly-"%string "202324"%string
                "-NOV.csv"%string) as Hf.
  change (extract_year_quarter_from_filename
            "app-underlying-data-monthly-202324-NOV.csv")
    with (2023, 24, 11) in Hf.
  cbv beta iota in Hf.
  destruct Hf as (Hstart & Hend & _ & Hmonth).
  - reflexivity.
  - repeat split; reflexivity.
  - intros pre' run' post' Hrun.
    destruct (Nat.le_gt_cases (String.length "app-underlying-data-monthly-")
                (String.length pre')) as [Hle | Hgt]; [exact Hle|].
    exfalso. pose proof (digit_run_taken _ _ _ _ Hrun) as Ht.
    remember (String.length pre') as k eqn:Ek. clear Ek Hrun.
    cbn [String.length] in Hgt.
    do 28 (destruct k as [|k]; [vm_compute in Ht; discriminate|]). lia.
  - split; [assumption|]. split; [assumption|].
    destruct Hmonth as [Hsome _].
    + intros qpre d qpost Htok.
      destruct (search_quarter_complete _ _ _ _ Htok) as (d' & Hd').
      vm_compute in Hd'. discriminate.
    + apply Hsome. exists "nov"%string, 11. split.
      * unfold month_map. simpl. tauto.
      * exists "app-underlying-data-monthly-202324-"%string, "NOV"%string,
          ".csv"%string.
        split; [reflexivity|]. cbn [spells]. unfold eq_ignoring_case.
        repeat split; right; repeat split; left; reflexivity.
Defined.

Lemma zip_fallback_witness :
  extract_from_zip_if_needed archive_in_working_directory (fun _ => [])
    "app-underlying-data-starts-*.zip" "apprenticeships" "supporting-files"
  = (None, [])
  /\ exists f,
      find_latest_file archive_in_working_directory
        "app-underlying-data-starts-*.zip" "apprenticeships" "supporting-files"
      = Some f
      /\ In f (archive_in_working_directory "app-underlying-data-starts-*.zip").
Proof.
  apply (zip_fallback_ignores_working_directory archive_in_working_directory
           (fun _ => []) "app-underlying-data-starts-*.zip"
           "apprenticeships" "supporting-files").
  - intros folder Hin. vm_compute in Hin. contradiction.
  - vm_compute. discriminate.
Defined.

(** * Further properties of the aggregation *)

Lemma values_total_set (d : Dict.t Z) (k : string) (v : Z) :
  sum_Z (Dict.values (Dict.set d k v))
  = sum_Z (Dict.values d) - Dict.get_or d k 0 + v.
Proof.
  unfold Dict.values, Dict.get_or.
  induction d as [|[k' v'] d IH]; cbn [Dict.set Dict.get map snd].
  - rewrite sum_Z_cons. simpl. lia.
  - destruct (String.eqb k' k); cbn [map snd]; rewrite !sum_Z_cons.
    + lia.
    + rewrite IH. lia.
Qed.

Lemma matrix_total_set (aggregated : matrix) (p : string) (year_data : Dict.t Z) :
  matrix_total (Dict.set aggregated p year_data)
  = matrix_total aggregated
    - sum_Z (Dict.values (Dict.get_or aggregated p []))
    + sum_Z (Dict.values year_data).
Proof.
  unfold matrix_total, Dict.get_or.
  induction aggregated as [|[p' d'] aggregated IH];
    cbn [Dict.set Dict.get flat_map snd].
  - rewrite app_nil_r. simpl. lia.
  - destruct (String.eqb p' p); cbn [flat_map snd]; rewrite !sum_Z_app.
    + lia.
    + rewrite IH. lia.
Qed.

Lemma matrix_total_step (m : option string) (aggregated : matrix) (r : starts_record) :
  matrix_total (aggregate_step m aggregated r) = matrix_total aggregated + starts r.
Proof.
  rewrite aggregate_step_eq, matrix_total_set, values_total_set. lia.
Qed.

Lemma matrix_total_fold (m : option string) : forall data aggregated,
  matrix_total (fold_left (aggregate_step m) data aggregated)
  = matrix_total aggregated + sum_Z (map starts data).
Proof.
  induction data as [|r data IH]; intros aggregated; simpl; [lia|].
  rewrite IH, matrix_total_step. lia.
Qed.

(** X1. No record is lost or counted twice: the cells of the matrix sum
    to the sum of the measures of all records, with or without
    refinement. *)
Theorem aggregate_conserves_total (data : list starts_record) (m : option string) :
  matrix_total (aggregate_starts_by_provider_year data m) = sum_Z (map starts data).
Proof.
  unfold aggregate_starts_by_provider_year. rewrite matrix_total_fold. reflexivity.
Qed.

Lemma keys_set_new {V : Type} (d : Dict.t V) (k : string) (v : V) :
  Dict.keys (Dict.set d k v)
  = if Dict.mem d k then Dict.keys d else Dict.keys d ++ [k].
Proof.
  unfold Dict.mem, Dict.keys.
  induction d as [|[k' v'] d IH]; cbn [Dict.set Dict.get map fst app]; [reflexivity|].
  destruct (String.eqb k' k) eqn:E; cbn [map fst]; [reflexivity|].
  rewrite IH. destruct (Dict.get d k); reflexivity.
Qed.

Lemma providers_fold (m : option string) : forall data aggregated,
  Dict.keys (fold_left (aggregate_step m) data aggregated)
  = Dict.keys aggregated
    ++ filter (fun p => negb (mem_str p (Dict.keys aggregated)))
         (set_of (map provider_clean data)).
Proof.
  assert (Hmem : forall (l : list string) p, mem_str p l = true <-> In p l).
  { induction l as [|x l IH]; intros p; simpl; [split; [discriminate | tauto]|].
    rewrite orb_true_iff, IH, String.eqb_eq. tauto. }
  induction data as [|r data IH]; intros aggregated.
  - simpl. now rewrite app_nil_r.
  - cbn [fold_left map set_of]. rewrite IH, aggregate_step_eq, keys_set_new.
    set (p := provider_clean r). set (S := set_of (map provider_clean data)).
    cbn [filter]. destruct (Dict.mem aggregated p) eqn:Em.
    + assert (Hp : mem_str p (Dict.keys aggregated) = true)
        by now apply Hmem, mem_true_iff.
      rewrite Hp. cbn [negb]. f_equal.
      rewrite <- (filter_ext_in
                    (fun x => negb (String.eqb p x)
                              && negb (mem_str x (Dict.keys aggregated)))).
      * clear. induction S as [|x S IH]; [reflexivity|]. cbn [filter].
        destruct (negb (String.eqb p x)); cbn [filter andb]; rewrite IH; reflexivity.
      * intros x _. destruct (String.eqb_spec p x) as [<- | Hne]; [|reflexivity].
        now rewrite Hp.
    + assert (Hp : mem_str p (Dict.keys aggregated) = false).
      { destruct (mem_str p (Dict.keys aggregated)) eqn:E; [|reflexivity].
        apply Hmem, mem_true_iff in E. congruence. }
      rewrite Hp. cbn [negb]. rewrite <- app_assoc. cbn [app]. f_equal. f_equal.
      rewrite <- (filter_ext_in
                    (fun x => negb (String.eqb p x)
                              && negb (mem_str x (Dict.keys aggregated)))).
      * clear. induction S as [|x S IH]; [reflexivity|]. cbn [filter].
        destruct (negb (String.eqb p x)); cbn [filter andb]; rewrite IH; reflexivity.
      * intros x _.
        assert (E : mem_str x (Dict.keys aggregated ++ [p])
                    = mem_str x (Dict.keys aggregated) || String.eqb p x).
        { clear. induction (Dict.keys aggregated) as [|y l IH]; simpl.
          - now rewrite orb_false_r.
          - rewrite IH. now rewrite orb_assoc. }
        rewrite E. destruct (String.eqb p x), (mem_str x (Dict.keys aggregated));
          reflexivity.
Qed.

(** X2. The rows of the matrix are the distinct provider names in the
    order in which they first occur in the records. *)
Theorem aggregate_provider_order (data : list starts_record) (m : option string) :
  Dict.keys (aggregate_starts_by_provider_year data m)
  = set_of (map provider_clean data).
Proof.
  unfold aggregate_starts_by_provider_year. rewrite providers_fold. simpl.
  induction (set_of (map provider_clean data)) as [|x l IH]; simpl; congruence.
Qed.

(** X3. A cell depends on the records only through their multiset, and
    the matrix of two record sets put together is the cell-wise sum of
    their matrices. *)
Theorem aggregate_cells_additive (m : option string) (p k : string) :
  (forall a b : list starts_record,
      lookup (aggregate_starts_by_provider_year (a ++ b) m) p k
      = lookup (aggregate_starts_by_provider_year a m) p k
        + lookup (aggregate_starts_by_provider_year b m) p k)
  /\ (forall a b : list starts_record,
         Permutation a b ->
         lookup (aggregate_starts_by_provider_year a m) p k
         = lookup (aggregate_starts_by_provider_year b m) p k).
Proof.
  split.
  - intros a b. rewrite !lookup_aggregate, map_app, sum_Z_app. reflexivity.
  - intros a b H. rewrite !lookup_aggregate. apply sum_Z_perm.
    now apply Permutation_map.
Qed.

Lemma aggregate_cells_additive_witness :
  lookup (aggregate_starts_by_provider_year
            [scenario_record "P" "2024-25" 0 5; scenario_record "P" "2024-25" 1 3]
            (Some "2024-25"%string)) "P" "2024-25 Q1"
  = lookup (aggregate_starts_by_provider_year
              [scenario_record "P" "2024-25" 1 3; scenario_record "P" "2024-25" 0 5]
              (Some "2024-25"%string)) "P" "2024-25 Q1".
Proof.
  destruct (aggregate_cells_additive (Some "2024-25"%string) "P" "2024-25 Q1")
    as [_ H].
  apply H. apply perm_swap.
Defined.

(** * Stability of the sorts *)

Section Stability.
Context {K A : Type} (before : K -> K -> bool) (P : K -> bool).
Hypothesis same_class :
  forall a b, P a = true -> P b = true -> before a b = true.

Lemma ins_stable (x : K * A) (l : list (K * A)) :
  filter (fun y => P (fst y)) (ins before x l)
  = filter (fun y => P (fst y)) (x :: l).
Proof.
  induction l as [|y t IH]; [reflexivity|].
  cbn [ins]. destruct (before (fst x) (fst y)) eqn:E; [reflexivity|].
  cbn [filter] in *. rewrite IH.
  destruct (P (fst x)) eqn:Px; [|reflexivity].
  destruct (P (fst y)) eqn:Py; [|reflexivity].
  rewrite (same_class _ _ Px Py) in E. discriminate.
Qed.

Lemma sort_keyed_stable (l : list (K * A)) :
  filter (fun y => P (fst y)) (sort_keyed before l)
  = filter (fun y => P (fst y)) l.
Proof.
  induction l as [|x t IH]; [reflexivity|].
  cbn [sort_keyed]. rewrite ins_stable. cbn [filter]. now rewrite IH.
Qed.

End Stability.

Lemma filter_map_snd {K A : Type} (f : A -> bool) (l : list (K * A)) :
  filter f (map snd l) = map snd (filter (fun y => f (snd y)) l).
Proof.
  induction l as [|x l IH]; [reflexivity|].
  cbn [map filter]. destruct (f (snd x)); cbn [map]; now rewrite IH.
Qed.

Lemma sort_by_key_stable {K A : Type} (before : K -> K -> bool) (P : K -> bool)
  (key : A -> K) (l : list A) :
  (forall a b, P a = true -> P b = true -> before a b = true) ->
  filter (fun x => P (key x)) (map snd (sort_keyed before (map (fun x => (key x, x)) l)))
  = filter (fun x => P (key x)) l.
Proof.
  intros HP. rewrite filter_map_snd.
  set (keyed := map (fun x => (key x, x)) l).
  assert (Hk : forall y, In y (sort_keyed before keyed) -> fst y = key (snd y)).
  { intros y Hy. apply (Permutation_in _ (sort_keyed_perm before keyed)) in Hy.
    subst keyed. apply in_map_iff in Hy as (x & <- & _). reflexivity. }
  rewrite (filter_ext_in (fun y => P (key (snd y))) (fun y => P (fst y)))
    by (intros y Hy; now rewrite (Hk y Hy)).
  rewrite (sort_keyed_stable before P HP). subst keyed.
  clear. induction l as [|x l IH]; [reflexivity|].
  simpl. destruct (P (key x)); simpl; now rewrite IH.
Qed.

(** X4. The sort of the individually shown providers is stable:
    providers with the same total for the most recent period keep the
    order they have in the matrix. *)
Theorem sort_by_recent_stable (m : string) (providers : list (string * Dict.t Z))
  (v : Z) :
  filter (fun pd => recent_starts m (snd pd) =? v) (sort_by_recent m providers)
  = filter (fun pd => recent_starts m (snd pd) =? v) providers.
Proof.
  unfold sort_by_recent.
  apply (sort_by_key_stable desc (fun k => k =? v)
           (fun pd => recent_starts m (snd pd))).
  intros a b Ha Hb. apply Z.eqb_eq in Ha, Hb. subst. unfold desc. apply Z.leb_refl.
Qed.

(** X5. The sort of the candidate files is stable: files with the same
    (yearStart, yearEnd, subPeriod) stay in the order of discovery, and
    the sorted list is a rearrangement of the candidates. *)
Theorem sort_newest_first_stable (files : list string) (version : Z * Z * Z) :
  filter (fun f => triple_eqb (file_sort_key f) version) (sort_newest_first files)
  = filter (fun f => triple_eqb (file_sort_key f) version) files
  /\ Permutation (sort_newest_first files) files.
Proof.
  split.
  - unfold sort_newest_first.
    apply (sort_by_key_stable (fun a b => triple_leb b a)
             (fun k => triple_eqb k version) file_sort_key).
    intros [[a1 a2] a3] [[b1 b2] b3]. destruct version as [[v1 v2] v3].
    unfold triple_eqb, triple_leb. rewrite !andb_true_iff, !Z.eqb_eq.
    intros [[-> ->] ->] [[-> ->] ->].
    rewrite !Z.eqb_refl, Z.leb_refl. cbn [andb]. now rewrite !orb_true_r.
  - unfold sort_newest_first.
    eapply perm_trans; [apply Permutation_map, sort_keyed_perm|].
    rewrite map_map. cbn [snd]. rewrite map_id. apply Permutation_refl.
Qed.

(** * Records without quarter *)

Lemma year_key_of_no_quarter (m : option string) (r : starts_record) :
  quarter r <= 0 -> year_key_of m r = year r.
Proof.
  intros Hq. unfold year_key_of. destruct m as [m|]; [|reflexivity].
  destruct (Z.ltb_spec 0 (quarter r)); [lia|]. now rewrite andb_false_r.
Qed.

Lemma quarterly_keys_nil (m : string) (keys : list string) :
  (forall k, In k keys -> Str.startswith k m && Str.contains " Q" k = false) ->
  quarterly_keys_of m keys = [].
Proof.
  intros H. unfold quarterly_keys_of.
  induction keys as [|k keys IH]; [reflexivity|].
  cbn [filter]. rewrite (H k (or_introl eq_refl)). apply IH.
  intros k' Hk'. apply H. now right.
Qed.

Lemma plain_year_not_quarterly (data : list starts_record) (m : string) (r : starts_record) :
  hd_error (rev (sorted_base_years data)) = Some m ->
  Str.contains " Q" m = false -> In r data ->
  Str.startswith (year r) m && Str.contains " Q" (year r) = false.
Proof.
  intros Hm Hplain Hr. destruct (string_dec (year r) m) as [-> | Hne].
  - rewrite Hplain. apply andb_false_r.
  - now rewrite (other_year_not_recent data m r Hm Hr Hne).
Qed.

Lemma row_value_no_quarterly (m : string) (year_data : Dict.t Z) :
  row_value m [] year_data m = 0.
Proof. unfold row_value. now rewrite String.eqb_refl. Qed.

Lemma total_for_no_quarterly (m : string) (providers : list (string * Dict.t Z)) :
  total_for m [] providers m = 0.
Proof. unfold total_for. now rewrite String.eqb_refl. Qed.

Lemma zero_column_of_table (data : list starts_record) (min_starts : Z)
  (headers : list string) (rows : list (list cell)) (title : string) (m : string) :
  prepare_starts_table_data data min_starts = Ok (headers, rows, title) ->
  hd_error (rev (sorted_base_years data)) = Some m ->
  Str.contains " Q" m = false ->
  (forall r, In r data -> quarter r <= 0) ->
  exists year_keys,
    headers = "Provider"%string :: map header_of year_keys
    /\ In m year_keys
    /\ rows <> []
    /\ forall row i,
        In row rows -> nth_error year_keys i = Some m ->
        nth_error row (S i) = Some (CInt 0)
        \/ nth_error row (S i) = Some (CStr (bold 0)).
Proof.
  intros H Hm Hplain Hq.
  assert (Hne : data <> []).
  { intros ->. discriminate. }
  destruct (prepare_starts_inv _ _ _ _ _ H Hne)
    as (m' & sorted & quarterly & final & Hm' & Hplan & -> & Hrows).
  rewrite Hm in Hm'. injection Hm' as <-. cbv zeta in Hrows.
  exists final. split; [reflexivity|].
  pose proof Hplan as Hinv. apply plan_columns_inv in Hinv as (Hs & Hquart & _).
  apply sorted_year_keys_spec in Hs as [Hperm _].
  assert (Hkeys : forall k, In k sorted -> exists r, In r data /\ year r = k).
  { intros k Hk. apply (Permutation_in _ Hperm) in Hk.
    apply all_year_keys_aggregate in Hk as (r & Hr & <-).
    exists r. split; [assumption|]. symmetry. now apply year_key_of_no_quarter, Hq. }
  assert (Eq : quarterly_keys_of m sorted = []).
  { apply quarterly_keys_nil. intros k Hk.
    destruct (Hkeys k Hk) as (r & Hr & <-).
    now apply (plain_year_not_quarterly data m r). }
  rewrite Eq in Hquart. subst quarterly. split; [|split].
  - apply (final_includes_sorted _ _ _ _ _ Hplan).
    apply (Permutation_in _ (Permutation_sym Hperm)).
    destruct (most_recent_year_spec _ _ Hm) as [(r & Hr & Hy) _].
    apply all_year_keys_aggregate. exists r. split; [assumption|].
    rewrite <- Hy. now apply year_key_of_no_quarter, Hq.
  - rewrite Hrows. discriminate.
  - intros row i Hrow Hi. rewrite Hrows in Hrow.
    assert (Hin : In m final) by (eapply nth_error_In; eassumption).
    destruct Hrow as [<- | Hrow].
    + right. unfold bold_totals_row. cbn [nth_error].
      rewrite (map_nth_error _ _ _ Hi), totals_dict_get by assumption.
      now rewrite total_for_no_quarterly.
    + left. apply in_app_or in Hrow as [Hrow | Hrow].
      * apply in_map_iff in Hrow as (pd & <- & _).
        unfold provider_row, row_values. cbn [nth_error].
        rewrite (map_nth_error _ _ _ Hi). now rewrite row_value_no_quarterly.
      * destruct (filter _ _) as [|pd other] eqn:Eo in Hrow; [contradiction|].
        destruct Hrow as [<- | []].
        unfold totals_row. cbn [nth_error].
        rewrite (map_nth_error _ _ _ Hi), totals_dict_get by assumption.
        now rewrite total_for_no_quarterly.
Qed.

(** X6. When the years are plain, no record has a positive quarter and
    the numbers are printable, [prepare_starts_table_data] returns a
    table with a column for the most recent year, and every row, the
    total row included, shows 0 in that column, whatever the records of
    that year hold. *)
Theorem no_quarters_zero_column (data : list starts_record) (min_starts : Z)
  (m : string) :
  printable data ->
  (forall r, In r data -> Str.contains " Q" (year r) = false) ->
  (forall r, In r data -> quarter r <= 0) ->
  hd_error (rev (sorted_base_years data)) = Some m ->
  exists headers rows title year_keys,
    prepare_starts_table_data data min_starts = Ok (headers, rows, title)
    /\ headers = "Provider"%string :: map header_of year_keys
    /\ In m year_keys
    /\ rows <> []
    /\ forall row i,
        In row rows -> nth_error year_keys i = Some m ->
        nth_error row (S i) = Some (CInt 0)
        \/ nth_error row (S i) = Some (CStr (bold 0)).
Proof.
  intros _ Hplain Hq Hm.
  destruct (prepare_starts_ok data min_starts Hplain) as ([[headers rows] title] & Hok).
  assert (Hmplain : Str.contains " Q" m = false).
  { destruct (most_recent_year_spec _ _ Hm) as [(r & Hr & <-) _]. now apply Hplain. }
  destruct (zero_column_of_table data min_starts headers rows title m Hok Hm Hmplain Hq)
    as (year_keys & Hh & Hin & Hne & Hzero).
  exists headers, rows, title, year_keys. repeat split; assumption.
Qed.

Lemma no_quarters_zero_column_witness :
  exists headers rows title year_keys,
    prepare_starts_table_data no_quarter_scenario STARTS_MIN_THRESHOLD
    = Ok (headers, rows, title)
    /\ headers = "Provider"%string :: map header_of year_keys
    /\ In "2024-25"%string year_keys
    /\ rows <> [].
Proof.
  destruct (no_quarters_zero_column no_quarter_scenario STARTS_MIN_THRESHOLD
              "2024-25"%string)
    as (headers & rows & title & year_keys & Hok & Hh & Hin & Hne & _).
  - unfold printable. split; [|split].
    + intros r [<- | []]. reflexivity.
    + intros r [<- | []]. vm_compute. reflexivity.
    + vm_compute. reflexivity.
  - intros r [<- | []]. reflexivity.
  - intros r [<- | []]. simpl. lia.
  - reflexivity.
  - exists headers, rows, title, year_keys. repeat split; assumption.
Defined.

Lemma final_year_keys_raises (m : string) (keys : list string) :
  (exists k, In k keys /\ Str.contains " Q" k = true) ->
  final_year_keys m [] keys = Raise IndexError.
Proof.
  induction keys as [|k keys IH]; intros (k0 & Hin & Hc); [contradiction|].
  cbn [final_year_keys]. destruct (Str.contains " Q" k) eqn:Ek; [reflexivity|].
  cbn [negb]. rewrite IH; [reflexivity|].
  destruct Hin as [-> | Hin]; [congruence | now exists k0].
Qed.

Lemma all_year_keys_adjusted (aggregated : matrix) (k : string) :
  well_formed aggregated ->
  In k (all_year_keys (apply_founders_coders_adjustments aggregated)) ->
  In k (all_year_keys aggregated) \/ In k (Dict.keys fc_adjustments).
Proof.
  intros Hwf Hk. apply all_year_keys_in in Hk as (p & d & Hin & Hkd).
  destruct (apply_adjustments_well_formed fc_name fc_adjustments _ Hwf) as [Hnd _].
  pose proof (get_or_in _ _ _ Hnd Hin []) as Hg.
  fold (apply_founders_coders_adjustments aggregated) in Hg.
  rewrite <- Hg in Hkd. apply keys_apply_adjustments in Hkd as [Hkd | [_ Hkd]].
  - left. now apply (all_year_keys_row _ p).
  - now right.
Qed.

Lemma fc_keys_sortable (k : string) :
  In k (Dict.keys fc_adjustments) -> exists sk, sort_key k = Ok sk.
Proof.
  simpl. intros H.
  repeat (destruct H as [<- | H]; [eexists; vm_compute; reflexivity|]).
  contradiction.
Qed.

(** X7. The London table cannot be built from records without quarters:
    when no record has a positive quarter, the years are plain and no
    adjusted quarterly key belongs to the most recent period, the loop
    over the sorted keys reads [quarterly_keys[0]] of an empty list at an
    adjusted quarterly key and raises [IndexError]. *)
Theorem london_without_quarters_raises (data : list starts_record) (m : string) :
  hd_error (rev (sorted_base_years data)) = Some m ->
  (forall r, In r data -> quarter r <= 0) ->
  (forall r, In r data -> Str.contains " Q" (year r) = false) ->
  (forall k, In k (Dict.keys fc_adjustments) ->
             Str.startswith k m && Str.contains " Q" k = false) ->
  prepare_london_sme_table_data data = Raise IndexError.
Proof.
  intros Hm Hq Hplain Hadj.
  assert (Hmplain : Str.contains " Q" m = false).
  { destruct (most_recent_year_spec _ _ Hm) as [(r & Hr & <-) _]. now apply Hplain. }
  assert (Hnotq : forall r, In r data ->
                    Str.startswith (year r) m && Str.contains " Q" (year r) = false).
  { intros r Hr. now apply (plain_year_not_quarterly data m r). }
  unfold prepare_london_sme_table_data.
  destruct data as [|r0 data0] eqn:Ed; [discriminate|]. rewrite <- Ed in *.
  destruct (rev (sorted_base_years data)) as [|m' t]; [discriminate|].
  injection Hm as ->.
  set (aggregated := apply_founders_coders_adjustments
                       (aggregate_starts_by_provider_year data (Some m))).
  assert (Hkeys : forall k, In k (all_year_keys aggregated) ->
                    (exists r, In r data /\ year r = k)
                    \/ In k (Dict.keys fc_adjustments)).
  { intros k Hk.
    apply all_year_keys_adjusted in Hk as [Hk | Hk];
      [|now right | apply aggregate_well_formed].
    left. apply all_year_keys_aggregate in Hk as (r & Hr & <-).
    exists r. split; [assumption|]. symmetry. now apply year_key_of_no_quarter, Hq. }
  assert (Hplan : plan_columns aggregated m = Raise IndexError);
    [|now rewrite Hplan].
  unfold plan_columns.
  destruct (mapM_keyed_ok sort_key (all_year_keys aggregated)) as (keyed & Hkeyed).
  { apply Forall_forall. intros k Hk. destruct (Hkeys k Hk) as [(r & Hr & <-) | Hfc].
    - exists (year r, 0). now apply sort_key_plain, Hplain.
    - now apply fc_keys_sortable. }
  unfold sorted_year_keys. rewrite Hkeyed. cbn [bind].
  set (sorted := map snd (sort_keyed tuple_leb keyed)).
  assert (Hperm : Permutation sorted (all_year_keys aggregated)).
  { destruct (mapM_keyed _ _ _ Hkeyed) as [Hs _]. rewrite <- Hs. subst sorted.
    apply Permutation_map, sort_keyed_perm. }
  rewrite quarterly_keys_nil.
  - rewrite final_year_keys_raises; [reflexivity|].
    exists "202425 Q1"%string. split; [|reflexivity].
    apply (Permutation_in _ (Permutation_sym Hperm)).
    apply fc_key_observed. simpl. tauto.
  - intros k Hk. apply (Permutation_in _ Hperm) in Hk.
    destruct (Hkeys k Hk) as [(r & Hr & <-) | Hfc].
    + now apply Hnotq.
    + now apply Hadj.
Qed.

Lemma london_without_quarters_raises_witness :
  prepare_london_sme_table_data london_no_quarter_scenario = Raise IndexError.
Proof.
  apply (london_without_quarters_raises london_no_quarter_scenario "202324").
  - reflexivity.
  - intros r [<- | []]. simpl. lia.
  - intros r [<- | []]. reflexivity.
  - simpl. intros k H.
    repeat (destruct H as [<- | H]; [reflexivity|]). contradiction.
Defined.

(** * Major providers of the London table *)

Lemma fold_max_ge (t : Z) : forall (l : list Z) (a : Z),
  t <= fold_left Z.max l a <-> t <= a \/ exists v, In v l /\ t <= v.
Proof.
  induction l as [|x l IH]; intros a; cbn [fold_left].
  - split; [now left | intros [H | (v & [] & _)]; assumption].
  - rewrite IH. split.
    + intros [H | (v & Hv & Ht)].
      * destruct (Z.max_spec a x) as [[_ E] | [_ E]]; rewrite E in H.
        -- right. exists x. split; [now left | assumption].
        -- now left.
      * right. exists v. split; [now right | assumption].
    + intros [H | (v & [<- | Hv] & Ht)].
      * left. lia.
      * left. lia.
      * right. now exists v.
Qed.

Lemma max_default_ge (t : Z) (l : list Z) :
  0 < t -> (t <= max_default l <-> exists v, In v l /\ t <= v).
Proof.
  intros Ht. destruct l as [|a l]; cbn [max_default].
  - split; [lia | intros (v & [] & _)].
  - rewrite fold_max_ge. split.
    + intros [H | (v & Hv & H)]; [exists a | exists v]; split;
        auto; [now left | now right].
    + intros (v & [<- | Hv] & H); [now left | right; now exists v].
Qed.

(** X8. In the London table a provider is a major provider exactly when
    one of its plain-year cells holds 4 starts or more: the quarterly
    cells of the most recent period never count, so a provider that has
    quarterly cells only is pooled whatever its size. *)
Theorem is_major_sme_spec (pd : string * Dict.t Z) :
  (is_major_sme pd = true
   <-> exists k v, In (k, v) (snd pd) /\ Str.contains " Q" k = false /\ 4 <= v)
  /\ ((forall k v, In (k, v) (snd pd) -> Str.contains " Q" k = true) ->
      is_major_sme pd = false).
Proof.
  assert (Hiff : is_major_sme pd = true
                 <-> exists k v, In (k, v) (snd pd)
                                 /\ Str.contains " Q" k = false /\ 4 <= v).
  { unfold is_major_sme, max_starts. rewrite Z.leb_le, max_default_ge by lia. split.
    - intros (v & Hv & H4). apply in_map_iff in Hv as ([k v'] & <- & Hin).
      apply filter_In in Hin as [Hin Hc]. apply negb_true_iff in Hc.
      now exists k, v'.
    - intros (k & v & Hin & Hc & H4). exists v. split; [|assumption].
      apply in_map_iff. exists (k, v). split; [reflexivity|].
      apply filter_In. split; [assumption|]. cbn [fst]. now rewrite Hc. }
  split; [exact Hiff|].
  intros Hall. apply not_true_is_false. intros E.
  apply Hiff in E as (k & v & Hin & Hc & _). rewrite (Hall k v Hin) in Hc. discriminate.
Qed.

Lemma is_major_sme_spec_witness :
  is_major_sme ("BIG"%string, [("202425 Q1"%string, 100); ("202425 Q2"%string, 50)])
  = false.
Proof.
  apply (proj2 (is_major_sme_spec
                  ("BIG"%string,
                   [("202425 Q1"%string, 100); ("202425 Q2"%string, 50)]))).
  intros k v H. simpl in H.
  repeat (destruct H as [[= <- <-] | H]; [reflexivity|]). contradiction.
Defined.

(** * Academic years and counts *)

Lemma digits_only_digits (s : string) : all_digits (Str.digits_only s) = true.
Proof.
  induction s as [|c s IH]; [reflexivity|].
  cbn [Str.digits_only]. destruct (Str.is_digit c) eqn:E; [|exact IH].
  now rewrite all_digits_cons, E.
Qed.

Lemma digits_only_id (s : string) : all_digits s = true -> Str.digits_only s = s.
Proof.
  induction s as [|c s IH]; intros H; [reflexivity|].
  rewrite all_digits_cons in H. apply andb_true_iff in H as [Hc Hs].
  cbn [Str.digits_only]. now rewrite Hc, (IH Hs).
Qed.

Lemma six_digits_formatted (d : string) :
  String.length d = 6%nat -> all_digits d = true ->
  Str.digits_only
    (Str.cat (String.substring 0 4 d) (Str.cat "-" (String.substring 4 2 d))) = d
  /\ String.length
       (Str.cat (String.substring 0 4 d) (Str.cat "-" (String.substring 4 2 d)))
     = 7%nat
  /\ String.get 4
       (Str.cat (String.substring 0 4 d) (Str.cat "-" (String.substring 4 2 d)))
     = Some "-"%char.
Proof.
  intros Hlen Hd.
  destruct d as [|c1 [|c2 [|c3 [|c4 [|c5 [|c6 [|c7 d]]]]]]]; try discriminate.
  rewrite !all_digits_cons in Hd.
  repeat (apply andb_true_iff in Hd as [? Hd]).
  cbn [String.substring String.append Str.digits_only String.length String.get].
  repeat match goal with H : Str.is_digit _ = true |- _ => rewrite H; clear H end.
  repeat split.
Qed.

(** X9. On ASCII text [format_academic_year] is idempotent and keeps the
    digits of its argument; on an argument with exactly six digits the
    result has seven characters with the hyphen after the fourth. *)
Theorem format_academic_year_idempotent (year : string) :
  ascii_text year = true ->
  format_academic_year (format_academic_year year) = format_academic_year year
  /\ Str.digits_only (format_academic_year year) = Str.digits_only year
  /\ (String.length (Str.digits_only year) = 6%nat ->
      String.length (format_academic_year year) = 7%nat
      /\ String.get 4 (format_academic_year year) = Some "-"%char).
Proof.
  intros _.
  destruct (Nat.eqb_spec (String.length (Str.digits_only year)) 6) as [E | E].
  - destruct (six_digits_formatted _ E (digits_only_digits year)) as (Hd & Hl & Hg).
    assert (Hf : format_academic_year year
                 = Str.cat (String.substring 0 4 (Str.digits_only year))
                     (Str.cat "-" (String.substring 4 2 (Str.digits_only year)))).
    { unfold format_academic_year. now rewrite E. }
    rewrite Hf. split; [|split; [exact Hd | intros _; now split]].
    unfold format_academic_year. rewrite Hd, E. reflexivity.
  - assert (Hf : format_academic_year year = year).
    { unfold format_academic_year.
      destruct (Nat.eqb_spec (String.length (Str.digits_only year)) 6);
        [contradiction | reflexivity]. }
    rewrite !Hf. split; [reflexivity|]. split; [reflexivity | intros H; contradiction].
Qed.

Lemma format_academic_year_witness :
  format_academic_year "202324" = "2023-24"%string
  /\ String.length (format_academic_year "202324") = 7%nat
  /\ String.get 4 (format_academic_year "202324") = Some "-"%char.
Proof.
  split; [reflexivity|].
  apply (proj2 (proj2 (format_academic_year_idempotent "202324" eq_refl))).
  reflexivity.
Defined.

Lemma uint_of_string_digits : forall s,
  all_digits s = true -> exists d, NilEmpty.uint_of_string s = Some d.
Proof.
  induction s as [|c s IH]; intros H; [now exists Decimal.Nil|].
  rewrite all_digits_cons in H. apply andb_true_iff in H as [Hc Hs].
  destruct (IH Hs) as (d & Hd). cbn [NilEmpty.uint_of_string]. rewrite Hd.
  destruct c as [[] [] [] [] [] [] [] []]; try discriminate Hc;
    cbn; eauto.
Qed.

Lemma to_Z_digits (s : string) :
  all_digits s = true -> s <> EmptyString ->
  exists n, Str.to_Z s = Some n /\ 0 <= n.
Proof.
  intros Hd Hne. unfold Str.to_Z. rewrite (int_strip_digits _ Hd).
  destruct s as [|c t]; [congruence|].
  assert (Hc : Str.is_digit c = true).
  { rewrite all_digits_cons in Hd. now apply andb_true_iff in Hd as [Hc _]. }
  rewrite (digit_not_char c "+" Hc eq_refl), (digit_not_char c "-" Hc eq_refl).
  unfold Str.unsigned_literal.
  rewrite (literal_digits_digits _ false Hd) by now left.
  destruct (uint_of_string_digits _ Hd) as (d & ->).
  exists (Z.of_uint d). split; [reflexivity|].
  unfold Z.of_uint. apply N2Z.is_nonneg.
Qed.

Lemma isdigit_true (s : string) :
  isdigit s = true <-> all_digits s = true /\ s <> EmptyString.
Proof.
  destruct s as [|c s]; cbn [isdigit].
  - split; [discriminate | intros [_ H]; congruence].
  - split; [intros H; split; [assumption | discriminate] | tauto].
Qed.

Lemma of_Z_nonneg_digits (n : Z) :
  0 <= n -> all_digits (Str.of_Z n) = true /\ Str.of_Z n <> EmptyString.
Proof.
  intros Hn. destruct (Z.eq_dec n 0) as [-> | Hne].
  - split; [reflexivity | discriminate].
  - split; [apply of_Z_digits | apply of_Z_nonempty]; lia.
Qed.

Lemma parse_positions_default_or_nonneg (s : string) (default : Z) :
  parse_positions (PyStr s) default = default
  \/ 0 <= parse_positions (PyStr s) default.
Proof.
  unfold parse_positions, limited_int.
  destruct (isdigit (Str.strip s)) eqn:E; [|now left].
  destruct (String.length (Str.digits_only (Str.strip s)) <=? max_str_digits)%nat;
    [|now left].
  apply isdigit_true in E as [Hd Hne].
  destruct (to_Z_digits _ Hd Hne) as (n & -> & Hn). now right.
Qed.

(** X10. [parse_positions] on text: the decimal numeral of a count
    [n >= 0] of at most 4300 digits is read back as [n]; a string of
    more than 4300 digits and the numeral of a negative number are
    replaced by the default; and whatever the text the result is the
    default or a non-negative number. *)
Theorem parse_positions_text :
  (forall n default,
      0 <= n -> (String.length (Str.of_Z n) <= max_str_digits)%nat ->
      parse_positions (PyStr (Str.of_Z n)) default = n)
  /\ (forall s default,
         all_digits s = true -> (max_str_digits < String.length s)%nat ->
         parse_positions (PyStr s) default = default)
  /\ (forall n default, n < 0 -> parse_positions (PyStr (Str.of_Z n)) default = default)
  /\ (forall s default,
         parse_positions (PyStr s) default = default
         \/ 0 <= parse_positions (PyStr s) default).
Proof.
  split; [|split; [|split]].
  - intros n default Hn Hlen. unfold parse_positions, limited_int.
    destruct (of_Z_nonneg_digits n Hn) as [Hd Hne].
    rewrite (strip_digits _ Hd).
    rewrite (proj2 (isdigit_true _) (conj Hd Hne)).
    rewrite (digits_only_id _ Hd).
    apply Nat.leb_le in Hlen. rewrite Hlen.
    destruct (Z.eq_dec n 0) as [-> | H0]; [reflexivity|].
    rewrite to_Z_of_Z by lia. reflexivity.
  - intros s default Hd Hlen. unfold parse_positions, limited_int.
    rewrite (strip_digits _ Hd), (digits_only_id _ Hd).
    apply Nat.leb_gt in Hlen. rewrite Hlen.
    now destruct (isdigit s).
  - intros n default Hn. destruct n as [|p|p]; try lia.
    unfold parse_positions.
    assert (E : Str.of_Z (Zneg p)
                = String "-" (NilEmpty.string_of_uint (Pos.to_uint p)))
      by reflexivity.
    rewrite E.
    assert (Hs : Str.strip (String "-" (NilEmpty.string_of_uint (Pos.to_uint p)))
                 = String "-" (NilEmpty.string_of_uint (Pos.to_uint p))).
    { unfold Str.strip. cbn [Str.lstrip]. change (Str.is_space "-") with false.
      cbn iota. cbn [Str.rstrip].
      rewrite (rstrip_digits _ (string_of_uint_digits _)).
      pose proof (DecimalPos.Unsigned.to_uint_nonnil p) as Hnil.
      destruct (Pos.to_uint p); try congruence; reflexivity. }
    rewrite Hs. reflexivity.
  - apply parse_positions_default_or_nonneg.
Qed.

Lemma parse_positions_text_witness :
  parse_positions (PyStr (Str.of_Z 42)) 1 = 42
  /\ parse_positions (PyStr (Str.of_Z (-3))) 1 = 1.
Proof.
  destruct parse_positions_text as (H1 & _ & H2 & _).
  split; [apply H1 | apply H2]; try lia.
  apply Nat.leb_le. vm_compute. reflexivity.
Defined.

(** * Bold markers *)

Lemma replace_no_star : forall s,
  Str.contains "*" s = false -> replace s "**" EmptyString = s.
Proof.
  unfold replace. induction s as [|c s IH]; intros H; [reflexivity|].
  rewrite contains_cons in H. apply orb_false_iff in H as [Hp Hs].
  rewrite prefix_one in Hp. cbn [replace_from].
  rewrite prefix_cons, Hp. cbn [andb]. now rewrite (IH Hs).
Qed.

Lemma replace_closing_marker : forall s,
  Str.contains "*" s = false ->
  replace (Str.cat s "**") "**" EmptyString = s.
Proof.
  unfold replace. induction s as [|c s IH]; intros H; [reflexivity|].
  rewrite contains_cons in H. apply orb_false_iff in H as [Hp Hs].
  rewrite prefix_one in Hp.
  change (Str.cat (String c s) "**") with (String c (Str.cat s "**")).
  cbn [replace_from]. rewrite prefix_cons, Hp. cbn [andb]. now rewrite (IH Hs).
Qed.

Lemma digits_no_star : forall s, all_digits s = true -> Str.contains "*" s = false.
Proof.
  induction s as [|c s IH]; intros H; [reflexivity|].
  rewrite all_digits_cons in H. apply andb_true_iff in H as [Hc Hs].
  rewrite contains_cons, (IH Hs), orb_false_r, prefix_one.
  rewrite Ascii.eqb_sym. apply (digit_not_char c "*" Hc eq_refl).
Qed.

Lemma of_Z_no_star (n : Z) : Str.contains "*" (Str.of_Z n) = false.
Proof.
  destruct n as [|p|p].
  - reflexivity.
  - rewrite of_Z_pos. apply digits_no_star, string_of_uint_digits.
  - change (Str.of_Z (Zneg p))
      with (String "-" (NilEmpty.string_of_uint (Pos.to_uint p))).
    rewrite contains_cons, prefix_one. cbn [orb Ascii.eqb].
    change (Ascii.eqb "*" "-") with false. cbn [orb].
    apply digits_no_star, string_of_uint_digits.
Qed.

Lemma replace_bold (n : Z) : replace (bold n) "**" EmptyString = Str.of_Z n.
Proof.
  unfold bold, replace.
  change (Str.cat "**" (Str.cat (Str.of_Z n) "**"))
    with (String "*" (String "*" (Str.cat (Str.of_Z n) "**"))).
  cbn [replace_from]. rewrite !prefix_cons, prefix_nil.
  cbn [Ascii.eqb Bool.eqb andb String.length Nat.sub replace_from String.append].
  apply replace_closing_marker, of_Z_no_star.
Qed.

Lemma cleaned_bold_row (totals : list Z) :
  map (fun c => replace (cell_str c) "**" EmptyString) (bold_row "**Total**" totals)
  = "Total"%string :: map Str.of_Z totals.
Proof.
  unfold bold_row. cbn [map cell_str]. f_equal. rewrite map_map.
  apply map_ext. intros v. apply replace_bold.
Qed.

Lemma cleaned_int_row (r : string * list Z) :
  map (fun c => replace (cell_str c) "**" EmptyString) (int_row r)
  = replace (fst r) "**" EmptyString :: map Str.of_Z (snd r).
Proof.
  unfold int_row. cbn [map cell_str]. f_equal. rewrite map_map.
  apply map_ext. intros v. apply replace_no_star, of_Z_no_star.
Qed.

(** X11. The cleaning applied before the CSV, TSV and console renderings
    removes the bold markers and nothing else from a table of
    [prepare_starts_table_data]: the total row becomes the label Total
    followed by the plain numerals of the totals, and every other row
    keeps its numerals, and its label too when the label holds no
    asterisk. *)
Theorem cleaned_rows_strip_markers (data : list starts_record) (min_starts : Z)
  (headers : list string) (rows : list (list cell)) (title : string) :
  prepare_starts_table_data data min_starts = Ok (headers, rows, title) ->
  data <> [] ->
  exists totals others,
    rows = bold_row "**Total**" totals :: map int_row others
    /\ cleaned_rows rows
       = ("Total"%string :: map Str.of_Z totals)
         :: map (fun r => replace (fst r) "**" EmptyString :: map Str.of_Z (snd r))
              others
    /\ forall r, In r others -> Str.contains "*" (fst r) = false ->
                 replace (fst r) "**" EmptyString = fst r.
Proof.
  intros H Hne.
  destruct (starts_total_invariant _ _ _ _ _ H Hne)
    as (totals & shown & pooled & -> & _).
  exists totals, (shown ++ pooled). rewrite map_app. split; [reflexivity|]. split.
  - unfold cleaned_rows. cbn [map]. rewrite cleaned_bold_row. f_equal.
    rewrite <- map_app, !map_map. apply map_ext. intros r. apply cleaned_int_row.
  - intros r _ Hr. now apply replace_no_star.
Qed.

Lemma cleaned_rows_strip_markers_witness :
  exists totals others,
    cleaned_rows
      [[CStr "**Total**"; CStr "**19**"; CStr "**16**"; CStr "**3**"];
       [CStr "A"; CInt 10; CInt 10; CInt 0];
       [CStr "C"; CInt 6; CInt 6; CInt 0];
       [CStr "All other providers"; CInt 3; CInt 0; CInt 3]]
    = ("Total"%string :: map Str.of_Z totals)
      :: map (fun r => replace (fst r) "**" EmptyString :: map Str.of_Z (snd r))
           others.
Proof.
  destruct (cleaned_rows_strip_markers threshold_scenario 3
              ["Provider"; "2024-25"; "2024-25 Q1"; "2024-25 Q2"]%string
              [[CStr "**Total**"; CStr "**19**"; CStr "**16**"; CStr "**3**"];
               [CStr "A"; CInt 10; CInt 10; CInt 0];
               [CStr "C"; CInt 6; CInt 6; CInt 0];
               [CStr "All other providers"; CInt 3; CInt 0; CInt 3]]
              "ST0116 Software developer starts"%string)
    as (totals & others & _ & Hc & _).
  - vm_compute. reflexivity.
  - discriminate.
  - now exists totals, others.
Defined.

(** * Extraction from the newest archive *)

Lemma ends_with_csv_spec (f : string) :
  ends_with_csv f = true <-> exists stem, f = Str.cat stem ".csv".
Proof.
  unfold ends_with_csv. split.
  - intros H. apply andb_true_iff in H as [Hn He].
    apply Nat.leb_le in Hn. apply String.eqb_eq in He.
    exists (String.substring 0 (String.length f - 4) f).
    pose proof (substring_split f (String.length f - 4)) as Hs.
    replace (String.length f - (String.length f - 4))%nat with 4%nat in Hs by lia.
    rewrite He in Hs. apply Hs. lia.
  - intros [stem ->]. rewrite length_append.
    change (String.length ".csv") with 4%nat. apply andb_true_iff. split.
    + apply Nat.leb_le. lia.
    + replace (String.length stem + 4 - 4)%nat with (String.length stem) by lia.
      change 4%nat with (String.length ".csv") at 1.
      rewrite substring_suffix. reflexivity.
Qed.

Lemma head_no_slash (s : string) : Path.has_slash s = false -> Path.head s = EmptyString.
Proof.
  destruct s as [|c s]; [reflexivity|]. cbn [Path.has_slash Path.head].
  intros H. now rewrite H.
Qed.

Lemma has_slash_after (dir base : string) :
  Path.has_slash (Str.cat dir (String "/" base)) = true.
Proof.
  induction dir as [|c dir IH]; cbn [String.append Path.has_slash].
  - reflexivity.
  - rewrite IH. apply orb_true_r.
Qed.

Lemma head_of_path (dir base : string) :
  Path.has_slash base = false ->
  Path.head (Str.cat dir (String "/" base)) = Str.cat dir "/".
Proof.
  intros Hb. induction dir as [|c dir IH].
  - cbn [String.append Path.head]. cbn [Ascii.eqb Bool.eqb orb].
    now rewrite (head_no_slash _ Hb).
  - change (Str.cat (String c dir) (String "/" base))
      with (String c (Str.cat dir (String "/" base))).
    cbn [Path.head]. rewrite has_slash_after, orb_true_r, IH. reflexivity.
Qed.

Lemma rstrip_slash_cons (c : ascii) (t : string) :
  Path.rstrip_slash (String c t)
  = match Path.rstrip_slash t with
    | EmptyString => if Ascii.eqb c "/" then EmptyString else String c EmptyString
    | t' => String c t'
    end.
Proof. reflexivity. Qed.

(** A directory that does not end in a slash, followed by one. *)
Lemma rstrip_slash_dir : forall dir,
  dir <> EmptyString -> Path.ends_with_slash dir = false ->
  Path.rstrip_slash (Str.cat dir "/") = dir
  /\ Path.all_slashes (Str.cat dir "/") = false.
Proof.
  induction dir as [|c dir IH]; intros Hne He; [congruence|].
  change (Str.cat (String c dir) "/") with (String c (Str.cat dir "/")).
  rewrite rstrip_slash_cons. cbn [Path.all_slashes].
  destruct dir as [|d dir].
  - cbn [Path.ends_with_slash] in He. cbn [String.append].
    cbn [Path.rstrip_slash Path.all_slashes]. cbn [Ascii.eqb Bool.eqb].
    rewrite He. split; reflexivity.
  - assert (He' : Path.ends_with_slash (String d dir) = false) by exact He.
    destruct (IH ltac:(discriminate) He') as [Hr Ha].
    rewrite Hr, Ha. split; [reflexivity | apply andb_false_r].
Qed.

Lemma dirname_of_path (dir base : string) :
  Path.has_slash base = false ->
  dir <> EmptyString -> Path.ends_with_slash dir = false ->
  Path.dirname (Str.cat dir (String "/" base)) = dir.
Proof.
  intros Hb Hne He. unfold Path.dirname. rewrite (head_of_path _ _ Hb).
  destruct (rstrip_slash_dir dir Hne He) as [Hr Ha]. now rewrite Ha.
Qed.

Lemma join_of_path (dir member : string) :
  dir <> EmptyString -> Path.ends_with_slash dir = false ->
  Str.startswith member "/" = false ->
  Path.join dir member = Str.cat dir (String "/" member).
Proof.
  intros Hne He Hm. unfold Path.join.
  destruct member as [|c member].
  - destruct dir; [congruence|]. now rewrite He.
  - unfold Str.startswith in Hm. rewrite prefix_one in Hm.
    rewrite Ascii.eqb_sym in Hm.
    destruct c as [[] [] [] [] [] [] [] []]; try discriminate Hm;
      (destruct dir; [congruence|]); now rewrite He.
Qed.

Lemma filter_all_false {A : Type} (P : A -> bool) (l : list A) :
  (forall x, In x l -> P x = false) -> filter P l = [].
Proof.
  induction l as [|a l IH]; intros H; [reflexivity|].
  cbn [filter]. rewrite (H a (or_introl eq_refl)). apply IH.
  intros x Hx. apply H. now right.
Qed.

(** X12. With at least one archive under the versioned folders, all
    with ASCII names, [extract_from_zip_if_needed] opens exactly one
    archive, the first of greatest version triple among the candidates,
    and never turns to an older one.  When that archive cannot be opened
    the exception escapes.  When it has no member whose name ends in
    .csv the result is [None].  Otherwise the first such member is
    extracted into the directory of the archive, and the joined path is
    returned unless the extraction raises; for an archive [dir/base] and
    a relative member name that path is [dir/member].  With readable
    archives it coincides with the model that has no exceptions. *)
Theorem extract_from_newest_archive
  (glob : string -> list string) (open_archive : string -> option (list string))
  (extracts : string -> string -> bool)
  (zip_pattern folder_prefix subfolder : string) :
  let candidates := folder_candidates glob zip_pattern folder_prefix subfolder in
  let version f := extract_year_quarter_from_filename (Path.basename f) in
  let result :=
    Zip.extract_from_zip_if_needed glob open_archive extracts
      zip_pattern folder_prefix subfolder in
  candidates <> [] ->
  (forall f, In f candidates -> ascii_text f = true) ->
  exists earlier zip_file later,
    candidates = earlier ++ zip_file :: later
    /\ (forall f, In f earlier -> triple_lt (version f) (version zip_file))
    /\ (forall f, In f later -> triple_le (version f) (version zip_file))
    /\ (open_archive zip_file = None -> result = (ZipError, [OpenZip zip_file]))
    /\ (forall names,
           open_archive zip_file = Some names ->
           (forall m, In m names -> ends_with_csv m = false) ->
           result = (NothingFound, [OpenZip zip_file]))
    /\ (forall before stem after,
           open_archive zip_file = Some (before ++ Str.cat stem ".csv" :: after) ->
           (forall m, In m before -> ends_with_csv m = false) ->
           let member := Str.cat stem ".csv" in
           result
           = (if extracts zip_file member
              then Extracted (Path.join (Path.dirname zip_file) member)
              else ZipError,
              [OpenZip zip_file; ExtractMember zip_file member (Path.dirname zip_file)])
           /\ forall dir base,
               zip_file = Str.cat dir (String "/" base) ->
               Path.has_slash base = false ->
               dir <> EmptyString -> Path.ends_with_slash dir = false ->
               Str.startswith member "/" = false ->
               Path.dirname zip_file = dir
               /\ Path.join (Path.dirname zip_file) member
                  = Str.cat dir (String "/" member))
    /\ (forall namelist : string -> list string,
           (forall z, open_archive z = Some (namelist z)) ->
           (forall z m, extracts z m = true) ->
           result
           = (match fst (extract_from_zip_if_needed glob namelist
                           zip_pattern folder_prefix subfolder) with
              | Some path => Extracted path
              | None => NothingFound
              end,
              snd (extract_from_zip_if_needed glob namelist
                     zip_pattern folder_prefix subfolder))).
Proof.
  intros candidates version result Hne _.
  destruct (sort_newest_first_head candidates Hne)
    as (earlier & zip_file & later & Heq & Hhd & H1 & H2).
  exists earlier, zip_file, later.
  split; [assumption|]. split; [assumption|]. split; [assumption|].
  assert (Hresult :
            result
            = match open_archive zip_file with
              | None => (ZipError, [OpenZip zip_file])
              | Some names =>
                  match filter ends_with_csv names with
                  | member :: _ =>
                      (if extracts zip_file member
                       then Extracted (Path.join (Path.dirname zip_file) member)
                       else ZipError,
                       [OpenZip zip_file;
                        ExtractMember zip_file member (Path.dirname zip_file)])
                  | [] => (NothingFound, [OpenZip zip_file])
                  end
              end).
  { subst result. unfold Zip.extract_from_zip_if_needed. fold candidates.
    destruct candidates as [|c0 cs]; [congruence|].
    destruct (sort_newest_first (c0 :: cs)) as [|z zs]; [discriminate|].
    simpl in Hhd. injection Hhd as ->. reflexivity. }
  assert (Hold : forall namelist,
            extract_from_zip_if_needed glob namelist zip_pattern folder_prefix subfolder
            = match filter ends_with_csv (namelist zip_file) with
              | member :: _ =>
                  (Some (Path.join (Path.dirname zip_file) member),
                   [OpenZip zip_file;
                    ExtractMember zip_file member (Path.dirname zip_file)])
              | [] => (None, [OpenZip zip_file])
              end).
  { intros namelist. unfold extract_from_zip_if_needed. fold candidates.
    destruct candidates as [|c0 cs]; [congruence|].
    destruct (sort_newest_first (c0 :: cs)) as [|z zs]; [discriminate|].
    simpl in Hhd. injection Hhd as ->. reflexivity. }
  rewrite Hresult. split; [|split; [|split]].
  - now intros ->.
  - intros names -> Hnone. rewrite (filter_all_false _ _ Hnone). reflexivity.
  - intros before stem after -> Hbefore. cbv zeta.
    rewrite filter_app, (filter_all_false _ _ Hbefore). cbn [app filter].
    rewrite (proj2 (ends_with_csv_spec _) (ex_intro _ stem eq_refl)).
    split; [reflexivity|].
    intros dir base -> Hb Hd He Hm.
    rewrite (dirname_of_path _ _ Hb Hd He). split; [reflexivity|].
    now apply join_of_path.
  - intros namelist Hopen Hex. rewrite Hopen, Hold.
    destruct (filter ends_with_csv (namelist zip_file)) as [|member rest];
      [reflexivity|]. now rewrite Hex.
Qed.

Lemma extract_from_newest_archive_witness :
  Zip.extract_from_zip_if_needed archives_in_folders
    (fun z => Some (archive_members z)) (fun _ _ => true)
    "app-underlying-data-starts-*.zip" "apprenticeships" "supporting-files"
  = (Extracted
       "apprenticeships_2024-25/supporting-files/app-underlying-data-starts-202425-q1.csv",
     [OpenZip
        "apprenticeships_2024-25/supporting-files/app-underlying-data-starts-202425-q1.zip";
      ExtractMember
        "apprenticeships_2024-25/supporting-files/app-underlying-data-starts-202425-q1.zip"
        "app-underlying-data-starts-202425-q1.csv"
        "apprenticeships_2024-25/supporting-files"]).
Proof.
  destruct (extract_from_newest_archive archives_in_folders
              (fun z => Some (archive_members z)) (fun _ _ => true)
              "app-underlying-data-starts-*.zip" "apprenticeships" "supporting-files")
    as (earlier & zip_file & later & Heq & _ & Hlater & _ & _ & Hcsv & _).
  - vm_compute. discriminate.
  - intros f Hf. vm_compute in Hf.
    repeat (destruct Hf as [<- | Hf]; [reflexivity|]). contradiction.
  - change (folder_candidates archives_in_folders "app-underlying-data-starts-*.zip"
              "apprenticeships" "supporting-files")
      with ["apprenticeships_2023-24/supporting-files/app-underlying-data-starts-202324-q4.zip";
            "apprenticeships_2024-25/supporting-files/app-underlying-data-starts-202425-q1.zip"]%string
      in Heq.
    assert (Hzip : zip_file
                   = "apprenticeships_2024-25/supporting-files/app-underlying-data-starts-202425-q1.zip"%string).
    { destruct earlier as [|e1 [|e2 earlier]].
      - injection Heq as <- <-. exfalso.
        pose proof (Hlater _ (or_introl eq_refl)) as Hle.
        vm_compute in Hle. intuition discriminate.
      - now injection Heq as _ <- _.
      - exfalso. apply (f_equal (@length string)) in Heq.
        rewrite length_app in Heq. simpl in Heq. lia. }
    subst zip_file.
    destruct (Hcsv ["readme.txt"%string] "app-underlying-data-starts-202425-q1"%string
                ["metadata.csv"%string]) as [Hres _].
    + reflexivity.
    + intros m [<- | []]. reflexivity.
    + exact Hres.
Defined.

(** * Cleaning of names *)

Lemma all_space_cons (c : ascii) (s : string) :
  all_space (String c s) = Str.is_space c && all_space s.
Proof. reflexivity. Qed.

Lemma lstrip_cases (s : string) :
  (Str.lstrip s = EmptyString /\ all_space s = true)
  \/ (starts_nonspace (Str.lstrip s) = true /\ all_space s = false).
Proof.
  induction s as [|c s IH]; [now left|].
  rewrite all_space_cons. cbn [Str.lstrip]. destruct (Str.is_space c) eqn:Ec.
  - exact IH.
  - right. cbn [starts_nonspace]. now rewrite Ec.
Qed.

Lemma lstrip_id (s : string) : starts_nonspace s = true -> Str.lstrip s = s.
Proof.
  destruct s as [|c s]; [discriminate|]. cbn [starts_nonspace Str.lstrip].
  now destruct (Str.is_space c).
Qed.

Lemma rstrip_cons (c : ascii) (t : string) :
  Str.rstrip (String c t)
  = match Str.rstrip t with
    | EmptyString => if Str.is_space c then EmptyString else String c EmptyString
    | t' => String c t'
    end.
Proof. reflexivity. Qed.

Lemma rstrip_empty_iff (s : string) :
  Str.rstrip s = EmptyString <-> all_space s = true.
Proof.
  induction s as [|c s IH]; [now split|].
  rewrite rstrip_cons, all_space_cons.
  destruct (Str.rstrip s) as [|a r].
  - destruct (Str.is_space c).
    + cbn [andb]. split; intros _; [now apply IH | reflexivity].
    + split; discriminate.
  - split; [discriminate|]. intros H. apply andb_true_iff in H as [_ H].
    apply IH in H. discriminate.
Qed.

Lemma rstrip_prefix (s : string) : exists rest, s = Str.cat (Str.rstrip s) rest.
Proof.
  induction s as [|c s [rest IH]]; [now exists EmptyString|].
  rewrite rstrip_cons. destruct (Str.rstrip s) as [|a r].
  - destruct (Str.is_space c).
    + now exists (String c s).
    + exists s. reflexivity.
  - exists rest. simpl. now rewrite IH at 1.
Qed.

Lemma rstrip_starts (s : string) :
  starts_nonspace s = true -> starts_nonspace (Str.rstrip s) = true.
Proof.
  destruct s as [|c s]; [discriminate|]. cbn [starts_nonspace]. intros H.
  rewrite rstrip_cons. destruct (Str.rstrip s).
  - destruct (Str.is_space c) eqn:Ec; [discriminate|].
    cbn [starts_nonspace]. now rewrite Ec.
  - exact H.
Qed.

Lemma rstrip_idem (s : string) : Str.rstrip (Str.rstrip s) = Str.rstrip s.
Proof.
  induction s as [|c s IH]; [reflexivity|].
  rewrite rstrip_cons. destruct (Str.rstrip s) as [|a r] eqn:E.
  - destruct (Str.is_space c) eqn:Ec; [reflexivity|].
    rewrite rstrip_cons. cbn [Str.rstrip]. now rewrite Ec.
  - rewrite rstrip_cons, IH. reflexivity.
Qed.

Lemma rstrip_append (a b : string) :
  Str.rstrip b <> EmptyString -> Str.rstrip (Str.cat a b) = Str.cat a (Str.rstrip b).
Proof.
  intros Hb. induction a as [|c a IH]; [reflexivity|].
  change (Str.cat (String c a) b) with (String c (Str.cat a b)).
  rewrite rstrip_cons, IH.
  change (Str.cat (String c a) (Str.rstrip b))
    with (String c (Str.cat a (Str.rstrip b))).
  destruct (Str.cat a (Str.rstrip b)) as [|x r] eqn:E; [|reflexivity].
  destruct a; [simpl in E; congruence | discriminate].
Qed.

Lemma lstrip_append (a b : string) :
  Str.lstrip (Str.cat a b)
  = if all_space a then Str.lstrip b else Str.cat (Str.lstrip a) b.
Proof.
  induction a as [|c a IH]; [reflexivity|].
  rewrite all_space_cons.
  change (Str.cat (String c a) b) with (String c (Str.cat a b)).
  cbn [Str.lstrip]. destruct (Str.is_space c); [exact IH | reflexivity].
Qed.

Lemma strip_cases (s : string) :
  (Str.strip s = EmptyString /\ all_space s = true)
  \/ (starts_nonspace (Str.strip s) = true /\ all_space s = false).
Proof.
  unfold Str.strip. destruct (lstrip_cases s) as [[-> H] | [H1 H2]].
  - now left.
  - right. split; [now apply rstrip_starts | assumption].
Qed.

Lemma strip_idem (s : string) : Str.strip (Str.strip s) = Str.strip s.
Proof.
  destruct (strip_cases s) as [[-> _] | [H _]]; [reflexivity|].
  unfold Str.strip at 1. rewrite (lstrip_id _ H).
  unfold Str.strip. apply rstrip_idem.
Qed.

Lemma starts_nonspace_strip (s : string) :
  starts_nonspace s = true ->
  starts_nonspace (Str.strip s) = true /\ Str.strip s = Str.rstrip s.
Proof.
  intros H. unfold Str.strip. rewrite (lstrip_id _ H).
  split; [now apply rstrip_starts | reflexivity].
Qed.

Lemma length_upper (s : string) : String.length (upper s) = String.length s.
Proof. induction s as [|c s IH]; simpl; [reflexivity | now rewrite IH]. Qed.

Lemma upper_char_space (c : ascii) :
  Str.is_space (upper_char c) = true -> Str.is_space c = true.
Proof.
  destruct c as [[] [] [] [] [] [] [] []]; vm_compute; intros H;
    first [reflexivity | exact H].
Qed.

Lemma drop_last_prefix (k : nat) (s : string) :
  exists rest, s = Str.cat (drop_last k s) rest.
Proof.
  unfold drop_last.
  exists (String.substring (String.length s - k)
            (String.length s - (String.length s - k)) s).
  apply substring_split. lia.
Qed.

Lemma drop_last_starts (k : nat) (s : string) :
  (k < String.length s)%nat ->
  starts_nonspace s = true -> starts_nonspace (drop_last k s) = true.
Proof.
  destruct s as [|c s]; [discriminate|]. intros Hk H. unfold drop_last.
  cbn [String.length] in *.
  replace (S (String.length s) - k)%nat with (S (String.length s - k)) by lia.
  exact H.
Qed.

(** A match of a blank and a suffix is shorter than a text that starts
    with another character. *)
Lemma endswith_blank_shorter (s suffix : string) :
  starts_nonspace s = true ->
  endswith (upper s) (Str.cat " " suffix) = true ->
  (String.length (Str.cat " " suffix) < String.length s)%nat.
Proof.
  intros Hs H. unfold endswith in H. rewrite length_upper in H.
  apply andb_true_iff in H as [Hn He]. apply Nat.leb_le in Hn.
  apply String.eqb_eq in He.
  destruct (Nat.eq_dec (String.length (Str.cat " " suffix)) (String.length s))
    as [Heq | Hneq]; [|lia].
  exfalso. rewrite Heq, Nat.sub_diag in He.
  rewrite <- (length_upper s), substring_all in He.
  destruct s as [|c s]; [discriminate|].
  cbn [upper] in He. injection He as Hc _.
  cbn [starts_nonspace] in Hs.
  rewrite (upper_char_space c) in Hs; [discriminate|].
  now rewrite Hc.
Qed.

Lemma remove_suffix_inv (s suffix : string) :
  starts_nonspace s = true ->
  starts_nonspace (remove_suffix s suffix) = true
  /\ exists rest, s = Str.cat (remove_suffix s suffix) rest.
Proof.
  intros Hs. unfold remove_suffix.
  destruct (endswith (upper s) (Str.cat " " suffix)) eqn:E1.
  - split; [|apply drop_last_prefix].
    apply drop_last_starts; [|assumption].
    now apply endswith_blank_shorter.
  - destruct (endswith (upper s) suffix
              && (String.length suffix <? String.length s)%nat) eqn:E2.
    + apply andb_true_iff in E2 as [_ E2]. apply Nat.ltb_lt in E2.
      split; [now apply drop_last_starts | apply drop_last_prefix].
    + split; [assumption|]. exists EmptyString. now rewrite append_nil_r.
Qed.

Lemma remove_suffixes_inv (suffixes : list string) : forall s,
  starts_nonspace s = true ->
  starts_nonspace (fold_left remove_suffix suffixes s) = true
  /\ exists rest, s = Str.cat (fold_left remove_suffix suffixes s) rest.
Proof.
  induction suffixes as [|suffix suffixes IH]; intros s Hs.
  - split; [assumption|]. exists EmptyString. now rewrite append_nil_r.
  - cbn [fold_left]. destruct (remove_suffix_inv s suffix Hs) as [H1 [r1 H2]].
    destruct (IH _ H1) as [H3 [r2 H4]]. split; [assumption|].
    exists (Str.cat r2 r1). rewrite <- append_assoc, <- H4. exact H2.
Qed.

Lemma strip_nonempty (name : string) :
  Str.strip name <> EmptyString ->
  starts_nonspace (Str.strip name) = true
  /\ String.eqb name EmptyString || String.eqb (Str.strip name) EmptyString = false.
Proof.
  intros H. destruct (strip_cases name) as [[E _] | [Hs _]]; [contradiction|].
  split; [assumption|]. apply orb_false_iff. split.
  - apply String.eqb_neq. intros ->. now apply H.
  - now apply String.eqb_neq.
Qed.

(** X13. A name that is not blank is cleaned to a non-empty prefix of
    the stripped name: [clean_company_name] only removes characters at
    the end, it never returns the empty string, and the result carries
    no white space at either end. *)
Theorem clean_company_name_prefix (name : string) :
  Str.strip name <> EmptyString ->
  (exists removed, Str.strip name = Str.cat (clean_company_name name) removed)
  /\ clean_company_name name <> EmptyString
  /\ Str.strip (clean_company_name name) = clean_company_name name.
Proof.
  intros Hne. destruct (strip_nonempty name Hne) as [Hs Hguard].
  unfold clean_company_name. rewrite Hguard.
  destruct (remove_suffixes_inv suffixes_to_remove _ Hs) as [Hc [r1 Hp]].
  set (cleaned := fold_left remove_suffix suffixes_to_remove (Str.strip name)) in *.
  destruct (starts_nonspace_strip cleaned Hc) as [Hfinal Heq].
  split; [|split].
  - destruct (rstrip_prefix cleaned) as [r2 Hr]. exists (Str.cat r2 r1).
    rewrite Heq, <- append_assoc, <- Hr. exact Hp.
  - intros E. rewrite E in Hfinal. discriminate.
  - apply strip_idem.
Qed.

Lemma clean_company_name_prefix_witness :
  exists removed,
    Str.strip " Tech Solutions LTD " = Str.cat (clean_company_name " Tech Solutions LTD ") removed.
Proof.
  destruct (clean_company_name_prefix " Tech Solutions LTD ") as [H _].
  - vm_compute. discriminate.
  - exact H.
Defined.

Lemma at_end_two (x y : ascii) (r : string) :
  at_end (String x (String y r)) = None.
Proof.
  unfold at_end.
  replace (String x (String y r) =? "")%string with false
    by (symmetry; apply String.eqb_neq; discriminate).
  replace (String x (String y r) =? String "010" "")%string with false
    by (symmetry; apply String.eqb_neq; discriminate).
  reflexivity.
Qed.

Lemma at_end_longer (a : string) (w : ascii) (b : string) :
  b <> EmptyString -> at_end (Str.cat a (String w b)) = None.
Proof.
  intros Hb. destruct a as [|x a].
  - cbn [String.append]. destruct b as [|y b]; [congruence | apply at_end_two].
  - change (Str.cat (String x a) (String w b))
      with (String x (Str.cat a (String w b))).
    destruct a as [|y a]; cbn [String.append]; apply at_end_two.
Qed.

(** No code closes before a text that goes on with another character. *)
Lemma code_close_blocked (w : ascii) (b : string) :
  Str.is_digit w = false -> Ascii.eqb w ")" = false -> b <> EmptyString ->
  forall t seen, code_close seen (Str.cat t (String w b)) = None.
Proof.
  intros Hd Hp Hb. induction t as [|c t IH]; intros seen.
  - cbn [String.append code_close]. rewrite Hd, Hp, andb_false_r. reflexivity.
  - change (Str.cat (String c t) (String w b))
      with (String c (Str.cat t (String w b))).
    cbn [code_close]. destruct (Str.is_digit c); [apply IH|].
    destruct (seen && Ascii.eqb c ")"); [|reflexivity].
    now apply at_end_longer.
Qed.

Lemma code_close_digits : forall d seen,
  all_digits d = true -> seen = true \/ d <> EmptyString ->
  code_close seen (Str.cat d ")") = Some EmptyString.
Proof.
  induction d as [|c d IH]; intros seen Hd Hs.
  - destruct Hs as [-> | Hs]; [reflexivity | congruence].
  - rewrite all_digits_cons in Hd. apply andb_true_iff in Hd as [Hc Hd].
    change (Str.cat (String c d) ")") with (String c (Str.cat d ")")).
    cbn [code_close]. rewrite Hc. apply IH; [assumption | now left].
Qed.

Lemma space_not_paren (c : ascii) :
  Str.is_space c = true -> Ascii.eqb c "(" = false.
Proof.
  intros H. apply Ascii.eqb_neq. intros ->. vm_compute in H. discriminate.
Qed.

Lemma ukprn_match_code : forall ws d,
  all_space ws = true -> all_digits d = true -> d <> EmptyString ->
  ukprn_match (Str.cat ws (String "(" (Str.cat d ")"))) = Some EmptyString.
Proof.
  induction ws as [|c ws IH]; intros d Hw Hd Hne.
  - cbn [String.append ukprn_match code]. cbn [Ascii.eqb Bool.eqb].
    cbv iota. rewrite code_close_digits; [reflexivity | assumption | now right].
  - rewrite all_space_cons in Hw. apply andb_true_iff in Hw as [Hc Hw].
    change (Str.cat (String c ws) (String "(" (Str.cat d ")")))
      with (String c (Str.cat ws (String "(" (Str.cat d ")")))).
    cbn [ukprn_match code]. rewrite (space_not_paren c Hc), Hc.
    now apply IH.
Qed.

Section RemoveCode.

(** [tail] is matched by the pattern, and no code closes inside it. *)
Variable tail : string.
Hypothesis tail_matches : ukprn_match tail = Some EmptyString.
Hypothesis tail_blocks : forall t seen, code_close seen (Str.cat t tail) = None.

Lemma ukprn_match_before_tail : forall t,
  ukprn_match (Str.cat t tail) = if all_space t then Some EmptyString else None.
Proof.
  induction t as [|c t IH]; [exact tail_matches|].
  rewrite all_space_cons.
  change (Str.cat (String c t) tail) with (String c (Str.cat t tail)).
  cbn [ukprn_match code]. rewrite tail_blocks.
  replace (if Ascii.eqb c "(" then @None string else None) with (@None string)
    by now destruct (Ascii.eqb c "(").
  destruct (Str.is_space c); [exact IH | reflexivity].
Qed.

Lemma remove_ukprn_before_tail : forall t,
  remove_ukprn (Str.cat t tail) = Str.rstrip t.
Proof.
  induction t as [|c t IH].
  - cbn [String.append]. destruct tail; cbn [remove_ukprn];
      now rewrite tail_matches.
  - change (Str.cat (String c t) tail) with (String c (Str.cat t tail)).
    cbn [remove_ukprn].
    change (match code (String c (Str.cat t tail)) with
            | Some rest => Some rest
            | None => if Str.is_space c then ukprn_match (Str.cat t tail) else None
            end)
      with (ukprn_match (String c (Str.cat t tail))).
    change (String c (Str.cat t tail)) with (Str.cat (String c t) tail) at 1.
    rewrite ukprn_match_before_tail, IH.
    destruct (all_space (String c t)) eqn:Ea.
    + symmetry. now apply rstrip_empty_iff.
    + rewrite rstrip_cons. rewrite all_space_cons in Ea.
      destruct (Str.rstrip t) as [|x r] eqn:Er; [|reflexivity].
      assert (Ht : all_space t = true) by now apply rstrip_empty_iff.
      rewrite Ht, andb_true_r in Ea. now rewrite Ea.
Qed.

End RemoveCode.

Lemma code_tail_blocks (ws d : string) :
  all_space ws = true -> all_digits d = true ->
  forall t seen,
    code_close seen (Str.cat t (Str.cat ws (String "(" (Str.cat d ")")))) = None.
Proof.
  intros Hw Hd t seen. destruct ws as [|c ws].
  - cbn [String.append]. apply code_close_blocked; try reflexivity.
    destruct d; discriminate.
  - rewrite all_space_cons in Hw. apply andb_true_iff in Hw as [Hc _].
    change (Str.cat (String c ws) (String "(" (Str.cat d ")")))
      with (String c (Str.cat ws (String "(" (Str.cat d ")")))).
    apply code_close_blocked.
    + destruct (Str.is_digit c) eqn:E; [|reflexivity].
      apply digit_not_space in E. congruence.
    + apply Ascii.eqb_neq. intros ->. vm_compute in Hc. discriminate.
    + destruct ws; discriminate.
Qed.

Lemma rstrip_code (a d : string) :
  Str.rstrip (Str.cat a (String "(" (Str.cat d ")")))
  = Str.cat a (String "(" (Str.cat d ")")).
Proof.
  change (String "(" (Str.cat d ")")) with (Str.cat (String "(" d) ")").
  rewrite <- append_assoc. rewrite rstrip_append; [reflexivity | discriminate].
Qed.

(** X14. A provider name that ends in a code in parentheses, a non-empty
    run of digits, after any white space, is cleaned like the name
    before the code; when nothing but white space stands before the code
    the result is the empty string. *)
Theorem clean_provider_name_code (base ws d : string) :
  all_space ws = true -> all_digits d = true -> d <> EmptyString ->
  clean_provider_name (Str.cat base (Str.cat ws (String "(" (Str.cat d ")"))))
  = if all_space base then EmptyString else clean_company_name base.
Proof.
  intros Hw Hd Hne.
  set (tail := Str.cat ws (String "(" (Str.cat d ")"))).
  assert (Htail : Str.rstrip tail = tail) by apply rstrip_code.
  assert (Hnonempty : tail <> EmptyString).
  { subst tail. destruct ws; discriminate. }
  assert (Hltail : Str.lstrip tail = String "(" (Str.cat d ")")).
  { subst tail. rewrite lstrip_append, Hw. reflexivity. }
  assert (Hstrip : Str.strip (Str.cat base tail)
                   = if all_space base then String "(" (Str.cat d ")")
                     else Str.cat (Str.lstrip base) tail).
  { unfold Str.strip. rewrite lstrip_append. destruct (all_space base).
    - rewrite Hltail. apply (rstrip_code EmptyString).
    - rewrite rstrip_append; rewrite Htail; [reflexivity | assumption]. }
  unfold clean_provider_name. rewrite Hstrip.
  assert (Hguard : String.eqb (Str.cat base tail) EmptyString = false).
  { apply String.eqb_neq. intros E. destruct base; [now apply Hnonempty | discriminate]. }
  rewrite Hguard. cbn [orb].
  destruct (all_space base) eqn:Eb.
  - change (String "(" (Str.cat d ")" ) =? "")%string with false. cbv iota.
    pose proof (remove_ukprn_before_tail (String "(" (Str.cat d ")"))
                  (ukprn_match_code EmptyString d eq_refl Hd Hne)
                  (code_tail_blocks EmptyString d eq_refl Hd) EmptyString) as Hr.
    change (remove_ukprn (String "(" (Str.cat d ")")) = EmptyString) in Hr.
    rewrite Hr. reflexivity.
  - assert (Hl : Str.lstrip base <> EmptyString).
    { destruct (lstrip_cases base) as [[_ H] | [H _]]; [congruence|].
      intros E. rewrite E in H. discriminate. }
    replace (Str.cat (Str.lstrip base) tail =? "")%string with false.
    2:{ symmetry. apply String.eqb_neq. intros E.
        destruct (Str.lstrip base); [now apply Hl | discriminate]. }
    rewrite (remove_ukprn_before_tail tail
               (ukprn_match_code ws d Hw Hd Hne) (code_tail_blocks ws d Hw Hd)).
    change (Str.rstrip (Str.lstrip base)) with (Str.strip base).
    assert (Hsb : Str.strip base <> EmptyString).
    { destruct (strip_cases base) as [[_ H] | [H _]]; [congruence|].
      intros E. rewrite E in H. discriminate. }
    destruct (strip_nonempty base Hsb) as [_ Hg1].
    assert (Hg2 : String.eqb (Str.strip base) EmptyString
                  || String.eqb (Str.strip (Str.strip base)) EmptyString = false).
    { rewrite strip_idem. apply orb_false_iff.
      split; now apply String.eqb_neq. }
    unfold clean_company_name. rewrite Hg1, Hg2, strip_idem. reflexivity.
Qed.

Lemma clean_provider_name_code_witness :
  clean_provider_name "Training Provider LTD (12345)" = "Training Provider"%string.
Proof.
  change (clean_provider_name
            (Str.cat "Training Provider LTD"
               (Str.cat " " (String "(" (Str.cat "12345" ")"))))
          = "Training Provider"%string).
  rewrite (clean_provider_name_code "Training Provider LTD" " " "12345"
             eq_refl eq_refl).
  - vm_compute. reflexivity.
  - discriminate.
Defined.

(** * Extraction of the records *)

Lemma field_stripped (row : csv_row) (name v : string) :
  field row name = Some v -> Str.strip v = v.
Proof.
  unfold field. destruct (Dict.get row name) as [[w|]|]; intros H;
    try discriminate; injection H as <-; [apply strip_idem | reflexivity].
Qed.

Lemma field_absent (row : csv_row) (name : string) :
  Dict.get row name = None -> field row name = Some EmptyString.
Proof. unfold field. now intros ->. Qed.

Lemma read_csv_data_filter (filter_fn : csv_row -> option bool) :
  forall rows filtered_data,
    read_csv_data rows filter_fn = Some filtered_data ->
    subsequence filtered_data rows
    /\ (forall row, In row rows -> filter_fn row <> None)
    /\ (forall row, In row filtered_data -> filter_fn row = Some true)
    /\ (forall row, In row rows -> filter_fn row = Some true -> In row filtered_data).
Proof.
  induction rows as [|row rows IH]; intros filtered_data H.
  - injection H as <-. repeat split; try (intros ? []). constructor.
  - cbn [read_csv_data] in H.
    destruct (filter_fn row) as [keep|] eqn:Ef; [|discriminate].
    destruct (read_csv_data rows filter_fn) as [kept|]; [|discriminate].
    injection H as <-. destruct (IH kept eq_refl) as (Hs & Hd & Hk & Ha).
    repeat split.
    + destruct keep; now constructor.
    + intros r [<- | Hr]; [congruence | now apply Hd].
    + destruct keep; intros r Hr; [destruct Hr as [<- | Hr]|]; auto.
    + intros r [<- | Hr] Ht.
      * rewrite Ef in Ht. injection Ht as ->. now left.
      * destruct keep; [right|]; now apply Ha.
Qed.

Lemma starts_of_rows_map : forall raw_data starts_data,
  starts_of_rows raw_data = Some starts_data ->
  Forall2 (fun row record => starts_of_row row = Some record) raw_data starts_data.
Proof.
  induction raw_data as [|row raw IH]; intros starts_data H.
  - injection H as <-. constructor.
  - cbn [starts_of_rows] in H.
    destruct (starts_of_row row) as [record|] eqn:Er; [|discriminate].
    destruct (starts_of_rows raw) as [rest|]; [|discriminate].
    injection H as <-. constructor; [assumption | now apply IH].
Qed.

Lemma starts_of_rows_subsequence : forall kept all_rows,
  subsequence kept all_rows ->
  forall all_data, starts_of_rows all_rows = Some all_data ->
  exists kept_data,
    starts_of_rows kept = Some kept_data /\ subsequence kept_data all_data.
Proof.
  induction 1 as [|x l m Hs IH|x l m Hs IH]; intros all_data H.
  - injection H as <-. exists []. split; [reflexivity | constructor].
  - cbn [starts_of_rows] in H.
    destruct (starts_of_row x) as [record|]; [|discriminate].
    destruct (starts_of_rows m) as [rest|]; [|discriminate].
    injection H as <-. destruct (IH rest eq_refl) as (kd & Hk & Hsub).
    exists kd. split; [assumption | now constructor].
  - cbn [starts_of_rows] in H |- *.
    destruct (starts_of_row x) as [record|]; [|discriminate].
    destruct (starts_of_rows m) as [rest|]; [|discriminate].
    injection H as <-. destruct (IH rest eq_refl) as (kd & -> & Hsub).
    exists (record :: kd). split; [reflexivity | now constructor].
Qed.

Lemma starts_of_row_spec (row : csv_row) (record : starts_record) :
  starts_of_row row = Some record ->
  field row "st_code" = Some (standard_code record)
  /\ field row "provider_name" = Some (provider record)
  /\ field row "year" = Some (year record)
  /\ provider_clean record = clean_provider_name (provider record)
  /\ 0 <= quarter record
  /\ 0 <= starts record
  /\ (Dict.get row "start_quarter" = None -> quarter record = 0).
Proof.
  unfold starts_of_row.
  destruct (field row "provider_name") as [p|]; [|discriminate].
  destruct (field row "start_quarter") as [q|] eqn:Eq; [|discriminate].
  destruct (field row "year") as [y|]; [|discriminate].
  destruct (field row "starts") as [s|]; [|discriminate].
  destruct (field row "st_code") as [c|]; [|discriminate].
  destruct (field row "std_fwk_name") as [n|]; [|discriminate].
  intros H. injection H as <-. cbn [standard_code provider year provider_clean
                                     quarter starts].
  repeat split.
  - destruct (String.eqb q EmptyString); [lia|].
    destruct (parse_positions_default_or_nonneg q 0) as [H | H]; [|exact H].
    unfold parse_positions in H. rewrite H. lia.
  - destruct (parse_positions_default_or_nonneg s 0) as [H | H]; [|exact H].
    unfold parse_positions in H. rewrite H. lia.
  - intros Habs. rewrite (field_absent _ _ Habs) in Eq. injection Eq as <-.
    reflexivity.
Qed.

Lemma filter_by_standard_true (code : string) (row : csv_row) :
  filter_by_standard code row = Some true -> field row "st_code" = Some code.
Proof.
  unfold filter_by_standard. destruct (field row "st_code") as [c|]; [|discriminate].
  intros H. injection H as H. apply String.eqb_eq in H. now subst.
Qed.

Lemma filter_london_sme_true (code : string) (row : csv_row) :
  filter_london_sme code row = Some true ->
  field row "st_code" = Some code
  /\ field row "learner_home_region" = Some "London"%string
  /\ field row "funding_type" = Some "Other"%string.
Proof.
  unfold filter_london_sme.
  destruct (field row "st_code") as [c|]; [|discriminate].
  destruct (String.eqb c code) eqn:Ec; cbn [negb]; [|discriminate].
  destruct (field row "learner_home_region") as [r|]; [|discriminate].
  destruct (String.eqb r "London") eqn:Er; cbn [negb]; [|discriminate].
  destruct (field row "funding_type") as [f|]; [|discriminate].
  destruct (String.eqb f "Other") eqn:Ef; cbn [negb]; [|discriminate].
  intros _. apply String.eqb_eq in Ec, Er, Ef. now subst.
Qed.

Lemma filter_london_sme_standard (code : string) (row : csv_row) :
  filter_london_sme code row = Some true -> filter_by_standard code row = Some true.
Proof.
  intros H. apply filter_london_sme_true in H as (H & _).
  unfold filter_by_standard. rewrite H. now rewrite String.eqb_refl.
Qed.

Lemma Forall2_in_r {A B : Type} (R : A -> B -> Prop) (l : list A) (m : list B) :
  Forall2 R l m -> forall y, In y m -> exists x, In x l /\ R x y.
Proof.
  induction 1 as [|x y l m Hxy _ IH]; intros z Hz; [contradiction|].
  destruct Hz as [<- | Hz].
  - exists x. split; [now left | assumption].
  - destruct (IH z Hz) as (x' & Hin & HR). exists x'. split; [now right | assumption].
Qed.

Lemma subsequence_length {A : Type} (l m : list A) :
  subsequence l m -> (length l <= length m)%nat.
Proof. induction 1; simpl; lia. Qed.

Lemma subsequence_read (filter_fn : csv_row -> option bool) (l rows : list csv_row) :
  subsequence l rows ->
  (forall row, In row l -> filter_fn row = Some true) ->
  forall raw_data, read_csv_data rows filter_fn = Some raw_data ->
  subsequence l raw_data.
Proof.
  induction 1 as [|x l m Hs IH|x l m Hs IH]; intros Hl raw_data H.
  - injection H as <-. constructor.
  - cbn [read_csv_data] in H.
    destruct (filter_fn x) as [keep|]; [|discriminate].
    destruct (read_csv_data m filter_fn) as [kept|]; [|discriminate].
    injection H as <-.
    destruct keep; [apply subsequence_skip|]; now apply IH.
  - cbn [read_csv_data] in H. rewrite (Hl x (or_introl eq_refl)) in H.
    destruct (read_csv_data m filter_fn) as [kept|]; [|discriminate].
    injection H as <-. apply subsequence_keep. apply IH; [|reflexivity].
    intros row Hrow. apply Hl. now right.
Qed.

Lemma subsequence_sum (l m : list starts_record) :
  subsequence l m ->
  (forall r, In r m -> 0 <= starts r) ->
  sum_Z (map starts l) <= sum_Z (map starts m).
Proof.
  induction 1 as [|x l m Hs IH|x l m Hs IH]; intros Hnn; cbn [map sum_Z fold_right].
  - lia.
  - pose proof (Hnn x (or_introl eq_refl)).
    assert (sum_Z (map starts l) <= sum_Z (map starts m))
      by (apply IH; intros r Hr; apply Hnn; now right).
    unfold sum_Z in *. lia.
  - assert (sum_Z (map starts l) <= sum_Z (map starts m))
      by (apply IH; intros r Hr; apply Hnn; now right).
    unfold sum_Z in *. lia.
Qed.

Lemma extracted_records (filter_fn : csv_row -> option bool)
  (rows : list csv_row) (raw_data : list csv_row) (starts_data : list starts_record) :
  read_csv_data rows filter_fn = Some raw_data ->
  starts_of_rows raw_data = Some starts_data ->
  (length starts_data <= length rows)%nat
  /\ forall record, In record starts_data ->
       exists row, In row rows /\ filter_fn row = Some true
                   /\ starts_of_row row = Some record.
Proof.
  intros Hread Hmap.
  destruct (read_csv_data_filter _ _ _ Hread) as (Hsub & _ & Htrue & _).
  pose proof (starts_of_rows_map _ _ Hmap) as Hall. split.
  - rewrite <- (Forall2_length Hall). now apply subsequence_length.
  - intros record Hin.
    destruct (Forall2_in_r _ _ _ Hall record Hin) as (row & Hrow & Hrec).
    exists row. repeat split; auto.
    clear -Hsub Hrow. induction Hsub; [contradiction | right; auto |].
    destruct Hrow as [<- | Hrow]; [now left | right; auto].
Qed.

(** X15. The records that [extract_apprenticeship_starts] returns are at
    most as many as the rows read, and each of them carries the requested
    standard code, a quarter and a number of starts that are not
    negative, the cleaned form of its provider name, and a provider name
    and a year without white space around them; a row without the field
    [start_quarter] gives quarter 0. *)
Theorem extracted_starts_invariants (rows : list csv_row) (code : string)
  (starts_data : list starts_record) :
  extract_apprenticeship_starts rows code = Some starts_data ->
  (length starts_data <= length rows)%nat
  /\ (forall record, In record starts_data ->
        standard_code record = code
        /\ 0 <= quarter record
        /\ 0 <= starts record
        /\ provider_clean record = clean_provider_name (provider record)
        /\ Str.strip (provider record) = provider record
        /\ Str.strip (year record) = year record)
  /\ ((forall row, In row rows -> Dict.get row "start_quarter" = None) ->
      forall record, In record starts_data -> quarter record = 0).
Proof.
  unfold extract_apprenticeship_starts.
  destruct (read_csv_data rows (filter_by_standard code)) as [raw|] eqn:Hread;
    [|discriminate].
  intros Hmap. destruct (extracted_records _ _ _ _ Hread Hmap) as [Hlen Hrec].
  split; [assumption|]. split.
  - intros record Hin. destruct (Hrec record Hin) as (row & _ & Hf & Hr).
    apply filter_by_standard_true in Hf.
    destruct (starts_of_row_spec _ _ Hr) as (Hc & Hp & Hy & Hpc & Hq & Hs & _).
    repeat split; try assumption.
    + rewrite Hf in Hc. now injection Hc as <-.
    + now apply (field_stripped row "provider_name").
    + now apply (field_stripped row "year").
  - intros Habs record Hin. destruct (Hrec record Hin) as (row & Hrow & _ & Hr).
    now apply (starts_of_row_spec _ _ Hr), Habs.
Qed.

Lemma extracted_starts_invariants_witness :
  standard_code
    (mk_record "Training Provider LTD (12345)" "Training Provider" "202425" 1 7
       "ST0116" "Software developer")
  = "ST0116"%string
  /\ quarter
       (mk_record "Other Provider" "Other Provider" "202425" 0 0
          "ST0116" "Software developer")
     = 0.
Proof.
  destruct (extracted_starts_invariants [london_row; other_row] "ST0116"
              [mk_record "Training Provider LTD (12345)" "Training Provider" "202425" 1 7
                 "ST0116" "Software developer";
               mk_record "Other Provider" "Other Provider" "202425" 0 0
                 "ST0116" "Software developer"]%string)
    as (_ & H & _).
  - vm_compute. reflexivity.
  - split.
    + apply H. left. reflexivity.
    + reflexivity.
Defined.

(** X16. When both extractions succeed on the same rows, the records of
    [extract_london_sme_starts] are records of
    [extract_apprenticeship_starts], in the same order, and their starts
    add up to no more than the starts of all records of the standard. *)
Theorem london_records_among_all (rows : list csv_row) (code : string)
  (london all_data : list starts_record) :
  extract_london_sme_starts rows code = Some london ->
  extract_apprenticeship_starts rows code = Some all_data ->
  subsequence london all_data
  /\ sum_Z (map starts london) <= sum_Z (map starts all_data).
Proof.
  unfold extract_london_sme_starts, extract_apprenticeship_starts.
  destruct (read_csv_data rows (filter_london_sme code)) as [london_raw|] eqn:Hl;
    [|discriminate].
  destruct (read_csv_data rows (filter_by_standard code)) as [all_raw|] eqn:Ha;
    [|discriminate].
  intros Hlondon Hall.
  destruct (read_csv_data_filter _ _ _ Hl) as (Hsub & _ & Htrue & _).
  assert (Hraw : subsequence london_raw all_raw).
  { apply (subsequence_read (filter_by_standard code) _ _ Hsub); [|assumption].
    intros row Hrow. now apply filter_london_sme_standard, Htrue. }
  destruct (starts_of_rows_subsequence _ _ Hraw _ Hall) as (kept & Hk & Hs).
  rewrite Hlondon in Hk. injection Hk as <-.
  split; [assumption|]. apply subsequence_sum; [assumption|].
  intros r Hr.
  destruct (Forall2_in_r _ _ _ (starts_of_rows_map _ _ Hall) r Hr) as (row & _ & Hrow).
  now apply (starts_of_row_spec _ _ Hrow).
Qed.

Lemma london_records_among_all_witness :
  sum_Z (map starts
           [mk_record "Training Provider LTD (12345)" "Training Provider" "202425" 1 7
              "ST0116" "Software developer"]%string)
  <= sum_Z (map starts
              [mk_record "Training Provider LTD (12345)" "Training Provider" "202425" 1 7
                 "ST0116" "Software developer";
               mk_record "Other Provider" "Other Provider" "202425" 0 0
                 "ST0116" "Software developer"]%string).
Proof.
  apply (london_records_among_all [london_row; other_row] "ST0116").
  - vm_compute. reflexivity.
  - vm_compute. reflexivity.
Defined.

(** X17. A short line that leaves the standard code out stops both
    extractions, whatever the other rows hold: neither function catches
    the AttributeError that the filter raises on it. *)
Theorem short_row_stops_extraction (rows : list csv_row) (code : string) (row : csv_row) :
  In row rows -> Dict.get row "st_code" = Some None ->
  extract_apprenticeship_starts rows code = None
  /\ extract_london_sme_starts rows code = None.
Proof.
  intros Hin Hshort.
  assert (Hf : field row "st_code" = None) by (unfold field; now rewrite Hshort).
  split.
  - unfold extract_apprenticeship_starts.
    destruct (read_csv_data rows (filter_by_standard code)) as [raw|] eqn:Hread;
      [|reflexivity].
    destruct (read_csv_data_filter _ _ _ Hread) as (_ & Hd & _).
    exfalso. apply (Hd row Hin). unfold filter_by_standard. now rewrite Hf.
  - unfold extract_london_sme_starts.
    destruct (read_csv_data rows (filter_london_sme code)) as [raw|] eqn:Hread;
      [|reflexivity].
    destruct (read_csv_data_filter _ _ _ Hread) as (_ & Hd & _).
    exfalso. apply (Hd row Hin). unfold filter_london_sme. now rewrite Hf.
Qed.

Lemma short_row_stops_extraction_witness :
  extract_apprenticeship_starts
    [london_row; [("provider_name", Some "Short"); ("st_code", None)]]%string "ST0116"
  = None.
Proof.
  apply (short_row_stops_extraction
           [london_row; [("provider_name", Some "Short"); ("st_code", None)]]%string
           "ST0116" [("provider_name", Some "Short"); ("st_code", None)]%string).
  - right. left. reflexivity.
  - reflexivity.
Defined.

(** * The Markdown table *)

Lemma length_dashes (n : nat) : String.length (dashes n) = n.
Proof. induction n as [|n IH]; simpl; [reflexivity | now rewrite IH]. Qed.

Lemma join_cons (sep p q : string) (rest : list string) :
  join sep (p :: q :: rest) = Str.cat p (Str.cat sep (join sep (q :: rest))).
Proof. reflexivity. Qed.

Lemma separator_cells_length (h : string) (rest : list string) :
  String.length (join "|" (map (fun h => dashes (String.length h + 2)) (h :: rest)))
  = (String.length (join " | " (h :: rest)) + 2)%nat.
Proof.
  revert h. induction rest as [|q rest IH]; intros h.
  - cbn [map join]. apply length_dashes.
  - cbn [map]. rewrite !join_cons, !length_append, length_dashes.
    pose proof (IH q) as Hq. cbn [map] in Hq. rewrite Hq.
    change (String.length "|") with 1%nat. change (String.length " | ") with 3%nat.
    lia.
Qed.

Lemma bars_and_dashes_append (a b : string) :
  bars_and_dashes (Str.cat a b) = bars_and_dashes a && bars_and_dashes b.
Proof.
  induction a as [|c a IH]; [reflexivity|].
  change (Str.cat (String c a) b) with (String c (Str.cat a b)).
  unfold bars_and_dashes in *. cbn [list_ascii_of_string forallb].
  now rewrite IH, andb_assoc.
Qed.

Lemma bars_and_dashes_dashes (n : nat) : bars_and_dashes (dashes n) = true.
Proof. induction n as [|n IH]; [reflexivity | exact IH]. Qed.

Lemma separator_cells_chars (headers : list string) :
  bars_and_dashes (join "|" (map (fun h => dashes (String.length h + 2)) headers)) = true.
Proof.
  induction headers as [|h rest IH]; [reflexivity|].
  destruct rest as [|q rest].
  - apply bars_and_dashes_dashes.
  - cbn [map] in *. rewrite join_cons, !bars_and_dashes_append.
    rewrite bars_and_dashes_dashes, IH. reflexivity.
Qed.

(** X18. With at least one column, the Markdown table starts with the
    header line, a newline and the separator line; the two lines have
    the same length, and the separator line consists of bars and dashes
    only. *)
Theorem markdown_header_aligned (headers : list string) (rows : list (list cell)) :
  headers <> [] ->
  Str.startswith (to_markdown headers rows)
    (Str.cat (markdown_line headers) (Str.cat newline (markdown_separator headers)))
  = true
  /\ String.length (markdown_line headers) = String.length (markdown_separator headers)
  /\ bars_and_dashes (markdown_separator headers) = true.
Proof.
  intros Hne. split; [|split].
  - unfold to_markdown, Str.startswith. destruct rows as [|row rows].
    + cbn [map]. rewrite join_cons. cbn [join]. apply startswith_refl.
    + cbn [map]. rewrite !join_cons.
      set (rest := join newline
                     (markdown_line (map cell_str row)
                      :: map (fun row => markdown_line (map cell_str row)) rows)).
      replace (Str.cat (markdown_line headers)
                 (Str.cat newline
                    (Str.cat (markdown_separator headers) (Str.cat newline rest))))
        with (Str.cat (Str.cat (markdown_line headers)
                         (Str.cat newline (markdown_separator headers)))
                (Str.cat newline rest))
        by now rewrite !append_assoc.
      apply prefix_append.
  - destruct headers as [|h rest]; [congruence|].
    unfold markdown_line, markdown_separator.
    rewrite !length_append, separator_cells_length.
    change (String.length "| ") with 2%nat. change (String.length " |") with 2%nat.
    change (String.length "|") with 1%nat. lia.
  - unfold markdown_separator. rewrite !bars_and_dashes_append, separator_cells_chars.
    reflexivity.
Qed.

Lemma markdown_header_aligned_witness :
  String.length (markdown_line ["Provider"; "2024-25"; "2024-25 Q1"]%string)
  = String.length (markdown_separator ["Provider"; "2024-25"; "2024-25 Q1"]%string).
Proof.
  destruct (markdown_header_aligned ["Provider"; "2024-25"; "2024-25 Q1"]%string [])
    as (_ & H & _).
  - discriminate.
  - exact H.
Defined.
